(** * vg-js: a shallow embedding of the game core and of the MCTS advisor

    The development follows the repository file by file:
    - [Card], [Board], [Player], [Party]: the entity model
      (core/Card.js, core/Circle.js, Board, Party);
    - [getContextValue], [evaluateCondition]: core/ConditionEvaluator.js;
    - [effects]: core/EffectLibrary.js;
    - [getPossibleActions] and its helpers: core/ActionManager.js;
    - [applyAction], [applyCloseStep], [processEvents]: core/ActionApplier.js;
    - [_backpropagate], [_determinize]: eval/EvaluationEngine.js.

    Conventions.  JavaScript numbers that the engine uses as counters, powers
    and indices are integers well below 2^53 and are modelled in [Z].  Arrays
    are lists in array order, so the top of a deck ([pop]) is the LAST
    element.  A JavaScript exception (a [throw], or a [TypeError] raised by
    reading a property of [null]/[undefined]) is an explicit result, and the
    messages written with [console.error]/[console.warn] are collected in a
    list of [Report]s; the narration written with [console.log] is left
    out. *)

From Stdlib Require Import ZArith List String Ascii Bool Lia Permutation.
Import ListNotations.

Local Open Scope string_scope.
Local Open Scope list_scope.
Local Open Scope Z_scope.

Set Implicit Arguments.
Set Warnings "-register-all".

(* ------------------------------------------------------------------ *)
(** ** JavaScript values and array primitives                          *)
(* ------------------------------------------------------------------ *)

(** The values a condition of the card data (JSON) can be. *)
Inductive JsVal : Type :=
| JUndefined
| JNull
| JBool (b : bool)
| JNum (n : Z)
| JStr (s : string)
| JArr (items : list JsVal)
| JObj (fields : list (string * JsVal)).

(** [!v] is true exactly on the falsy values. *)
Definition falsy (v : JsVal) : bool :=
  match v with
  | JUndefined | JNull => true
  | JBool b => negb b
  | JNum n => n =? 0
  | JStr s => (s =? "")%string
  | JArr _ | JObj _ => false
  end.

(** [a === b] for the operands the evaluator meets: primitives compare by
    type and value; an array or an object literal of the card data is never
    the same reference as a freshly computed field value. *)
Definition strict_eq (a b : JsVal) : bool :=
  match a, b with
  | JUndefined, JUndefined => true
  | JNull, JNull => true
  | JBool x, JBool y => Bool.eqb x y
  | JNum x, JNum y => x =? y
  | JStr x, JStr y => (x =? y)%string
  | _, _ => false
  end.

(** [arr[i]] : [None] is [undefined]. *)
Definition at_index {A : Type} (l : list A) (i : Z) : option A :=
  if i <? 0 then None else nth_error l (Z.to_nat i).

(** [arr.findIndex(p)], [None] standing for -1. *)
Fixpoint findIndex {A : Type} (p : A -> bool) (l : list A) : option nat :=
  match l with
  | [] => None
  | x :: r => if p x then Some O
              else match findIndex p r with
                   | Some k => Some (S k)
                   | None => None
                   end
  end.

(** [arr.splice(i, 1)] : the removed element, if any, and what is left. *)
Fixpoint splice1 {A : Type} (i : nat) (l : list A) : option A * list A :=
  match l, i with
  | [], _ => (None, [])
  | x :: r, O => (Some x, r)
  | x :: r, S k => let '(o, r') := splice1 k r in (o, x :: r')
  end.

(** [arr.splice(0, n)] on a number [n]: a negative count removes nothing. *)
Definition splice_front {A : Type} (n : Z) (l : list A) : list A * list A :=
  let k := Z.to_nat (Z.max 0 n) in (firstn k l, skipn k l).

(** [arr.pop()] : the last element and the rest. *)
Definition pop {A : Type} (l : list A) : option A * list A :=
  match rev l with
  | [] => (None, [])
  | x :: r => (Some x, rev r)
  end.

(** [arr.includes(x)] on an array of strings. *)
Definition includes (x : string) (l : list string) : bool :=
  existsb (String.eqb x) l.

(** [str.includes(pat)]. *)
Fixpoint str_includes (pat s : string) : bool :=
  String.prefix pat s ||
  match s with
  | EmptyString => false
  | String _ s' => str_includes pat s'
  end.

(** [str.split('.')]. *)
Fixpoint split_dot_aux (acc s : string) : list string :=
  match s with
  | EmptyString => [acc]
  | String c s' =>
      if Ascii.eqb c "."%char then acc :: split_dot_aux "" s'
      else split_dot_aux (acc ++ String c "")%string s'
  end.

Definition split_dot (s : string) : list string := split_dot_aux "" s.

(** [str.toLowerCase()] on the ASCII letters event names are made of. *)
Definition lower_ascii (c : ascii) : ascii :=
  let n := nat_of_ascii c in
  if (Nat.leb 65 n && Nat.leb n 90)%bool then ascii_of_nat (n + 32) else c.

Fixpoint toLowerCase (s : string) : string :=
  match s with
  | EmptyString => EmptyString
  | String c s' => String (lower_ascii c) (toLowerCase s')
  end.

(** The characters of a string as one-character strings ([str[i]] and
    array destructuring of a string). *)
Fixpoint chars (s : string) : list string :=
  match s with
  | EmptyString => []
  | String c s' => String c "" :: chars s'
  end.

(** How a call ends: normally with a value, or with an exception. *)
Inductive Completion (A : Type) : Type :=
| Normal (a : A)
| Throws.
Arguments Throws {A}.

(* ------------------------------------------------------------------ *)
(** ** Entity model                                                    *)
(* ------------------------------------------------------------------ *)

(** One entry of [card.effectsData.implemented_effects]. *)
Record EffectDef : Type := mkEffectDef {
  eff_trigger : string;              (* effect.trigger *)
  eff_zone : option string;          (* effect.zone, absent when falsy *)
  condition : JsVal;                 (* effect.condition *)
  mandatory : bool;
  is_act : bool;
  once_per_turn : bool;
  function_index : Z;
  cost_energy : option Z             (* effect.cost?.energy *)
}.

(** core/Card.js.  [grade], [power] and [shield] may be [null]. *)
Record Card : Type := mkCard {
  uniqueId : string;
  id : string;
  name : string;
  grade : option Z;
  power : option Z;
  critical : Z;
  shield : option Z;
  skills : list string;
  implemented_effects : option (list EffectDef);
  trigger : option string;
  drive : Z;
  isResting : bool;
  bonusPower : Z;
  bonusCritical : Z;
  isPublic : bool
}.

Definition set_isResting (b : bool) (c : Card) : Card :=
  mkCard (uniqueId c) (id c) (name c) (grade c) (power c) (critical c)
         (shield c) (skills c) (implemented_effects c) (trigger c) (drive c)
         b (bonusPower c) (bonusCritical c) (isPublic c).

Definition set_bonusPower (n : Z) (c : Card) : Card :=
  mkCard (uniqueId c) (id c) (name c) (grade c) (power c) (critical c)
         (shield c) (skills c) (implemented_effects c) (trigger c) (drive c)
         (isResting c) n (bonusCritical c) (isPublic c).

Definition set_bonusCritical (n : Z) (c : Card) : Card :=
  mkCard (uniqueId c) (id c) (name c) (grade c) (power c) (critical c)
         (shield c) (skills c) (implemented_effects c) (trigger c) (drive c)
         (isResting c) (bonusPower c) n (isPublic c).

Definition set_isPublic (b : bool) (c : Card) : Card :=
  mkCard (uniqueId c) (id c) (name c) (grade c) (power c) (critical c)
         (shield c) (skills c) (implemented_effects c) (trigger c) (drive c)
         (isResting c) (bonusPower c) (bonusCritical c) b.

(** A [null] operand of [+] and of a comparison converts to 0. *)
Definition num (o : option Z) : Z :=
  match o with Some n => n | None => 0 end.

(** Truthiness of [card.trigger] ([null] or a string). *)
Definition has_trigger (c : Card) : bool :=
  match trigger c with
  | Some t => negb (t =? "")%string
  | None => false
  end.

Definition trigger_is (t : string) (c : Card) : bool :=
  match trigger c with
  | Some t' => (t' =? t)%string
  | None => false
  end.

(** The six circles of a board (core/Circle.js: the name and the row of a
    circle are fixed by the Board constructor; only [unit] changes). *)
Inductive CircleName : Type := V | R1 | R2 | R3 | R4 | R5.

Definition circle_name (c : CircleName) : string :=
  match c with
  | V => "V" | R1 => "R1" | R2 => "R2" | R3 => "R3" | R4 => "R4" | R5 => "R5"
  end.

Definition CircleName_eqb (a b : CircleName) : bool :=
  (circle_name a =? circle_name b)%string.

(** Board: the [unit] of each circle, [None] when the circle is empty. *)
Record Board : Type := mkBoard {
  uR1 : option Card; uV : option Card; uR2 : option Card;
  uR3 : option Card; uR4 : option Card; uR5 : option Card
}.

Definition unit_of (b : Board) (c : CircleName) : option Card :=
  match c with
  | V => uV b | R1 => uR1 b | R2 => uR2 b
  | R3 => uR3 b | R4 => uR4 b | R5 => uR5 b
  end.

(** [circle.unit = u] on the circle [c] of the board. *)
Definition set_unit (c : CircleName) (u : option Card) (b : Board) : Board :=
  match c with
  | R1 => mkBoard u (uV b) (uR2 b) (uR3 b) (uR4 b) (uR5 b)
  | V  => mkBoard (uR1 b) u (uR2 b) (uR3 b) (uR4 b) (uR5 b)
  | R2 => mkBoard (uR1 b) (uV b) u (uR3 b) (uR4 b) (uR5 b)
  | R3 => mkBoard (uR1 b) (uV b) (uR2 b) u (uR4 b) (uR5 b)
  | R4 => mkBoard (uR1 b) (uV b) (uR2 b) (uR3 b) u (uR5 b)
  | R5 => mkBoard (uR1 b) (uV b) (uR2 b) (uR3 b) (uR4 b) u
  end.

Definition frontRow : list CircleName := [R1; V; R2].
Definition backRow : list CircleName := [R3; R4; R5].

(** [Board.getCircle(name)]: the first of V, R1..R5 with that name;
    [None] is the [throw new Error(...)] of the source. *)
Definition getCircle (name : string) : option CircleName :=
  find (fun c => (circle_name c =? name)%string) [V; R1; R2; R3; R4; R5].

(** One player's state (Party._createPlayerState).  A continuous effect
    is kept by its [id]; its closure is never cloned nor compared. *)
Record Player : Type := mkPlayer {
  deck : list Card;
  rideDeck : list Card;
  board : Board;
  hand : list Card;
  dropZone : list Card;
  damageZone : list Card;
  soul : list Card;
  gZone : list Card;
  bindZone : list Card;
  guardianZone : list Card;
  triggerZone : list Card;
  crestZone : list Card;
  orderZone : list Card;
  energy : Z;
  maxEnergy : Z;
  continuousEffects : list string;
  usedTurnlyEffects : list Z
}.

Definition set_deck (x : list Card) (p : Player) : Player :=
  mkPlayer x (rideDeck p) (board p) (hand p) (dropZone p) (damageZone p)
    (soul p) (gZone p) (bindZone p) (guardianZone p) (triggerZone p)
    (crestZone p) (orderZone p) (energy p) (maxEnergy p)
    (continuousEffects p) (usedTurnlyEffects p).

Definition set_rideDeck (x : list Card) (p : Player) : Player :=
  mkPlayer (deck p) x (board p) (hand p) (dropZone p) (damageZone p)
    (soul p) (gZone p) (bindZone p) (guardianZone p) (triggerZone p)
    (crestZone p) (orderZone p) (energy p) (maxEnergy p)
    (continuousEffects p) (usedTurnlyEffects p).

Definition set_board (x : Board) (p : Player) : Player :=
  mkPlayer (deck p) (rideDeck p) x (hand p) (dropZone p) (damageZone p)
    (soul p) (gZone p) (bindZone p) (guardianZone p) (triggerZone p)
    (crestZone p) (orderZone p) (energy p) (maxEnergy p)
    (continuousEffects p) (usedTurnlyEffects p).

Definition set_hand (x : list Card) (p : Player) : Player :=
  mkPlayer (deck p) (rideDeck p) (board p) x (dropZone p) (damageZone p)
    (soul p) (gZone p) (bindZone p) (guardianZone p) (triggerZone p)
    (crestZone p) (orderZone p) (energy p) (maxEnergy p)
    (continuousEffects p) (usedTurnlyEffects p).

Definition set_dropZone (x : list Card) (p : Player) : Player :=
  mkPlayer (deck p) (rideDeck p) (board p) (hand p) x (damageZone p)
    (soul p) (gZone p) (bindZone p) (guardianZone p) (triggerZone p)
    (crestZone p) (orderZone p) (energy p) (maxEnergy p)
    (continuousEffects p) (usedTurnlyEffects p).

Definition set_damageZone (x : list Card) (p : Player) : Player :=
  mkPlayer (deck p) (rideDeck p) (board p) (hand p) (dropZone p) x
    (soul p) (gZone p) (bindZone p) (guardianZone p) (triggerZone p)
    (crestZone p) (orderZone p) (energy p) (maxEnergy p)
    (continuousEffects p) (usedTurnlyEffects p).

Definition set_soul (x : list Card) (p : Player) : Player :=
  mkPlayer (deck p) (rideDeck p) (board p) (hand p) (dropZone p)
    (damageZone p) x (gZone p) (bindZone p) (guardianZone p) (triggerZone p)
    (crestZone p) (orderZone p) (energy p) (maxEnergy p)
    (continuousEffects p) (usedTurnlyEffects p).

Definition set_guardianZone (x : list Card) (p : Player) : Player :=
  mkPlayer (deck p) (rideDeck p) (board p) (hand p) (dropZone p)
    (damageZone p) (soul p) (gZone p) (bindZone p) x (triggerZone p)
    (crestZone p) (orderZone p) (energy p) (maxEnergy p)
    (continuousEffects p) (usedTurnlyEffects p).

Definition set_crestZone (x : list Card) (p : Player) : Player :=
  mkPlayer (deck p) (rideDeck p) (board p) (hand p) (dropZone p)
    (damageZone p) (soul p) (gZone p) (bindZone p) (guardianZone p)
    (triggerZone p) x (orderZone p) (energy p) (maxEnergy p)
    (continuousEffects p) (usedTurnlyEffects p).

Definition set_energy (x : Z) (p : Player) : Player :=
  mkPlayer (deck p) (rideDeck p) (board p) (hand p) (dropZone p)
    (damageZone p) (soul p) (gZone p) (bindZone p) (guardianZone p)
    (triggerZone p) (crestZone p) (orderZone p) x (maxEnergy p)
    (continuousEffects p) (usedTurnlyEffects p).

Definition set_continuousEffects (x : list string) (p : Player) : Player :=
  mkPlayer (deck p) (rideDeck p) (board p) (hand p) (dropZone p)
    (damageZone p) (soul p) (gZone p) (bindZone p) (guardianZone p)
    (triggerZone p) (crestZone p) (orderZone p) (energy p) (maxEnergy p)
    x (usedTurnlyEffects p).

Definition set_usedTurnlyEffects (x : list Z) (p : Player) : Player :=
  mkPlayer (deck p) (rideDeck p) (board p) (hand p) (dropZone p)
    (damageZone p) (soul p) (gZone p) (bindZone p) (guardianZone p)
    (triggerZone p) (crestZone p) (orderZone p) (energy p) (maxEnergy p)
    (continuousEffects p) x.

(** [currentPlayerIndex]: 0 for player 1, 1 for player 2. *)
Inductive PlayerIndex : Type := P0 | P1.

Definition index_num (i : PlayerIndex) : Z :=
  match i with P0 => 0 | P1 => 1 end.

(** [1 - index]. *)
Definition other (i : PlayerIndex) : PlayerIndex :=
  match i with P0 => P1 | P1 => P0 end.

(** What an effect procedure receives as [eventPayload]: the event's type
    and target ([{}] for an ACT). *)
Record Payload : Type := mkPayload {
  payload_type : option string;
  target : option (Card * Card)      (* ON_RIDE: [ridden upon, new] *)
}.

(** An entry of [event.pendingEffects].  [oid] is the identity of the
    JavaScript object: [indexOf] compares references, and two entries with
    equal fields (two copies of a card in play) are different objects. *)
Record PendingEffect : Type := mkPending {
  oid : nat;
  cardName : string;
  cardId : string;
  effect : EffectDef;
  eventPayload : Payload
}.

(** An event of the queue; [pendingEffects] is [None] until collected. *)
Record Event : Type := mkEvent {
  ev_type : string;
  ev_target : option (Card * Card);
  pendingEffects : option (list PendingEffect)
}.

Definition set_pendingEffects (l : option (list PendingEffect)) (e : Event)
  : Event := mkEvent (ev_type e) (ev_target e) l.

Definition payload_of (e : Event) : Payload :=
  mkPayload (Some (ev_type e)) (ev_target e).

(** A reference to a circle object: whose board, and which circle. *)
Definition CircleRef : Type := (PlayerIndex * CircleName)%type.

(** [party.currentBattle]: the two circles are references into the boards
    (applyAttack stores the circle objects themselves), so a later write
    through [targetCircle.unit] is a write to the board. *)
Record Battle : Type := mkBattle {
  attackerCircle : CircleRef;
  targetCircle : CircleRef;
  attackerPower : Z
}.

(** The game state (class Party). *)
Record Party : Type := mkParty {
  player0 : Player;
  player1 : Player;
  turn : Z;
  currentPlayerIndex : PlayerIndex;
  phase : string;
  currentBattle : option Battle;
  eventQueue : list Event;
  nextPhase : option string
}.

Definition players (s : Party) (i : PlayerIndex) : Player :=
  match i with P0 => player0 s | P1 => player1 s end.

Definition set_player (i : PlayerIndex) (p : Player) (s : Party) : Party :=
  match i with
  | P0 => mkParty p (player1 s) (turn s) (currentPlayerIndex s) (phase s)
            (currentBattle s) (eventQueue s) (nextPhase s)
  | P1 => mkParty (player0 s) p (turn s) (currentPlayerIndex s) (phase s)
            (currentBattle s) (eventQueue s) (nextPhase s)
  end.

(** In-place update of one player's object. *)
Definition upd_player (i : PlayerIndex) (f : Player -> Player) (s : Party)
  : Party := set_player i (f (players s i)) s.

Definition set_currentPlayerIndex (i : PlayerIndex) (s : Party) : Party :=
  mkParty (player0 s) (player1 s) (turn s) i (phase s) (currentBattle s)
    (eventQueue s) (nextPhase s).

Definition set_phase (x : string) (s : Party) : Party :=
  mkParty (player0 s) (player1 s) (turn s) (currentPlayerIndex s) x
    (currentBattle s) (eventQueue s) (nextPhase s).

Definition set_currentBattle (x : option Battle) (s : Party) : Party :=
  mkParty (player0 s) (player1 s) (turn s) (currentPlayerIndex s) (phase s)
    x (eventQueue s) (nextPhase s).

Definition set_eventQueue (x : list Event) (s : Party) : Party :=
  mkParty (player0 s) (player1 s) (turn s) (currentPlayerIndex s) (phase s)
    (currentBattle s) x (nextPhase s).

Definition set_nextPhase (x : option string) (s : Party) : Party :=
  mkParty (player0 s) (player1 s) (turn s) (currentPlayerIndex s) (phase s)
    (currentBattle s) (eventQueue s) x.

(** The unit on a referenced circle, and a write through the reference. *)
Definition unit_at (s : Party) (r : CircleRef) : option Card :=
  unit_of (board (players s (fst r))) (snd r).

Definition set_unit_at (r : CircleRef) (u : option Card) (s : Party) : Party :=
  upd_player (fst r) (fun p => set_board (set_unit (snd r) u (board p)) p) s.

(** cloneDeep(obj): a copy of everything reachable, with the sharing inside
    the copy kept (the WeakMap of seen objects).  In this value model a
    state and its clone have the same contents; that they are different
    objects is recorded by who receives the later writes (see [Returned]
    and [Outcome] below). *)
Definition cloneDeep (s : Party) : Party := s.

(* ------------------------------------------------------------------ *)
(** ** Reports and the result of a call                                *)
(* ------------------------------------------------------------------ *)

(** The conditions the core reports ([console.error], [console.warn], and
    the "Cannot activate" line of applyAct). *)
Inductive Report : Type :=
| ErrCallIndexNotFound (idx : option Z)
| ErrCircleNotFound (tag : string)
| ErrGuardNotInHand (iid : string)
| ErrInterceptNotFound (iid fromCircle : string)
| ErrInvalidAttack
| ErrRideNotInHand (cid : string)
| ErrRideNotInRideDeck (cid : string)
| ErrDiscardNotInHand (cid : option string)
| ErrRideUnknownSource (src : string)
| ErrPendingEffectNotFound
| CannotActivateNotEnoughEnergy
| WarnNoApplier (type : string)
| WarnDeckEmpty (i : PlayerIndex)
| WarnUnknownOperator (op : JsVal)
| WarnInvalidCondition (c : JsVal).

(** A computation that reports and may throw. *)
Definition Eval (A : Type) : Type := (list Report * Completion A)%type.

Definition ret {A : Type} (a : A) : Eval A := ([], Normal a).

Definition throw {A : Type} : Eval A := ([], Throws).

Definition warn (r : Report) : Eval unit := ([r], Normal tt).

Definition bind {A B : Type} (m : Eval A) (k : A -> Eval B) : Eval B :=
  match m with
  | (r, Normal a) => let '(r', x) := k a in (r ++ r', x)
  | (r, Throws) => (r, Throws)
  end.

Declare Scope eval_scope.
Delimit Scope eval_scope with eval.
Notation "x <- m ;; k" := (bind m (fun x => k))
  (at level 61, m at next level, right associativity) : eval_scope.
Notation "m ;;; k" := (bind m (fun _ => k))
  (at level 61, right associativity) : eval_scope.
Local Open Scope eval_scope.

(* ------------------------------------------------------------------ *)
(** ** core/ConditionEvaluator.js                                      *)
(* ------------------------------------------------------------------ *)

(** [acc[part]] on the values a field path walks through: own properties
    of the context object.  (Members inherited from Object.prototype or
    Number.prototype, as in the path "player.constructor", are outside
    this model and read as [undefined].) *)
Fixpoint own_property (fields : list (string * JsVal)) (key : string) : JsVal :=
  match fields with
  | [] => JUndefined
  | (k, v) :: r => if (k =? key)%string then v else own_property r key
  end.

Definition get_prop (acc : JsVal) (part : string) : JsVal :=
  match acc with
  | JObj fields => own_property fields part
  | _ => JUndefined
  end.

(** getContextValue(path, party).  [path.split] exists on strings only:
    any other [path] is a TypeError. *)
Definition getContextValue (path : JsVal) (party : Party) : Completion JsVal :=
  match path with
  | JStr p =>
      match split_dot p with
      | context :: restOfPath =>
          if (context =? "player")%string then
            let player := players party (currentPlayerIndex party) in
            let baseContext :=
              JObj [("index", JNum (index_num (currentPlayerIndex party)));
                    ("energy", JNum (energy player))] in
            Normal (fold_left
                      (fun acc part => if falsy acc then acc else get_prop acc part)
                      restOfPath baseContext)
          else Normal JUndefined
      | [] => Normal JUndefined
      end
  | _ => Throws
  end.

Definition is_str (s : string) (v : JsVal) : bool :=
  match v with
  | JStr s' => (s' =? s)%string
  | _ => false
  end.

Section ConditionEvaluator.

(** [a >= b] and [a <= b] when the operands are not both numbers: the
    language converts them (ToPrimitive, ToNumber, or a string
    comparison), which may even throw; the conversions are a parameter
    of the model. *)
Variable coerce_ge coerce_le : JsVal -> JsVal -> Completion bool.

Definition js_ge (a b : JsVal) : Completion bool :=
  match a, b with
  | JNum x, JNum y => Normal (x >=? y)
  | _, _ => coerce_ge a b
  end.

Definition js_le (a b : JsVal) : Completion bool :=
  match a, b with
  | JNum x, JNum y => Normal (x <=? y)
  | _, _ => coerce_le a b
  end.

(** The tail of evaluateCondition: the comparison [field, operator,
    value] when [condition.length === 3], the "Invalid condition format"
    report otherwise.  [items] are the elements of [condition]. *)
Definition evalComparison (condition : JsVal) (items : list JsVal)
           (party : Party) : Eval bool :=
  match items with
  | [field; operator; value] =>
      match getContextValue field party with
      | Throws => throw
      | Normal fieldValue =>
          if is_str "===" operator then ret (strict_eq fieldValue value)
          else if is_str "!==" operator then ret (negb (strict_eq fieldValue value))
          else if is_str ">=" operator then ([], js_ge fieldValue value)
          else if is_str "<=" operator then ([], js_le fieldValue value)
          else warn (WarnUnknownOperator operator) ;;; ret false
      end
  | _ => warn (WarnInvalidCondition condition) ;;; ret false
  end.

(** evaluateCondition on a one-character string (an element [s[i]] of a
    string condition): it is truthy, contains neither word, and its
    length is 1. *)
Definition evalChar (c : JsVal) : Eval bool :=
  warn (WarnInvalidCondition c) ;;; ret false.

Definition second (items : list JsVal) : JsVal :=
  match items with
  | _ :: o :: _ => o
  | _ => JUndefined
  end.

(** evaluateCondition(condition, party). *)
Fixpoint evaluateCondition (condition : JsVal) (party : Party) {struct condition}
  : Eval bool :=
  if falsy condition then ret true
  else
    match condition with
    | JArr items =>
        if existsb (is_str "and") items || existsb (is_str "or") items then
          left <- match items with
                  | x :: _ => evaluateCondition x party
                  | [] => ret true
                  end ;;
          let operator := second items in
          right <- match items with
                   | _ :: _ :: z :: _ => evaluateCondition z party
                   | _ => ret true
                   end ;;
          if is_str "and" operator then ret (left && right)
          else if is_str "or" operator then ret (left || right)
          else evalComparison condition items party
        else evalComparison condition items party
    | JStr s =>
        let items := map JStr (chars s) in
        if str_includes "and" s || str_includes "or" s then
          _left <- match items with
                   | x :: _ => evalChar x
                   | [] => ret true
                   end ;;
          _right <- match items with
                    | _ :: _ :: z :: _ => evalChar z
                    | _ => ret true
                    end ;;
          (* s[1] is one character: neither 'and' nor 'or' *)
          evalComparison condition items party
        else evalComparison condition items party
    | _ =>
        (* a number, [true] or a plain object has no [includes] method *)
        throw
    end.

End ConditionEvaluator.

(* ------------------------------------------------------------------ *)
(** ** core/Party.js: draw, damage check, trigger effects              *)
(* ------------------------------------------------------------------ *)

(** A procedure that works in place on the party object it is given: the
    party after the call (with whatever was written before an exception),
    the reports, and how the call ended. *)
Definition Proc : Type := Party -> Party * Eval unit.

(** One round of the loop of [draw]. *)
Definition draw1 (playerIndex : PlayerIndex) (s : Party) : Party * list Report :=
  let player := players s playerIndex in
  match pop (deck player) with
  | (Some card, rest) =>
      (upd_player playerIndex
         (fun p => set_hand (hand p ++ [card]) (set_deck rest p)) s, [])
  | (None, _) => (s, [WarnDeckEmpty playerIndex])
  end.

Fixpoint draw_loop (n : nat) (playerIndex : PlayerIndex) (s : Party)
  : Party * list Report :=
  match n with
  | O => (s, [])
  | S k => let '(s1, r1) := draw1 playerIndex s in
           let '(s2, r2) := draw_loop k playerIndex s1 in
           (s2, r1 ++ r2)
  end.

(** party.draw(playerIndex, count). *)
Definition draw (playerIndex : PlayerIndex) (count : Z) (s : Party)
  : Party * list Report := draw_loop (Z.to_nat count) playerIndex s.

(** The readline interface: [rl k] is the answer to the k-th question of
    the session after [parseInt(answer, 10)], [None] being NaN. *)
Definition Readline : Type := nat -> option Z.

(** The circles of a board that hold a unit, front row first
    ([boardUnits] of applyTriggerEffect, by circle). *)
Definition occupied (b : Board) : list CircleName :=
  filter (fun c => match unit_of b c with Some _ => true | None => false end)
         (frontRow ++ backRow).

(** [unit.bonusPower += n] / [unit.bonusCritical += n] on a circle. *)
Definition add_bonusPower (n : Z) (c : CircleName) (b : Board) : Board :=
  set_unit c (option_map (fun u => set_bonusPower (bonusPower u + n) u)
                         (unit_of b c)) b.

Definition add_bonusCritical (n : Z) (c : CircleName) (b : Board) : Board :=
  set_unit c (option_map (fun u => set_bonusCritical (bonusCritical u + n) u)
                         (unit_of b c)) b.

(** [if (boardUnits[answer]) boardUnits[answer].bonus... += ...]. *)
Definition chosen (boardUnits : list CircleName) (answer : option Z)
  : option CircleName :=
  match answer with
  | Some i => at_index boardUnits i
  | None => None
  end.

(** party.applyTriggerEffect(triggerType, playerIndex, rl); [asked] counts
    the questions already put to [rl]. *)
Definition applyTriggerEffect (triggerType : string) (playerIndex : PlayerIndex)
           (rl : Readline) (asked : nat) (s : Party)
  : Party * nat * list Report :=
  let boardUnits := occupied (board (players s playerIndex)) in
  if (triggerType =? "Front")%string then
    (upd_player playerIndex
       (fun p => set_board
                   (fold_left (fun b c => add_bonusPower 10000 c b) frontRow (board p))
                   p) s,
     asked, [])
  else
    let s1 :=
      match chosen boardUnits (rl asked) with
      | Some c => upd_player playerIndex
                    (fun p => set_board (add_bonusPower 10000 c (board p)) p) s
      | None => s
      end in
    let asked1 := S asked in
    if (triggerType =? "Critical")%string then
      let s2 :=
        match chosen boardUnits (rl asked1) with
        | Some c => upd_player playerIndex
                      (fun p => set_board (add_bonusCritical 1 c (board p)) p) s1
        | None => s1
        end in
      (s2, S asked1, [])
    else if (triggerType =? "Draw")%string then
      let '(s2, r) := draw playerIndex 1 s1 in (s2, asked1, r)
    else if (triggerType =? "Heal")%string then
      let player := players s1 playerIndex in
      let opponent := players s1 (other playerIndex) in
      if (Z.of_nat (List.length (damageZone player)) >=? Z.of_nat (List.length (damageZone opponent)))
         && (Z.of_nat (List.length (damageZone player)) >? 0) then
        match pop (damageZone player) with
        | (Some healedCard, rest) =>
            (upd_player playerIndex
               (fun p => set_dropZone (dropZone p ++ [healedCard])
                           (set_damageZone rest p)) s1,
             asked1, [])
        | (None, _) => (s1, asked1, [])
        end
      else (s1, asked1, [])
    else (s1, asked1, []).

(** One round of the loop of [damageCheck]. *)
Definition damageCheck1 (playerIndex : PlayerIndex) (rl : Readline)
           (asked : nat) (s : Party) : Party * nat * list Report :=
  match pop (deck (players s playerIndex)) with
  | (Some checkedCard, rest) =>
      let s1 := upd_player playerIndex (set_deck rest) s in
      let '(s2, asked2, r) :=
        if has_trigger checkedCard then
          applyTriggerEffect (match trigger checkedCard with
                              | Some t => t | None => "" end)
                             playerIndex rl asked s1
        else (s1, asked, []) in
      (upd_player playerIndex
         (fun p => set_damageZone (damageZone p ++ [checkedCard]) p) s2,
       asked2, r)
  | (None, _) => (s, asked, [])
  end.

Fixpoint damageCheck_loop (n : nat) (playerIndex : PlayerIndex) (rl : Readline)
         (asked : nat) (s : Party) : Party * nat * list Report :=
  match n with
  | O => (s, asked, [])
  | S k => let '(s1, a1, r1) := damageCheck1 playerIndex rl asked s in
           let '(s2, a2, r2) := damageCheck_loop k playerIndex rl a1 s1 in
           (s2, a2, r1 ++ r2)
  end.

(** party.damageCheck(playerIndex, amount, rl). *)
Definition damageCheck (playerIndex : PlayerIndex) (amount : Z) (rl : Readline)
           (s : Party) : Party * list Report :=
  let '(s', _, r) := damageCheck_loop (Z.to_nat amount) playerIndex rl O s in
  (s', r).

(* ------------------------------------------------------------------ *)
(** ** core/EffectLibrary.js                                           *)
(* ------------------------------------------------------------------ *)

(** An effect procedure [(party, eventPayload, rl) => ...]; the four
    procedures of the library never read [rl]. *)
Definition EffectFn : Type := Payload -> Proc.

(** Effect 0: destructuring [eventPayload.target] throws when the payload
    has no target (the [{}] handed over by applyAct). *)
Definition onRideIfSecondDraw : EffectFn := fun eventPayload party =>
  match target eventPayload with
  | None => (party, throw)
  | Some (_riddedCard, _riddingCard) =>
      let '(party', r) := draw (currentPlayerIndex party) 1 party in
      (party', (r, Normal tt))
  end.

(** Effect 1. *)
Definition onRideEnergyCrest : EffectFn := fun _ party =>
  let playerIndex := currentPlayerIndex party in
  let player := players party playerIndex in
  let party1 :=
    match findIndex (fun c => (name c =? "Energy Generator")%string) (rideDeck player) with
    | Some crestIndex =>
        match splice1 crestIndex (rideDeck player) with
        | (Some crestCard, rest) =>
            upd_player playerIndex
              (fun p => set_continuousEffects (continuousEffects p ++ ["MAX_ENERGY_10"])
                          (set_crestZone (crestZone p ++ [crestCard])
                             (set_rideDeck rest p))) party
        | (None, _) => party
        end
    | None => party
    end in
  let party2 :=
    match playerIndex with
    | P1 => upd_player playerIndex (fun p => set_energy (energy p + 3) p) party1
    | P0 => party1
    end in
  (party2, ret tt).

(** Effect 2. *)
Definition onRidePhaseStartEnergyCrest : EffectFn := fun _ party =>
  (upd_player (currentPlayerIndex party) (fun p => set_energy (energy p + 3) p) party,
   ret tt).

(** Effect 3. *)
Definition onActEnergyCrest : EffectFn := fun _ party =>
  let playerIndex := currentPlayerIndex party in
  let party1 := upd_player playerIndex (fun p => set_energy (energy p - 7) p) party in
  let '(party2, r) := draw playerIndex 1 party1 in
  (party2, (r, Normal tt)).

(** [effects[function_index]]: [None] is [undefined]. *)
Definition effects (function_index : Z) : option EffectFn :=
  at_index [onRideIfSecondDraw; onRideEnergyCrest;
            onRidePhaseStartEnergyCrest; onActEnergyCrest] function_index.

(* ------------------------------------------------------------------ *)
(** ** Actions (the boundary object of generator and applier)          *)
(* ------------------------------------------------------------------ *)

(** The action objects, by their [type] string, with the fields the core
    reads (display strings are left out).  A field the object may lack is
    an [option]; [OTHER] is any object with another [type]. *)
Inductive Action : Type :=
| MULLIGAN (cardIndicesToRedraw : list Z)
| RIDE (rideCardId : string) (source : string) (discardCardId : option string)
| PASS_RIDE_PHASE
| CALL (cardIndexInHand : option Z) (cardInstanceId : option string)
       (circleTag : string)
| ACT (actCardId : string) (actEffect : EffectDef)
| ACTIVATE_EFFECT (effectToActivate : PendingEffect)
| MOVE (from to : string)
| ATTACK (attacker : string) (target_ : string) (boost : bool)
| GUARD (guardInstanceId : string) (guardShield : option Z)
| INTERCEPT (interceptInstanceId : string) (interceptShield : option Z)
            (fromCircle : string)
| PASS_EFFECT
| PASS_MAIN_PHASE
| PASS_BATTLE_PHASE
| PASS_GUARD_STEP
| PROCESS_EVENTS
| PASS
| OTHER (type : string).

(** [0, 1, ..., n-1]. *)
Definition range (n : Z) : list Z := map Z.of_nat (seq 0 (Z.to_nat n)).

Definition opt_Z_eqb (a b : option Z) : bool :=
  match a, b with
  | Some x, Some y => x =? y
  | None, None => true
  | _, _ => false
  end.

Definition is_some {A : Type} (o : option A) : bool :=
  match o with Some _ => true | None => false end.

(** [unit && !unit.isResting && unit.skills.includes(skill)]. *)
Definition ready_with (skill : string) (u : option Card) : bool :=
  match u with
  | Some c => negb (isResting c) && includes skill (skills c)
  | None => false
  end.

(** [unit && !unit.isResting]. *)
Definition standing (u : option Card) : bool :=
  match u with
  | Some c => negb (isResting c)
  | None => false
  end.

(* ------------------------------------------------------------------ *)
(** ** core/ActionManager.js                                           *)
(* ------------------------------------------------------------------ *)

(** getCallActions(gameState, activePlayer). *)
Definition getCallActions (gameState : Party) (activePlayer : Player)
  : list Action :=
  match unit_of (board activePlayer) V with
  | None => []
  | Some vanguard =>
      let vanguardGrade := grade vanguard in
      let availableCircles :=
        filter (fun c => negb (circle_name c =? "V")%string) frontRow ++ backRow in
      flat_map
        (fun card =>
           if is_some (power card) && (num (grade card) <=? num vanguardGrade) then
             map (fun circle => CALL None (Some (uniqueId card)) (circle_name circle))
                 availableCircles
           else [])
        (hand activePlayer)
  end.

(** getMoveActions(gameState, activePlayer). *)
Definition getMoveActions (gameState : Party) (activePlayer : Player)
  : list Action :=
  flat_map
    (fun col : CircleName * CircleName =>
       let '(frontCircle, backCircle) := col in
       let f := is_some (unit_of (board activePlayer) frontCircle) in
       let b := is_some (unit_of (board activePlayer) backCircle) in
       if f || b then
         [MOVE (if f then circle_name frontCircle else circle_name backCircle)
               (if f then circle_name backCircle else circle_name frontCircle)]
       else [])
    [(R1, R3); (R2, R5)].

(** The units of a row, empty circles dropped ([.filter(Boolean)]). *)
Definition units (b : Board) (row : list CircleName) : list Card :=
  flat_map (fun c => match unit_of b c with Some u => [u] | None => [] end) row.

(** getGuardActions(gameState). *)
Definition getGuardActions (gameState : Party) : list Action :=
  let defendingPlayer := players gameState (other (currentPlayerIndex gameState)) in
  let guards :=
    flat_map (fun card => match shield card with
                          | Some _ => [GUARD (uniqueId card) (shield card)]
                          | None => []
                          end)
             (hand defendingPlayer) in
  let interceptors :=
    filter (fun c => ready_with "Intercept" (unit_of (board defendingPlayer) c))
           frontRow in
  let intercepts :=
    flat_map (fun circle =>
                match unit_of (board defendingPlayer) circle with
                | Some u => [INTERCEPT (uniqueId u) (shield u) (circle_name circle)]
                | None => []
                end)
             interceptors in
  guards ++ intercepts ++ [PASS_GUARD_STEP].

(** The back circle of a column: [{ 'R1': 'R3', 'V': 'R4', 'R2': 'R5' }[name]]. *)
Definition backRowCircleName (c : CircleName) : option CircleName :=
  match c with
  | R1 => Some R3 | V => Some R4 | R2 => Some R5
  | _ => None
  end.

(** getBattlePhaseActions(gameState). *)
Definition getBattlePhaseActions (gameState : Party) : list Action :=
  let activePlayer := players gameState (currentPlayerIndex gameState) in
  let opponentPlayer := players gameState (other (currentPlayerIndex gameState)) in
  let potentialAttackers :=
    filter (fun c => standing (unit_of (board activePlayer) c)) frontRow in
  let potentialTargets :=
    filter (fun c => is_some (unit_of (board opponentPlayer) c)) frontRow in
  let createAttackAction (attackerCircle : CircleName) (shouldBoost : bool) :=
    map (fun targetCircle =>
           ATTACK (circle_name attackerCircle) (circle_name targetCircle) shouldBoost)
        potentialTargets in
  (match potentialTargets with
   | [] => []
   | _ :: _ =>
       flat_map
         (fun attackerCircle =>
            let boosted :=
              match backRowCircleName attackerCircle with
              | Some back => ready_with "Boost" (unit_of (board activePlayer) back)
              | None => false
              end in
            if boosted then
              createAttackAction attackerCircle true
              ++ createAttackAction attackerCircle false
            else createAttackAction attackerCircle false)
         potentialAttackers
   end) ++ [PASS_BATTLE_PHASE].

(** [(i >> j) & 1]: the shift works on the 32-bit integer of [i] and on
    [j] modulo 32. *)
Definition to_int32 (i : Z) : Z :=
  let m := i mod 2 ^ 32 in if m >=? 2 ^ 31 then m - 2 ^ 32 else m.

Definition bit_set (i j : Z) : bool :=
  Z.odd (Z.shiftr (to_int32 i) (j mod 32)).

(** getMulliganActions(gameState, activePlayer). *)
Definition getMulliganActions (gameState : Party) (activePlayer : Player)
  : list Action :=
  let handSize := Z.of_nat (List.length (hand activePlayer)) in
  map (fun i => MULLIGAN (filter (bit_set i) (range handSize)))
      (range (2 ^ handSize)).

(** [new Map(hand.map(card => [card.name, card])).values()]: one card per
    name, in the order the names first appear, the LAST card of a name
    winning. *)
Fixpoint last_named (n : string) (l : list Card) (d : Card) : Card :=
  match l with
  | [] => d
  | c :: r => last_named n r (if (name c =? n)%string then c else d)
  end.

Fixpoint distinct_names (l : list Card) (seen : list string) : list string :=
  match l with
  | [] => []
  | c :: r => if includes (name c) seen then distinct_names r seen
              else name c :: distinct_names r (name c :: seen)
  end.

Definition by_name (l : list Card) : list Card :=
  flat_map (fun n => match find (fun c => (name c =? n)%string) l with
                     | Some d => [last_named n l d]
                     | None => []
                     end)
           (distinct_names l []).

(** The rides from hand, one per distinct [cardId] ([seenActions]). *)
Fixpoint handRides (cvg : option Z) (l : list Card) (seen : list string)
  : list Action :=
  match l with
  | [] => []
  | card :: r =>
      if opt_Z_eqb (grade card) (Some (num cvg + 1)) || opt_Z_eqb (grade card) cvg then
        if includes (id card) seen then handRides cvg r seen
        else RIDE (id card) "hand" None :: handRides cvg r (id card :: seen)
      else handRides cvg r seen
  end.

(** getRideActions(gameState, activePlayer). *)
Definition getRideActions (gameState : Party) (activePlayer : Player)
  : list Action :=
  let currentVanguardGrade :=
    match unit_of (board activePlayer) V with
    | Some currentVanguard => grade currentVanguard
    | None => Some (-1)
    end in
  handRides currentVanguardGrade (hand activePlayer) []
  ++ match find (fun c => opt_Z_eqb (grade c) (Some (num currentVanguardGrade + 1)))
                (rideDeck activePlayer) with
     | Some rideDeckCardToRide =>
         map (fun cardToDiscard =>
                RIDE (id rideDeckCardToRide) "rideDeck" (Some (id cardToDiscard)))
             (by_name (hand activePlayer))
     | None => []
     end
  ++ [PASS_RIDE_PHASE].

(** getEffectActions(gameState).  The fallback that would collect the
    pending effects names [collectEffectsForEvent], which ActionManager.js
    neither defines nor imports: reaching it is a ReferenceError. *)
Definition getEffectActions (gameState : Party) : Completion (list Action) :=
  match eventQueue gameState with
  | [] => Normal []
  | currentEvent :: _ =>
      match pendingEffects currentEvent with
      | None => Throws
      | Some pending =>
          Normal (map ACTIVATE_EFFECT
                      (filter (fun p => negb (mandatory (effect p))) pending)
                  ++ [PASS_EFFECT])
      end
  end.

(** What an applier hands back: the caller's own object ([return
    gameState]) or the clone it made and updated. *)
Inductive Returned : Type :=
| SameObject
| NewObject (newGameState : Party).

(** [arr[i] = x]. *)
Fixpoint update_nth {A : Type} (i : nat) (x : A) (l : list A) : list A :=
  match l, i with
  | [], _ => []
  | _ :: r, O => x :: r
  | y :: r, S k => y :: update_nth k x r
  end.

(** [[d[i], d[j]] = [d[j], d[i]]]. *)
Definition swap {A : Type} (i j : nat) (d : list A) : list A :=
  match nth_error d i, nth_error d j with
  | Some a, Some b => update_nth j a (update_nth i b d)
  | _, _ => d
  end.

Section Core.

(** The conversions of the relational operators (see [js_ge]). *)
Variable coerce_ge coerce_le : JsVal -> JsVal -> Completion bool.

(** The registry of effect procedures ([effectLibrary] in
    ActionApplier.js); the repository's own registry is [effects]. *)
Variable effectLibrary : Z -> option EffectFn.

(** [Math.floor(Math.random() * (i + 1))] at index [i] of a shuffle. *)
Variable randomIndex : Z -> Z.

(** *** ActionManager.js, continued *)

(** The ACT actions of one card. *)
Fixpoint actsOf (gameState : Party) (used : list Z) (cid : string)
         (effs : list EffectDef) : Eval (list Action) :=
  match effs with
  | [] => ret []
  | e :: r =>
      here <- (if is_act e then
                 if once_per_turn e && existsb (Z.eqb (function_index e)) used
                 then ret []
                 else ok <- evaluateCondition coerce_ge coerce_le (condition e) gameState ;;
                      ret (if ok then [ACT cid e] else [])
               else ret []) ;;
      rest <- actsOf gameState used cid r ;;
      ret (here ++ rest)
  end.

Fixpoint actsOfCards (gameState : Party) (used : list Z) (cards : list Card)
  : Eval (list Action) :=
  match cards with
  | [] => ret []
  | card :: r =>
      here <- match implemented_effects card with
              | Some effs => actsOf gameState used (id card) effs
              | None => ret []
              end ;;
      rest <- actsOfCards gameState used r ;;
      ret (here ++ rest)
  end.

(** getActActions(gameState, activePlayer). *)
Definition getActActions (gameState : Party) (activePlayer : Player)
  : Eval (list Action) :=
  actsOfCards gameState (usedTurnlyEffects activePlayer)
    (units (board activePlayer) frontRow
     ++ units (board activePlayer) backRow
     ++ crestZone activePlayer).

(** getMainPhaseActions(gameState). *)
Definition getMainPhaseActions (gameState : Party) : Eval (list Action) :=
  let activePlayer := players gameState (currentPlayerIndex gameState) in
  let callActions := getCallActions gameState activePlayer in
  let moveActions := getMoveActions gameState activePlayer in
  actActions <- getActActions gameState activePlayer ;;
  ret (callActions ++ moveActions ++ actActions ++ [PASS_MAIN_PHASE]).

(** getPossibleActions(gameState). *)
Definition getPossibleActions (gameState : Party) : Eval (list Action) :=
  let currentPhase := phase gameState in
  let activePlayer := players gameState (currentPlayerIndex gameState) in
  if (currentPhase =? "mulligan")%string then
    ret (getMulliganActions gameState activePlayer)
  else if (currentPhase =? "ride")%string then
    ret (getRideActions gameState activePlayer)
  else if (currentPhase =? "main")%string then getMainPhaseActions gameState
  else if (currentPhase =? "act")%string then ret []
  else if (currentPhase =? "battle")%string then
    ret (getBattlePhaseActions gameState)
  else if (currentPhase =? "guard")%string then ret (getGuardActions gameState)
  else if (currentPhase =? "effect_resolution")%string then
    ([], getEffectActions gameState)
  else ret [PASS].

(** *** core/ActionApplier.js *)

(** party.shuffleDeck(playerIndex): Fisher-Yates, [i] from the last index
    down to 1. *)
Fixpoint fisher_yates (i : nat) (d : list Card) : list Card :=
  match i with
  | O => d
  | S k => fisher_yates k (swap i (Z.to_nat (randomIndex (Z.of_nat i))) d)
  end.

Definition shuffleDeck (playerIndex : PlayerIndex) (s : Party) : Party :=
  upd_player playerIndex
    (fun p => set_deck (fisher_yates (List.length (deck p) - 1) (deck p)) p) s.

(** [hand.forEach((card, index) => ...)] of applyMulligan: the cards to
    keep and the cards to redraw. *)
Fixpoint separate (redraw : list Z) (index : Z) (l : list Card)
  : list Card * list Card :=
  match l with
  | [] => ([], [])
  | card :: r =>
      let '(keep, re) := separate redraw (index + 1) r in
      if existsb (Z.eqb index) redraw then (keep, card :: re)
      else (card :: keep, re)
  end.

(** applyMulligan(gameState, action). *)
Definition applyMulligan (gameState : Party) (cardIndicesToRedraw : list Z)
  : Eval Returned :=
  let newGameState := cloneDeep gameState in
  let cur := currentPlayerIndex newGameState in
  let '(cardsToKeep, cardsToRedraw0) :=
    separate cardIndicesToRedraw 0 (hand (players newGameState cur)) in
  let cardsToRedraw :=
    map (fun card => set_isPublic false
                       (set_bonusCritical 0
                          (set_bonusPower 0 (set_isResting false card))))
        cardsToRedraw0 in
  let s1 := upd_player cur
              (fun p => set_hand cardsToKeep (set_deck (cardsToRedraw ++ deck p) p))
              newGameState in
  let s2 := shuffleDeck cur s1 in
  let '(s3, r) := draw cur (Z.of_nat (List.length cardsToRedraw)) s2 in
  let s4 := match cur with
            | P0 => set_currentPlayerIndex P1 s3
            | P1 => set_phase "stand" (set_currentPlayerIndex P0 s3)
            end in
  (r, Normal (NewObject s4)).

(** applyCall(gameState, action).  With [cardIndexInHand] missing both
    comparisons of the bounds check are false and [splice(undefined, 1)]
    starts at 0.  An unknown [circleTag] makes getCircle throw, before
    the [!targetCircle] test can see it. *)
Definition applyCall (gameState : Party) (cardIndexInHand : option Z)
           (circleTag : string) : Eval Returned :=
  let newGameState := cloneDeep gameState in
  let cur := currentPlayerIndex newGameState in
  let activePlayer := players newGameState cur in
  let rejected :=
    match cardIndexInHand with
    | Some cardIndex =>
        (cardIndex <? 0) || (cardIndex >=? Z.of_nat (List.length (hand activePlayer)))
    | None => false
    end in
  if rejected then
    warn (ErrCallIndexNotFound cardIndexInHand) ;;; ret SameObject
  else
    let '(cardToCall, rest) :=
      splice1 (Z.to_nat (num cardIndexInHand)) (hand activePlayer) in
    match getCircle circleTag with
    | None => throw
    | Some targetCircle =>
        let drop := match unit_of (board activePlayer) targetCircle with
                    | Some u => dropZone activePlayer ++ [u]
                    | None => dropZone activePlayer
                    end in
        ret (NewObject
               (upd_player cur
                  (fun p => set_board (set_unit targetCircle cardToCall (board p))
                              (set_dropZone drop (set_hand rest p)))
                  newGameState))
    end.

(** applyMove(gameState, action). *)
Definition applyMove (gameState : Party) (from to : string) : Eval Returned :=
  let newGameState := cloneDeep gameState in
  let cur := currentPlayerIndex newGameState in
  match getCircle from, getCircle to with
  | Some circle1, Some circle2 =>
      let b := board (players newGameState cur) in
      let tempUnit := unit_of b circle1 in
      let b1 := set_unit circle1 (unit_of b circle2) b in
      let b2 := set_unit circle2 tempUnit b1 in
      ret (NewObject (upd_player cur (set_board b2) newGameState))
  | _, _ => throw
  end.

(** applyGuard(gameState, action, rl). *)
Definition applyGuard (gameState : Party) (cardInstanceId : string)
  : Eval Returned :=
  let newGameState := cloneDeep gameState in
  let def := other (currentPlayerIndex newGameState) in
  let defendingPlayer := players newGameState def in
  match findIndex (fun c => (uniqueId c =? cardInstanceId)%string)
                  (hand defendingPlayer) with
  | None => warn (ErrGuardNotInHand cardInstanceId) ;;; ret SameObject
  | Some cardIndex =>
      match splice1 cardIndex (hand defendingPlayer) with
      | (Some cardToGuard, rest) =>
          ret (NewObject
                 (upd_player def
                    (fun p => set_guardianZone (guardianZone p ++ [cardToGuard])
                                (set_hand rest p))
                    newGameState))
      | (None, _) => ret (NewObject newGameState)
      end
  end.

(** applyIntercept(gameState, action, rl). *)
Definition applyIntercept (gameState : Party) (cardInstanceId fromCircle : string)
  : Eval Returned :=
  let newGameState := cloneDeep gameState in
  let def := other (currentPlayerIndex newGameState) in
  let defendingPlayer := players newGameState def in
  match getCircle fromCircle with
  | None => throw
  | Some circle =>
      match unit_of (board defendingPlayer) circle with
      | Some u =>
          if (uniqueId u =? cardInstanceId)%string then
            let cardToIntercept := set_isResting true u in
            ret (NewObject
                   (upd_player def
                      (fun p => set_guardianZone (guardianZone p ++ [cardToIntercept])
                                  (set_board (set_unit circle None (board p)) p))
                      newGameState))
          else warn (ErrInterceptNotFound cardInstanceId fromCircle) ;;; ret SameObject
      | None => warn (ErrInterceptNotFound cardInstanceId fromCircle) ;;; ret SameObject
      end
  end.

(** The payload [{}] that applyAct hands to an effect procedure. *)
Definition emptyPayload : Payload := mkPayload None None.

(** applyAct(gameState, action, rl). *)
Definition applyAct (gameState : Party) (effect : EffectDef) : Eval Returned :=
let newGameState := cloneDeep gameState in
let cur := currentPlayerIndex newGameState in
let activePlayer := players newGameState cur in
let unaffordable :=
  match cost_energy effect with
  | Some e => negb (e =? 0) && (energy activePlayer <? e)
  | None => false
  end in
if unaffordable then warn CannotActivateNotEnoughEnergy ;;; ret SameObject
else
  let s1 :=
    if once_per_turn effect then
      upd_player cur
        (fun p => set_usedTurnlyEffects
                    (usedTurnlyEffects p ++ [function_index effect]) p)
        newGameState
    else newGameState in
  match effectLibrary (function_index effect) with
  | Some effectFunction =>
      let '(s2, done) := effectFunction emptyPayload s1 in
      done ;;; ret (NewObject s2)
  | None => ret (NewObject s1)
  end.

(** [unit.isResting = true] on a circle. *)
Definition rest_unit (c : CircleName) (b : Board) : Board :=
  set_unit c (option_map (set_isResting true) (unit_of b c)) b.

(** applyAttack(gameState, action, rl).  With [boost] set, the column map
    has no entry for a back-row attacker, and getCircle(undefined)
    throws. *)
Definition applyAttack (gameState : Party) (attacker target_ : string)
           (boost : bool) : Eval Returned :=
let newGameState := cloneDeep gameState in
let cur := currentPlayerIndex newGameState in
let activePlayer := players newGameState cur in
let opponentPlayer := players newGameState (other cur) in
match getCircle attacker, getCircle target_ with
| Some attackerCircle, Some targetCircle =>
    match unit_of (board activePlayer) attackerCircle,
          unit_of (board opponentPlayer) targetCircle with
    | Some attackerUnit, Some _ =>
        let b1 := rest_unit attackerCircle (board activePlayer) in
        let attackerPower := num (power attackerUnit) + bonusPower attackerUnit in
        boosted <-
          (if boost then
             match backRowCircleName attackerCircle with
             | None => throw
             | Some boosterCircle =>
                 match unit_of b1 boosterCircle with
                 | Some boosterUnit =>
                     ret (rest_unit boosterCircle b1,
                          attackerPower
                          + (num (power boosterUnit) + bonusPower boosterUnit))
                 | None => ret (b1, attackerPower)
                 end
             end
           else ret (b1, attackerPower)) ;;
        let '(b2, attackerPower') := boosted in
        let s1 := upd_player cur (set_board b2) newGameState in
        let s2 := set_currentBattle
                    (Some (mkBattle (cur, attackerCircle)
                                    (other cur, targetCircle) attackerPower')) s1 in
        ret (NewObject (set_phase "guard" s2))
    | _, _ => warn ErrInvalidAttack ;;; ret SameObject
    end
| _, _ => throw
end.

(** [guardianZone.reduce((sum, card) => sum + (card.shield || 0), 0)]. *)
Definition totalShield (guardianZone : list Card) : Z :=
  fold_left (fun sum card => sum + num (shield card)) guardianZone 0.

(** The end of applyCloseStep: guardians to the drop zone, the battle
    record cleared, and the phase chosen. *)
Definition endOfBattle (s : Party) : Party :=
  let cur := currentPlayerIndex s in
  let s1 := upd_player (other cur)
              (fun p => set_guardianZone []
                          (set_dropZone (dropZone p ++ guardianZone p) p)) s in
  let s2 := set_currentBattle None s1 in
  let potentialAttackers :=
    filter (fun c => standing (unit_of (board (players s2 cur)) c)) frontRow in
  match potentialAttackers with
  | [] => set_phase "end" s2
  | _ :: _ => set_phase "battle" s2
  end.

(** applyCloseStep(gameState, rl); [rl] is [None] when the caller passes
    [null] (a search rollout).  Next to the new state the result says
    which branch of [if (attackerPower >= targetPower)] was taken: [true]
    where the source narrates "> Attack Hits!", [false] where it narrates
    "> Attack does not hit.". *)
Definition applyCloseStep (gameState : Party) (rl : option Readline)
  : Eval (bool * Party) :=
let newGameState := cloneDeep gameState in
match currentBattle newGameState with
| None => throw
| Some battle =>
    let opp := other (currentPlayerIndex newGameState) in
    let opponentPlayer := players newGameState opp in
    let totalShield := totalShield (guardianZone opponentPlayer) in
    match unit_at newGameState (targetCircle battle) with
    | None => throw
    | Some targetUnit =>
        let targetPower :=
          num (power targetUnit) + bonusPower targetUnit + totalShield in
        if attackerPower battle >=? targetPower then
          if (circle_name (snd (targetCircle battle)) =? "V")%string then
            match unit_at newGameState (attackerCircle battle) with
            | None => throw
            | Some attackerUnit =>
                let damage := critical attackerUnit + bonusCritical attackerUnit in
                match rl with
                | Some rl' =>
                    let '(s1, r) := damageCheck opp damage rl' newGameState in
                    (r, Normal (true, endOfBattle s1))
                | None => ret (true, endOfBattle newGameState)
                end
            end
          else
            let s1 := upd_player opp
                        (fun p => set_dropZone (dropZone p ++ [targetUnit]) p)
                        newGameState in
            let s2 := set_unit_at (targetCircle battle) None s1 in
            ret (true, endOfBattle s2)
        else ret (false, endOfBattle newGameState)
    end
end.

(** applyRide(gameState, action). *)
Definition applyRide (gameState : Party) (cardId source : string)
           (discardCardId : option string) : Eval Returned :=
let newGameState := cloneDeep gameState in
let cur := currentPlayerIndex newGameState in
let activePlayer := players newGameState cur in
let place (cardToRide : option Card) (s : Party) : Eval Returned :=
  let vanguardCircle := V in
  let s1 :=
    match unit_of (board (players s cur)) vanguardCircle, cardToRide with
    | Some old, Some new =>
        set_eventQueue (eventQueue s ++ [mkEvent "ON_RIDE" (Some (old, new)) None])
          (upd_player cur (fun p => set_soul (soul p ++ [old]) p) s)
    | Some old, None =>
        set_eventQueue (eventQueue s ++ [mkEvent "ON_RIDE" None None])
          (upd_player cur (fun p => set_soul (soul p ++ [old]) p) s)
    | None, _ => s
    end in
  let s2 := upd_player cur
              (fun p => set_board (set_unit vanguardCircle cardToRide (board p)) p)
              s1 in
  ret (NewObject (set_nextPhase (Some "main") s2)) in
if (source =? "hand")%string then
  match findIndex (fun c => (id c =? cardId)%string) (hand activePlayer) with
  | None => warn (ErrRideNotInHand cardId) ;;; ret SameObject
  | Some cardIndex =>
      let '(cardToRide, rest) := splice1 cardIndex (hand activePlayer) in
      place cardToRide (upd_player cur (set_hand rest) newGameState)
  end
else if (source =? "rideDeck")%string then
  match findIndex (fun c => (id c =? cardId)%string) (rideDeck activePlayer) with
  | None => warn (ErrRideNotInRideDeck cardId) ;;; ret SameObject
  | Some cardIndex =>
      let '(cardToRide, restRide) := splice1 cardIndex (rideDeck activePlayer) in
      match discardCardId with
      | None => warn (ErrDiscardNotInHand discardCardId) ;;; ret SameObject
      | Some did =>
          match findIndex (fun c => (id c =? did)%string) (hand activePlayer) with
          | None => warn (ErrDiscardNotInHand discardCardId) ;;; ret SameObject
          | Some discardCardIndex =>
              let '(discardedCard, restHand) :=
                splice1 discardCardIndex (hand activePlayer) in
              let drop := match discardedCard with
                          | Some d => dropZone activePlayer ++ [d]
                          | None => dropZone activePlayer
                          end in
              place cardToRide
                    (upd_player cur
                       (fun p => set_dropZone drop
                                   (set_hand restHand (set_rideDeck restRide p)))
                       newGameState)
          end
      end
  end
else warn (ErrRideUnknownSource source) ;;; ret SameObject.

(** applyPassRidePhase(gameState). *)
Definition applyPassRidePhase (gameState : Party) : Eval Returned :=
  ret (NewObject (cloneDeep gameState)).

(** [allCardsInPlay] of collectEffectsForEvent, empty circles dropped:
    each card with its zone and its owner. *)
Definition allCardsInPlay (party : Party) : list (Card * string * PlayerIndex) :=
  flat_map
    (fun i =>
       let player := players party i in
       map (fun c => (c, "board", i)) (units (board player) frontRow)
       ++ map (fun c => (c, "board", i)) (units (board player) backRow)
       ++ map (fun c => (c, "rideDeck", i)) (rideDeck player)
       ++ map (fun c => (c, "crestZone", i)) (crestZone player)
       ++ map (fun c => (c, "soul", i)) (soul player))
    [P0; P1].

Definition PlayerIndex_eqb (a b : PlayerIndex) : bool :=
  index_num a =? index_num b.

(** The effects of one card that the event triggers. *)
Fixpoint triggered (eventTriggerName zone : string) (ownerIndex : PlayerIndex)
         (party : Party) (card : Card) (effs : list EffectDef)
  : Eval (list (Card * EffectDef)) :=
match effs with
| [] => ret []
| effect :: r =>
    here <-
      (if negb (eff_trigger effect =? eventTriggerName)%string then ret []
       else if match eff_zone effect with
               | Some z => negb (z =? "")%string && negb (z =? zone)%string
               | None => false
               end then ret []
       else if negb (PlayerIndex_eqb ownerIndex (currentPlayerIndex party)) then ret []
       else ok <- evaluateCondition coerce_ge coerce_le (condition effect) party ;;
            ret (if ok then [(card, effect)] else [])) ;;
    rest <- triggered eventTriggerName zone ownerIndex party card r ;;
    ret (here ++ rest)
end.

Fixpoint triggeredAll (eventTriggerName : string) (party : Party)
         (cards : list (Card * string * PlayerIndex))
  : Eval (list (Card * EffectDef)) :=
match cards with
| [] => ret []
| (card, zone, ownerIndex) :: r =>
    here <- match implemented_effects card with
            | Some effs => triggered eventTriggerName zone ownerIndex party card effs
            | None => ret []
            end ;;
    rest <- triggeredAll eventTriggerName party r ;;
    ret (here ++ rest)
end.

(** The objects pushed on [pendingEffects], numbered in the order of
    their creation. *)
Fixpoint pendingObjects (event : Event) (k : nat) (l : list (Card * EffectDef))
  : list PendingEffect :=
match l with
| [] => []
| (card, effect) :: r =>
    mkPending k (name card) (id card) effect (payload_of event)
    :: pendingObjects event (S k) r
end.

(** collectEffectsForEvent(event, party). *)
Definition collectEffectsForEvent (event : Event) (party : Party)
  : Eval (list PendingEffect) :=
  let eventTriggerName := toLowerCase (ev_type event) in
  found <- triggeredAll eventTriggerName party (allCardsInPlay party) ;;
  ret (pendingObjects event O found).

(** [p.cardId === e.cardId && p.effect.function_index === e.effect.function_index]. *)
Definition same_effect (e p : PendingEffect) : bool :=
  (cardId p =? cardId e)%string
  && (function_index (effect p) =? function_index (effect e)).

(** Writes [pendingEffects] of the head event of the queue. *)
Definition set_head_pending (l : list PendingEffect) (s : Party) : Party :=
  match eventQueue s with
  | [] => s
  | ev :: rest => set_eventQueue (set_pendingEffects (Some l) ev :: rest) s
  end.

(** applyActivateEffect(gameState, action, rl).  [currentEvent] is read
    before the effect procedure runs and written after it; the write is
    made to the head of the queue, as the procedures of the registry only
    add events at the end. *)
Definition applyActivateEffect (gameState : Party) (effectToActivate : PendingEffect)
  : Eval Returned :=
let newGameState := cloneDeep gameState in
found <- match eventQueue newGameState with
         | [] => ret None
         | currentEvent :: _ =>
             match pendingEffects currentEvent with
             | None => throw       (* undefined.find *)
             | Some pending => ret (find (same_effect effectToActivate) pending)
             end
         end ;;
match found with
| None => warn ErrPendingEffectNotFound ;;; ret SameObject
| Some originalPendingEffect =>
    s1 <- match effectLibrary (function_index (effect effectToActivate)) with
          | Some effectFunction =>
              let '(s, done) :=
                effectFunction (eventPayload originalPendingEffect) newGameState in
              done ;;; ret s
          | None => ret newGameState
          end ;;
    match eventQueue s1 with
    | currentEvent :: _ =>
        match pendingEffects currentEvent with
        | Some pending =>
            match findIndex (same_effect effectToActivate) pending with
            | Some indexToRemove =>
                ret (NewObject
                       (set_head_pending (snd (splice1 indexToRemove pending)) s1))
            | None => ret (NewObject s1)
            end
        | None => ret (NewObject s1)
        end
    | [] => ret (NewObject s1)
    end
end.

(** applyPassEffect(gameState, action). *)
Definition applyPassEffect (gameState : Party) : Eval Returned :=
let newGameState := cloneDeep gameState in
match eventQueue newGameState with
| currentEvent :: _ =>
    match pendingEffects currentEvent with
    | Some pending =>
        ret (NewObject
               (set_head_pending (filter (fun p => mandatory (effect p)) pending)
                                 newGameState))
    | None => ret (NewObject newGameState)
    end
| [] => ret (NewObject newGameState)
end.

(** Where one pass through the body of the [while] loop of processEvents
    arrives, the party object being in the given state at that point. *)
Inductive LoopPoint : Type :=
| Invoke (effectFunction : option EffectFn) (payload : Payload) (party : Party)
    (* [await effectFunction(party, effectToResolve.eventPayload, rl)] *)
| Choice (party : Party)
    (* optional effects only: [phase = 'effect_resolution'; return party] *)
| Shifted (party : Party)
    (* the event had nothing pending and was shifted off the queue *)
| CollectThrew (party : Party)
    (* collectEffectsForEvent threw *)
| Drained (party : Party).
    (* the queue is empty: the loop is left *)

(** [pendingEffects.splice(pendingEffects.indexOf(effectToResolve), 1)]:
    [indexOf] looks for the object itself; were it missing, [splice(-1, 1)]
    would remove the last element. *)
Definition removeResolved (effectToResolve : PendingEffect)
           (pending : list PendingEffect) : list PendingEffect :=
  match findIndex (fun p => Nat.eqb (oid p) (oid effectToResolve)) pending with
  | Some i => snd (splice1 i pending)
  | None => removelast pending
  end.

(** The body of the loop of processEvents, up to the call of the effect
    procedure. *)
Definition loopBody (party : Party) : list Report * LoopPoint :=
match eventQueue party with
| [] => ([], Drained party)
| currentEvent :: rest =>
    let '(r, collected) :=
      match pendingEffects currentEvent with
      | Some pending => ret pending
      | None => collectEffectsForEvent currentEvent party
      end in
    match collected with
    | Throws => (r, CollectThrew party)
    | Normal pending =>
        let party1 := set_head_pending pending party in
        let mandatoryEffects := filter (fun p => mandatory (effect p)) pending in
        let optionalEffects := filter (fun p => negb (mandatory (effect p))) pending in
        match mandatoryEffects with
        | effectToResolve :: _ =>
            let effectFunction := effectLibrary (function_index (effect effectToResolve)) in
            let party2 := set_head_pending (removeResolved effectToResolve pending) party1 in
            (r, Invoke effectFunction (eventPayload effectToResolve) party2)
        | [] =>
            match optionalEffects with
            | _ :: _ => (r, Choice (set_phase "effect_resolution" party1))
            | [] => (r, Shifted (set_eventQueue rest party1))
            end
        end
    end
end.

(** [party.nextPhase || 'main']. *)
Definition nextPhaseOrMain (party : Party) : string :=
  match nextPhase party with
  | Some p => if (p =? "")%string then "main" else p
  | None => "main"
  end.

(** processEvents(gameState, rl), on the party object itself.  [fuel]
    bounds the rounds of the loop; [None] means the bound was too small. *)
Fixpoint processEvents (fuel : nat) (party : Party) : option (Party * Eval unit) :=
match fuel with
| O => None
| S fuel' =>
    let '(r, point) := loopBody party in
    let after (res : option (Party * Eval unit)) :=
      match res with
      | Some (p, (r', c)) => Some (p, (r ++ r', c))
      | None => None
      end in
    match point with
    | Drained p => Some (set_phase (nextPhaseOrMain p) p, (r, Normal tt))
    | Choice p => Some (p, (r, Normal tt))
    | CollectThrew p => Some (p, (r, Throws))
    | Shifted p => after (processEvents fuel' p)
    | Invoke None _ p => Some (p, (r, Throws))
    | Invoke (Some effectFunction) payload p =>
        match effectFunction payload p with
        | (p', (r', Normal _)) =>
            match processEvents fuel' p' with
            | Some (p'', (r'', c)) => Some (p'', (r ++ r' ++ r'', c))
            | None => None
            end
        | (p', (r', Throws)) => Some (p', (r ++ r', Throws))
        end
    end
end.

(** What a call of applyAction leaves behind: the contents of the object
    the caller passed in, once the call is over; the reports; and what
    the call returns (or that it throws). *)
Record Outcome : Type := mkOutcome {
  input_after : Party;
  reports : list Report;
  returned : Completion Returned
}.

(** The branches of applyAction that return the applier's result as it
    is: the appliers write to their clone only. *)
Definition direct (gameState : Party) (r : Eval Returned) : option Outcome :=
  Some (mkOutcome gameState (fst r) (snd r)).

(** The tail of applyAction for the other branches:
    [newGameState.nextPhase = postActionPhase] when a phase was chosen,
    then [return await processEvents(newGameState, rl)].  The writes go to
    whatever object [newGameState] is. *)
Definition thenProcess (fuel : nat) (gameState : Party)
           (postActionPhase : option string) (r : Eval Returned)
  : option Outcome :=
let prepare (s : Party) :=
  match postActionPhase with
  | Some p => set_nextPhase (Some p) s
  | None => s
  end in
match r with
| (rep, Throws) => Some (mkOutcome gameState rep Throws)
| (rep, Normal SameObject) =>
    match processEvents fuel (prepare gameState) with
    | Some (s', (rep', Normal _)) =>
        Some (mkOutcome s' (rep ++ rep') (Normal SameObject))
    | Some (s', (rep', Throws)) => Some (mkOutcome s' (rep ++ rep') Throws)
    | None => None
    end
| (rep, Normal (NewObject newGameState)) =>
    match processEvents fuel (prepare newGameState) with
    | Some (s', (rep', Normal _)) =>
        Some (mkOutcome gameState (rep ++ rep') (Normal (NewObject s')))
    | Some (_, (rep', Throws)) => Some (mkOutcome gameState (rep ++ rep') Throws)
    | None => None
    end
end.

(** applyAction(gameState, action, rl).  In these functions [rl] only
    gates narration and is passed on to the effect procedures, which do
    not read it. *)
Definition applyAction (fuel : nat) (gameState : Party) (action : Action)
  : option Outcome :=
match action with
| MULLIGAN cardIndicesToRedraw =>
    direct gameState (applyMulligan gameState cardIndicesToRedraw)
| RIDE cardId source discardCardId =>
    thenProcess fuel gameState (Some "main")
                (applyRide gameState cardId source discardCardId)
| PASS_RIDE_PHASE =>
    thenProcess fuel gameState (Some "main") (applyPassRidePhase gameState)
| CALL cardIndexInHand _ circleTag =>
    direct gameState (applyCall gameState cardIndexInHand circleTag)
| ACT _ effect => direct gameState (applyAct gameState effect)
| ACTIVATE_EFFECT effectToActivate =>
    thenProcess fuel gameState None (applyActivateEffect gameState effectToActivate)
| MOVE from to => direct gameState (applyMove gameState from to)
| ATTACK attacker target_ boost =>
    direct gameState (applyAttack gameState attacker target_ boost)
| GUARD cardInstanceId _ => direct gameState (applyGuard gameState cardInstanceId)
| INTERCEPT cardInstanceId _ fromCircle =>
    direct gameState (applyIntercept gameState cardInstanceId fromCircle)
| PASS_EFFECT => direct gameState (applyPassEffect gameState)
| PASS_MAIN_PHASE =>
    thenProcess fuel gameState (Some "battle") (ret (NewObject (cloneDeep gameState)))
| PASS_BATTLE_PHASE =>
    thenProcess fuel gameState (Some "end") (ret (NewObject (cloneDeep gameState)))
| PASS_GUARD_STEP =>
    thenProcess fuel gameState (Some "drive_check")
                (ret (NewObject (cloneDeep gameState)))
| PROCESS_EVENTS => direct gameState (ret (NewObject (cloneDeep gameState)))
| PASS => direct gameState (ret (NewObject (cloneDeep gameState)))
| OTHER type =>
    direct gameState
           ((if (type =? "PASS")%string then ret tt else warn (WarnNoApplier type)) ;;;
            ret (NewObject (cloneDeep gameState)))
end.

End Core.

(* ------------------------------------------------------------------ *)
(** ** eval/Node.js and eval/EvaluationEngine.js                       *)
(* ------------------------------------------------------------------ *)

Section SearchTree.

(** The sub-scores are JavaScript floating-point numbers; the tree only
    adds them up, so their type and their addition are parameters. *)
Variable Score : Type.
Variable plus : Score -> Score -> Score.

(** A reference to a node object; [None] is [null]. *)
Definition NodeRef : Type := nat.

(** class Node; [scoreData] is unfolded into its two fields. *)
Record Node : Type := mkNode {
  state : Party;
  parent : option NodeRef;
  action : option Action;
  children : list NodeRef;
  wins : Z;
  visits : Z;
  gradeScore : Score;
  damageScore : Score
}.

(** The node objects in memory, by reference. *)
Definition Heap : Type := NodeRef -> Node.

Definition write (r : NodeRef) (n : Node) (h : Heap) : Heap :=
  fun r' => if Nat.eqb r' r then n else h r'.

(** The result of a simulation. *)
Record Result : Type := mkResult {
  res_gradeScore : Score;
  res_damageScore : Score
}.

(** The three updates of the loop body of _backpropagate. *)
Definition credit (result : Result) (n : Node) : Node :=
  mkNode (state n) (parent n) (action n) (children n) (wins n)
         (visits n + 1)
         (plus (gradeScore n) (res_gradeScore result))
         (plus (damageScore n) (res_damageScore result)).

(** The [while (current !== null)] loop of _backpropagate on its two
    variables.  [parent = parent.parent] throws a TypeError when [parent]
    is [null]. *)
Fixpoint backpropagate_loop (fuel : nat) (parent_ current : option NodeRef)
         (result : Result) (h : Heap) : option (Heap * Completion unit) :=
match fuel with
| O => None
| S fuel' =>
    match current with
    | None => Some (h, Normal tt)
    | Some c =>
        let h1 := write c (credit result (h c)) h in
        match parent_ with
        | None => Some (h1, Throws)
        | Some p =>
            let parent' := parent (h1 p) in
            backpropagate_loop fuel' parent' parent' result h1
        end
    end
end.

(** _backpropagate(node, result). *)
Definition _backpropagate (fuel : nat) (node : NodeRef) (result : Result)
           (h : Heap) : option (Heap * Completion unit) :=
  backpropagate_loop fuel (parent (h node)) (Some node) result h.

End SearchTree.

Section Determinizer.

(** [shuffle(arr)] is [arr.sort(() => Math.random() - 0.5)]: it reorders
    the array in place and returns it.  [shuffle k] is what the k-th of
    the four calls in _determinize does to its array. *)
Variable shuffle : nat -> list Card -> list Card.

Definition count (p : Card -> bool) (l : list Card) : Z :=
  Z.of_nat (List.length (filter p l)).

Definition is_sentinel (c : Card) : bool := includes "Sentinel" (skills c).

(** The [while] loop that deals the new hand; it ends within
    [length finalPool] rounds, each round popping one card. *)
Fixpoint deal (rounds : nat) (handSize : nat) (newOpponentHand finalPool : list Card)
  : list Card * list Card :=
match rounds with
| O => (newOpponentHand, finalPool)
| S k =>
    if Nat.ltb (List.length newOpponentHand) handSize
       && Nat.ltb 0 (List.length finalPool) then
      match pop finalPool with
      | (Some c, rest) => deal k handSize (newOpponentHand ++ [c]) rest
      | (None, _) => (newOpponentHand, finalPool)
      end
    else (newOpponentHand, finalPool)
end.

(** _determinize(state). *)
Definition _determinize (state : Party) : Party :=
let detState := cloneDeep state in
let opponentIndex := other (currentPlayerIndex state) in
let opponent := players detState opponentIndex in
let publicOpponentCardsInHand := filter isPublic (hand opponent) in
let unknownPool :=
  deck opponent ++ filter (fun c => negb (isPublic c)) (hand opponent) in
let knownZones :=
  publicOpponentCardsInHand
  ++ units (board opponent) frontRow
  ++ units (board opponent) backRow
  ++ dropZone opponent ++ damageZone opponent ++ soul opponent in
let knownTriggers := count has_trigger knownZones in
let knownHeals := count (trigger_is "Heal") knownZones in
let knownSentinels := count is_sentinel knownZones in
let requiredTriggers := Z.max 0 (16 - knownTriggers) in
let requiredHeals := Z.max 0 (4 - knownHeals) in
let requiredSentinels := Z.max 0 (4 - knownSentinels) in
let poolHeals := filter (trigger_is "Heal") unknownPool in
let poolOtherTriggers :=
  filter (fun c => has_trigger c && negb (trigger_is "Heal" c)) unknownPool in
let poolSentinels :=
  filter (fun c => is_sentinel c && negb (has_trigger c)) unknownPool in
let poolNormals :=
  filter (fun c => negb (has_trigger c) && negb (is_sentinel c)) unknownPool in
let '(requiredHealCards, poolHeals') :=
  splice_front requiredHeals (shuffle 0 poolHeals) in
let '(requiredOtherTriggerCards, poolOtherTriggers') :=
  splice_front (requiredTriggers - requiredHeals) (shuffle 1 poolOtherTriggers) in
let '(requiredSentinelCards, poolSentinels') :=
  splice_front requiredSentinels (shuffle 2 poolSentinels) in
let finalPool :=
  shuffle 3 (poolHeals' ++ poolOtherTriggers' ++ poolSentinels' ++ poolNormals
             ++ requiredHealCards ++ requiredOtherTriggerCards
             ++ requiredSentinelCards) in
let '(newOpponentHand, newOpponentDeck) :=
  deal (List.length finalPool) (List.length (hand opponent))
       publicOpponentCardsInHand finalPool in
upd_player opponentIndex
  (fun p => set_deck newOpponentDeck (set_hand newOpponentHand p)) detState.

End Determinizer.

(* ------------------------------------------------------------------ *)
(** ** core/Party.js, continued; the automatic phases of index.js      *)
(* ------------------------------------------------------------------ *)

(** One round of the loop of [driveCheck]: as a damage check, but the
    card joins the hand. *)
Definition driveCheck1 (playerIndex : PlayerIndex) (rl : Readline)
           (asked : nat) (s : Party) : Party * nat * list Report :=
  match pop (deck (players s playerIndex)) with
  | (Some checkedCard, rest) =>
      let s1 := upd_player playerIndex (set_deck rest) s in
      let '(s2, asked2, r) :=
        if has_trigger checkedCard then
          applyTriggerEffect (match trigger checkedCard with
                              | Some t => t | None => "" end)
                             playerIndex rl asked s1
        else (s1, asked, []) in
      (upd_player playerIndex (fun p => set_hand (hand p ++ [checkedCard]) p) s2,
       asked2, r)
  | (None, _) => (s, asked, [])
  end.

Fixpoint driveCheck_loop (n : nat) (playerIndex : PlayerIndex) (rl : Readline)
         (asked : nat) (s : Party) : Party * nat * list Report :=
  match n with
  | O => (s, asked, [])
  | S k => let '(s1, a1, r1) := driveCheck1 playerIndex rl asked s in
           let '(s2, a2, r2) := driveCheck_loop k playerIndex rl a1 s1 in
           (s2, a2, r1 ++ r2)
  end.

(** party.driveCheck(amount, rl), for the current player. *)
Definition driveCheck (amount : Z) (rl : Readline) (s : Party)
  : Party * list Report :=
  let '(s', _, r) :=
    driveCheck_loop (Z.to_nat amount) (currentPlayerIndex s) rl O s in
  (s', r).

Definition set_turn (x : Z) (s : Party) : Party :=
  mkParty (player0 s) (player1 s) x (currentPlayerIndex s) (phase s)
    (currentBattle s) (eventQueue s) (nextPhase s).

(** party.nextTurn(). *)
Definition nextTurn (s : Party) : Party :=
  let s1 := set_turn (turn s + 1) s in
  match currentPlayerIndex s1 with
  | P1 => upd_player P1 (set_usedTurnlyEffects [])
            (upd_player P0 (set_usedTurnlyEffects []) s1)
  | P0 => s1
  end.

(** party.switchPlayer(). *)
Definition switchPlayer (s : Party) : Party :=
  set_currentPlayerIndex (other (currentPlayerIndex s)) s.

(** party.isGameOver(). *)
Definition isGameOver (s : Party) : bool :=
  (turn s >? 6)
  || existsb (fun p => Z.of_nat (List.length (damageZone p)) >=? 6)
             [player0 s; player1 s].

(** [f] applied to the unit of every circle of the board that has one. *)
Definition map_units (f : Card -> Card) (b : Board) : Board :=
  fold_left (fun b' c => set_unit c (option_map f (unit_of b' c)) b')
            (frontRow ++ backRow) b.

(** handleStandPhase(currentPartyState), on the party object itself. *)
Definition handleStandPhase (currentPartyState : Party) : Party :=
  let playerIndex := currentPlayerIndex currentPartyState in
  set_phase "draw"
    (upd_player playerIndex
       (fun p => set_board (map_units (set_isResting false) (board p)) p)
       currentPartyState).

(** handleDrawPhase(currentPartyState). *)
Definition handleDrawPhase (currentPartyState : Party) : Party * list Report :=
  let playerIndex := currentPlayerIndex currentPartyState in
  let '(s, r) := draw playerIndex 1 currentPartyState in
  (set_phase "ride" s, r).

(** The reset of handleEndPhase on one unit. *)
Definition resetBonuses (u : Card) : Card :=
  if (bonusPower u >? 0) || (bonusCritical u >? 0)
  then set_bonusCritical 0 (set_bonusPower 0 u)
  else u.

(** handleEndPhase(currentPartyState). *)
Definition handleEndPhase (currentPartyState : Party) : Party :=
  let playerIndex := currentPlayerIndex currentPartyState in
  let reset (p : Player) := set_board (map_units resetBonuses (board p)) p in
  let s1 := upd_player P1 reset (upd_player P0 reset currentPartyState) in
  let s2 := upd_player playerIndex
              (fun p => set_hand (map (set_isPublic false) (hand p)) p) s1 in
  set_phase "stand" (switchPlayer (nextTurn s2)).

(* ------------------------------------------------------------------ *)
(** ** Definitions used by the statements                              *)
(* ------------------------------------------------------------------ *)

(** The [type] of an action, for the types the statements speak of. *)
Definition isGuard (a : Action) : bool :=
  match a with GUARD _ _ => true | _ => false end.

Definition isIntercept (a : Action) : bool :=
  match a with INTERCEPT _ _ _ => true | _ => false end.

Definition isPassGuardStep (a : Action) : bool :=
  match a with PASS_GUARD_STEP => true | _ => false end.

Definition isCall (a : Action) : bool :=
  match a with CALL _ _ _ => true | _ => false end.

(** The hand cards whose shield is a number. *)
Definition shieldCards (p : Player) : list Card :=
  filter (fun c => is_some (shield c)) (hand p).

(** The front-row circles of a player that hold a standing unit with the
    Intercept skill, each with its unit. *)
Definition interceptUnits (p : Player) : list (CircleName * Card) :=
  flat_map
    (fun c => match unit_of (board p) c with
              | Some u => if negb (isResting u) && includes "Intercept" (skills u)
                          then [(c, u)] else []
              | None => []
              end)
    [R1; V; R2].

(** An empty board, a player without cards, a plain unit. *)
Definition emptyBoard : Board := mkBoard None None None None None None.

Definition emptyPlayer : Player :=
  mkPlayer [] [] emptyBoard [] [] [] [] [] [] [] [] [] [] 0 3 [] [].

Definition unitCard (uid : string) (g p : Z) (sk : list string) : Card :=
  mkCard uid uid uid (Some g) (Some p) 1 (Some 5000) sk None None 1
         false 0 0 false.

(** The sum of the shield values of the cards of the guardian zone, a
    card without a shield value counting for 0. *)
Definition shieldTotal (guardians : list Card) : Z :=
  fold_right (fun c acc => num (shield c) + acc) 0 guardians.

(** Damage checks as the specification words them: [DamageChecks def rl n]
    relates the party (and the number of questions asked so far) before
    and after [n] checks by the player [def].  A check that finds the deck
    empty moves nothing; otherwise the top card of the deck leaves the
    deck, its trigger (if it has one) is resolved, and the card is put on
    the damage zone. *)
Inductive DamageChecks (def : PlayerIndex) (rl : Readline)
  : nat -> Party * nat -> Party * nat -> Prop :=
| checks_none : forall st, DamageChecks def rl O st st
| checks_empty_deck : forall n s asked st',
    deck (players s def) = [] ->
    DamageChecks def rl n (s, asked) st' ->
    DamageChecks def rl (S n) (s, asked) st'
| checks_top_card : forall n s asked below top s2 asked2 r st',
    deck (players s def) = below ++ [top] ->
    (if has_trigger top
     then applyTriggerEffect (match trigger top with Some t => t | None => "" end)
                             def rl asked (upd_player def (set_deck below) s)
     else (upd_player def (set_deck below) s, asked, [])) = (s2, asked2, r) ->
    DamageChecks def rl n
      (upd_player def (fun p => set_damageZone (damageZone p ++ [top]) p) s2, asked2)
      st' ->
    DamageChecks def rl (S n) (s, asked) st'.

(** The pending effects of the head event as the loop of processEvents
    sees them: those already stored on the event, or else the ones it
    collects. *)
Definition headPending (coerce_ge coerce_le : JsVal -> JsVal -> Completion bool)
           (ev : Event) (party : Party) : Eval (list PendingEffect) :=
  match pendingEffects ev with
  | Some pending => ret pending
  | None => collectEffectsForEvent coerce_ge coerce_le ev party
  end.

(** The entries of a stored pending list are different objects. *)
Definition distinctObjects (ev : Event) : Prop :=
  match pendingEffects ev with
  | Some pending => NoDup (map oid pending)
  | None => True
  end.

(** Every zone of a player other than the hand and the deck. *)
Definition elsewhere (p : Player) : list Card :=
  units (board p) frontRow ++ units (board p) backRow
  ++ dropZone p ++ damageZone p ++ soul p ++ gZone p ++ bindZone p
  ++ guardianZone p ++ triggerZone p ++ crestZone p ++ orderZone p
  ++ rideDeck p.

(** All the cards of a player. *)
Definition allZones (p : Player) : list Card :=
  hand p ++ deck p ++ elsewhere p.

(* ------------------------------------------------------------------ *)
(** ** Example states                                                  *)
(* ------------------------------------------------------------------ *)

(** Relational operators that answer [false] on operands that are not
    both numbers (as a comparison with NaN does). *)
Definition compareAsNaN (a b : JsVal) : Completion bool := Normal false.

(** An effect registry without any procedure. *)
Definition noEffects (function_index : Z) : option EffectFn := None.

Definition vanguardG1 : Card := unitCard "v-1" 1 8000 [].
Definition rivalG1 : Card := unitCard "v-2" 1 8000 [].
Definition rearG1 : Card := unitCard "r-1" 1 9000 ["Intercept"].
Definition handA : Card := unitCard "h-a" 0 5000 ["Boost"].
Definition handB : Card := unitCard "h-b" 1 7000 ["Boost"].

(** A card without a shield value (an order). *)
Definition orderCard : Card :=
  mkCard "o-1" "o-1" "o-1" (Some 1) None 1 None [] None None 0 false 0 0 false.

(** Player 1 is to move in the main phase with two cards in hand. *)
Definition mainEx : Party :=
  mkParty
    (set_hand [handA; handB]
       (set_board (set_unit V (Some vanguardG1) emptyBoard) emptyPlayer))
    (set_board (set_unit V (Some rivalG1) emptyBoard) emptyPlayer)
    2 P0 "main" None [] None.

(** The same position in the ride phase. *)
Definition rideEx : Party := set_phase "ride" mainEx.

(** Player 1 attacks; player 2 defends with a shield card and an order in
    hand and an interceptor on R1. *)
Definition guardEx : Party :=
  mkParty
    (set_board (set_unit V (Some vanguardG1) emptyBoard) emptyPlayer)
    (set_hand [handA; orderCard]
       (set_board (set_unit R1 (Some rearG1)
                     (set_unit V (Some rivalG1) emptyBoard)) emptyPlayer))
    3 P0 "guard" (Some (mkBattle (P0, V) (P1, V) 8000)) [] None.

(** A battle against the vanguard that hits (8000 against 8000), the
    defender having two cards without trigger in the deck. *)
Definition closeEx : Party :=
  mkParty
    (set_board (set_unit V (Some vanguardG1) emptyBoard) emptyPlayer)
    (set_deck [handA; handB]
       (set_board (set_unit V (Some rivalG1) emptyBoard) emptyPlayer))
    3 P0 "close_step" (Some (mkBattle (P0, V) (P1, V) 8000)) [] None.

(** A root node (reference 0) and its only child (reference 1), before
    any visit. *)
Definition rootAndChild (Score : Type) (zero : Score) (st : Party)
  : Heap Score :=
  fun r => match r with
           | O => mkNode st None None [1%nat] 0 0 zero zero
           | S _ => mkNode st (Some O) (Some PASS) [] 0 0 zero zero
           end.

(** A readline session whose every answer fails to parse (NaN). *)
Definition noAnswer : Readline := fun _ => None.

(** The crest of the ride deck, with effect 1 of the registry: mandatory,
    triggered by a ride while the card is in the ride deck. *)
Definition crestEffect : EffectDef :=
  mkEffectDef "on_ride" (Some "rideDeck") JUndefined true false false 1 None.

Definition energyGenerator : Card :=
  mkCard "eg-1" "eg" "Energy Generator" None None 1 None []
         (Some [crestEffect]) None 0 false 0 0 false.

(** Player 1 has just ridden: the ON_RIDE event waits in the queue with
    its pending effects not collected yet. *)
Definition riddenEx : Party :=
  mkParty
    (set_rideDeck [energyGenerator]
       (set_soul [vanguardG1]
          (set_board (set_unit V (Some handB) emptyBoard) emptyPlayer)))
    emptyPlayer
    2 P0 "ride" None [mkEvent "ON_RIDE" (Some (vanguardG1, handB)) None]
    (Some "main").

(** Trigger and Sentinel cards for a deck. *)
Definition triggerCard (t : string) : Card :=
  mkCard t t t (Some 0) (Some 5000) 1 (Some 15000) [] None (Some t) 1
         false 0 0 false.

Definition sentinelCard : Card := unitCard "sentinel" 1 6000 ["Sentinel"].

(** The opponent (player 2) holds 16 triggers, 4 of them heal triggers,
    and 4 Sentinels: three cards in hand (one of them public), the rest
    in the deck, one heal trigger already in the damage zone. *)
Definition fullDeckEx : Party :=
  mkParty
    emptyPlayer
    (set_damageZone [triggerCard "Heal"]
       (set_hand [set_isPublic true sentinelCard; triggerCard "Critical"; handA]
          (set_deck (repeat (triggerCard "Heal") 3
                     ++ repeat (triggerCard "Critical") 7
                     ++ repeat (triggerCard "Draw") 4
                     ++ repeat sentinelCard 3
                     ++ repeat handB 5)
             emptyPlayer)))
    4 P0 "main" None [] None.

(** A shuffle that reverses its array. *)
Definition reversing (k : nat) (l : list Card) : list Card := rev l.

(* ------------------------------------------------------------------ *)
(** ** Definitions used by the further statements                      *)
(* ------------------------------------------------------------------ *)

(** All the cards a player owns: the units of the board and every zone. *)
Definition cardsOf (p : Player) : list Card :=
  units (board p) (frontRow ++ backRow)
  ++ deck p ++ rideDeck p ++ hand p ++ dropZone p ++ damageZone p ++ soul p
  ++ gZone p ++ bindZone p ++ guardianZone p ++ triggerZone p ++ crestZone p
  ++ orderZone p.

(** Card conservation between two states: each player owns the same card
    instances (by [uniqueId], with multiplicity). *)
Definition conserved (s s' : Party) : Prop :=
  forall i, Permutation (map uniqueId (cardsOf (players s' i)))
                        (map uniqueId (cardsOf (players s i))).

(** An effect registry whose procedures move cards between the zones of
    their owner only. *)
Definition conservingLibrary (effectLibrary : Z -> option EffectFn) : Prop :=
  forall idx f payload s,
    effectLibrary idx = Some f -> conserved s (fst (f payload s)).

(** Occurrences of an instance id in a list of cards, on a circle, and in
    the zones of a player, zone by zone. *)
Definition cnt (x : string) (l : list Card) : nat :=
  count_occ string_dec (map uniqueId l) x.

Definition cnt1 (x : string) (o : option Card) : nat :=
  match o with Some c => cnt x [c] | None => O end.

Definition tally (x : string) (p : Player) : nat :=
  (cnt1 x (uR1 (board p)) + cnt1 x (uV (board p)) + cnt1 x (uR2 (board p))
   + cnt1 x (uR3 (board p)) + cnt1 x (uR4 (board p)) + cnt1 x (uR5 (board p))
   + cnt x (deck p) + cnt x (rideDeck p) + cnt x (hand p) + cnt x (dropZone p)
   + cnt x (damageZone p) + cnt x (soul p) + cnt x (gZone p) + cnt x (bindZone p)
   + cnt x (guardianZone p) + cnt x (triggerZone p) + cnt x (crestZone p)
   + cnt x (orderZone p))%nat.

Arguments cnt : simpl never.
Arguments cnt1 : simpl never.

(** The party object at the point a pass of the loop body arrives at. *)
Definition point_party (pt : LoopPoint) : Party :=
  match pt with
  | Invoke _ _ p | Choice p | Shifted p | CollectThrew p | Drained p => p
  end.

(** Player 1 in the battle phase: a vanguard with a booster behind it and
    a rear-guard on R1, against a vanguard and a rear-guard on R2. *)
Definition battleEx : Party :=
  mkParty
    (set_board (set_unit R1 (Some rearG1)
                  (set_unit R4 (Some handB)
                     (set_unit V (Some vanguardG1) emptyBoard))) emptyPlayer)
    (set_board (set_unit R2 (Some handA)
                  (set_unit V (Some rivalG1) emptyBoard)) emptyPlayer)
    3 P0 "battle" None [] None.

(* ------------------------------------------------------------------ *)
(** ** The action generator in phase guard                             *)
(* ------------------------------------------------------------------ *)

Lemma guards_of_hand (l : list Card) :
  flat_map (fun card => match shield card with
                        | Some _ => [GUARD (uniqueId card) (shield card)]
                        | None => []
                        end) l
  = map (fun c => GUARD (uniqueId c) (shield c))
        (filter (fun c => is_some (shield c)) l).
Proof.
  induction l as [|c l IH]; simpl; [reflexivity|].
  destruct (shield c) eqn:E; simpl; rewrite ?E, IH; reflexivity.
Qed.

Lemma intercepts_of_board (b : Board) :
  flat_map (fun circle =>
              match unit_of b circle with
              | Some u => [INTERCEPT (uniqueId u) (shield u) (circle_name circle)]
              | None => []
              end)
           (filter (fun c => ready_with "Intercept" (unit_of b c)) frontRow)
  = map (fun cu : CircleName * Card =>
           INTERCEPT (uniqueId (snd cu)) (shield (snd cu)) (circle_name (fst cu)))
        (flat_map
           (fun c => match unit_of b c with
                     | Some u => if negb (isResting u) && includes "Intercept" (skills u)
                                 then [(c, u)] else []
                     | None => []
                     end)
           [R1; V; R2]).
Proof.
  unfold frontRow, ready_with; simpl.
  destruct (uR1 b) as [u1|] eqn:E1, (uV b) as [u2|] eqn:E2,
           (uR2 b) as [u3|] eqn:E3; simpl;
    repeat match goal with
           | |- context [negb (isResting ?u) && includes ?s (skills ?u)] =>
               destruct (negb (isResting u) && includes s (skills u)) eqn:?; simpl
           end;
    rewrite ?E1, ?E2, ?E3; simpl; reflexivity.
Qed.

Lemma getGuardActions_spec (s : Party) :
  let def := players s (other (currentPlayerIndex s)) in
  getGuardActions s
  = map (fun c => GUARD (uniqueId c) (shield c)) (shieldCards def)
    ++ map (fun cu : CircleName * Card =>
              INTERCEPT (uniqueId (snd cu)) (shield (snd cu)) (circle_name (fst cu)))
           (interceptUnits def)
    ++ [PASS_GUARD_STEP].
Proof.
  intros def. unfold getGuardActions, shieldCards, interceptUnits.
  fold def. now rewrite guards_of_hand, intercepts_of_board.
Qed.

Lemma filter_map_all {A : Type} (p : Action -> bool) (f : A -> Action) (l : list A) :
  (forall x, p (f x) = true) -> filter p (map f l) = map f l.
Proof.
  intros H; induction l as [|x l IH]; simpl; [reflexivity|].
  now rewrite H, IH.
Qed.

Lemma filter_map_none {A : Type} (p : Action -> bool) (f : A -> Action) (l : list A) :
  (forall x, p (f x) = false) -> filter p (map f l) = [].
Proof.
  intros H; induction l as [|x l IH]; simpl; [reflexivity|].
  now rewrite H, IH.
Qed.

(** C9.  In phase guard the generator returns, without a report and
    without throwing, a list in which the PASS_GUARD_STEP actions are
    exactly one, the GUARD actions are one per hand card of the defending
    player whose shield is a number (in hand order, carrying that card's
    instance id and shield), the INTERCEPT actions are one per standing
    front-row unit of the defending player with the Intercept skill
    (carrying its instance id, shield and circle), and every action is of
    one of these three types. *)
Theorem guard_generator_complete :
  forall (coerce_ge coerce_le : JsVal -> JsVal -> Completion bool) (s : Party),
    phase s = "guard" ->
    let def := players s (other (currentPlayerIndex s)) in
    exists acts,
      getPossibleActions coerce_ge coerce_le s = ([], Normal acts)
      /\ filter isPassGuardStep acts = [PASS_GUARD_STEP]
      /\ filter isGuard acts
         = map (fun c => GUARD (uniqueId c) (shield c)) (shieldCards def)
      /\ filter isIntercept acts
         = map (fun cu : CircleName * Card =>
                  INTERCEPT (uniqueId (snd cu)) (shield (snd cu))
                            (circle_name (fst cu)))
               (interceptUnits def)
      /\ (forall a, In a acts ->
                    isPassGuardStep a || isGuard a || isIntercept a = true)
      /\ List.length acts
         = (1 + List.length (shieldCards def) + List.length (interceptUnits def))%nat.
Proof.
  intros cge cle s Hphase def.
  exists (getGuardActions s). split.
  - unfold getPossibleActions. rewrite Hphase. reflexivity.
  - rewrite getGuardActions_spec. fold def.
    repeat rewrite filter_app.
    repeat split.
    + rewrite !filter_map_none by reflexivity. reflexivity.
    + rewrite filter_map_all by reflexivity.
      rewrite filter_map_none by reflexivity. simpl. now rewrite app_nil_r.
    + rewrite filter_map_none by reflexivity.
      rewrite filter_map_all by reflexivity. simpl. now rewrite app_nil_r.
    + intros a Ha. rewrite !in_app_iff in Ha.
      destruct Ha as [Ha|[Ha|Ha]].
      * apply in_map_iff in Ha. destruct Ha as [c [<- _]]. reflexivity.
      * apply in_map_iff in Ha. destruct Ha as [c [<- _]]. reflexivity.
      * destruct Ha as [<-|[]]. reflexivity.
    + rewrite !length_app, !length_map. simpl. lia.
Qed.

(* ------------------------------------------------------------------ *)
(** ** Records: reading after writing                                  *)
(* ------------------------------------------------------------------ *)

Lemma players_upd_same (i : PlayerIndex) (f : Player -> Player) (s : Party) :
  players (upd_player i f s) i = f (players s i).
Proof. destruct i; reflexivity. Qed.

Lemma players_upd_other (i : PlayerIndex) (f : Player -> Player) (s : Party) :
  players (upd_player i f s) (other i) = players s (other i).
Proof. destruct i; reflexivity. Qed.

Lemma currentPlayerIndex_upd (i : PlayerIndex) (f : Player -> Player) (s : Party) :
  currentPlayerIndex (upd_player i f s) = currentPlayerIndex s.
Proof. destruct i; reflexivity. Qed.

Lemma unit_of_set_unit (c : CircleName) (u : option Card) (b : Board) :
  unit_of (set_unit c u b) c = u.
Proof. destruct c; reflexivity. Qed.

Lemma getCircle_circle_name (c : CircleName) :
  getCircle (circle_name c) = Some c.
Proof. destruct c; reflexivity. Qed.

(* ------------------------------------------------------------------ *)
(** ** The monad of reports                                            *)
(* ------------------------------------------------------------------ *)

Lemma bind_Normal {A B : Type} (m : Eval A) (k : A -> Eval B)
      (r : list Report) (b : B) :
  bind m k = (r, Normal b) ->
  exists r1 a r2, m = (r1, Normal a) /\ k a = (r2, Normal b) /\ r = r1 ++ r2.
Proof.
  unfold bind. destruct m as [r1 [a|]]; [|discriminate].
  destruct (k a) as [r2 c] eqn:E. intros H. inversion H; subst.
  now exists r1, a, r2.
Qed.

(* ------------------------------------------------------------------ *)
(** ** CALL actions of the main phase                                  *)
(* ------------------------------------------------------------------ *)

Section MainPhase.

Variable coerce_ge coerce_le : JsVal -> JsVal -> Completion bool.

Lemma actsOf_no_call (s : Party) (used : list Z) (cid : string)
      (effs : list EffectDef) (r : list Report) (l : list Action) :
  actsOf coerce_ge coerce_le s used cid effs = (r, Normal l) ->
  forall a, In a l -> isCall a = false.
Proof.
  revert r l. induction effs as [|e effs IH]; simpl; intros r l H a Ha.
  - inversion H; subst. destruct Ha.
  - apply bind_Normal in H. destruct H as (r1 & here & r2 & H1 & H2 & _).
    apply bind_Normal in H2. destruct H2 as (r3 & rest & r4 & H3 & H4 & _).
    inversion H4; subst. apply in_app_iff in Ha. destruct Ha as [Ha|Ha].
    + destruct (is_act e); [|inversion H1; subst; destruct Ha].
      destruct (once_per_turn e && existsb (Z.eqb (function_index e)) used);
        [inversion H1; subst; destruct Ha|].
      apply bind_Normal in H1. destruct H1 as (? & ok & ? & _ & Hk & _).
      inversion Hk; subst. destruct ok; [|destruct Ha].
      destruct Ha as [<-|[]]. reflexivity.
    + eapply IH; eauto.
Qed.

Lemma actsOfCards_no_call (s : Party) (used : list Z) (cards : list Card)
      (r : list Report) (l : list Action) :
  actsOfCards coerce_ge coerce_le s used cards = (r, Normal l) ->
  forall a, In a l -> isCall a = false.
Proof.
  revert r l. induction cards as [|c cards IH]; simpl; intros r l H a Ha.
  - inversion H; subst. destruct Ha.
  - apply bind_Normal in H. destruct H as (r1 & here & r2 & H1 & H2 & _).
    apply bind_Normal in H2. destruct H2 as (r3 & rest & r4 & H3 & H4 & _).
    inversion H4; subst. apply in_app_iff in Ha. destruct Ha as [Ha|Ha].
    + destruct (implemented_effects c).
      * eapply actsOf_no_call; eauto.
      * inversion H1; subst. destruct Ha.
    + eapply IH; eauto.
Qed.

Lemma getMoveActions_no_call (s : Party) (p : Player) (a : Action) :
  In a (getMoveActions s p) -> isCall a = false.
Proof.
  unfold getMoveActions. simpl.
  destruct (uR1 (board p)), (uR3 (board p)), (uR2 (board p)), (uR5 (board p));
    simpl; intros H; repeat destruct H as [<-|H]; try reflexivity; destruct H.
Qed.

(** The shape of a generated CALL: no hand index, and the name of a
    circle of the board. *)
Lemma getCallActions_shape (s : Party) (p : Player) (a : Action) :
  In a (getCallActions s p) ->
  exists iid circle, a = CALL None (Some iid) (circle_name circle).
Proof.
  unfold getCallActions. destruct (unit_of (board p) V) as [v|]; [|intros []].
  intros H. apply in_flat_map in H. destruct H as (card & _ & H).
  destruct (is_some (power card) && (num (grade card) <=? num (grade v)));
    [|destruct H].
  apply in_map_iff in H. destruct H as (circle & <- & _).
  now exists (uniqueId card), circle.
Qed.

Lemma main_phase_call_shape (s0 : Party) (r : list Report) (acts : list Action)
      (a : Action) :
  getMainPhaseActions coerce_ge coerce_le s0 = (r, Normal acts) ->
  In a acts -> isCall a = true ->
  exists iid circle, a = CALL None (Some iid) (circle_name circle).
Proof.
  unfold getMainPhaseActions. intros H Ha Hc.
  apply bind_Normal in H. destruct H as (r1 & actActions & r2 & H1 & H2 & _).
  inversion H2; subst. rewrite !in_app_iff in Ha.
  destruct Ha as [Ha|[Ha|[Ha|Ha]]].
  - eapply getCallActions_shape; eauto.
  - apply getMoveActions_no_call in Ha. congruence.
  - unfold getActActions in H1.
    eapply actsOfCards_no_call in H1; eauto. congruence.
  - destruct Ha as [<-|[]]. discriminate.
Qed.

End MainPhase.

(** What applyCall does with a CALL that carries no hand index, on a
    non-empty hand. *)
Lemma applyCall_without_index (s : Party) (circle : CircleName)
      (first : Card) (rest : list Card) :
  hand (players s (currentPlayerIndex s)) = first :: rest ->
  exists s',
    applyCall s None (circle_name circle) = ([], Normal (NewObject s'))
    /\ hand (players s' (currentPlayerIndex s)) = rest
    /\ unit_at s' (currentPlayerIndex s, circle) = Some first
    /\ currentPlayerIndex s' = currentPlayerIndex s.
Proof.
  intros Hhand. unfold applyCall, cloneDeep. simpl.
  rewrite Hhand. simpl. rewrite getCircle_circle_name.
  eexists. split; [reflexivity|].
  unfold unit_at. simpl.
  rewrite players_upd_same, currentPlayerIndex_upd. simpl.
  rewrite unit_of_set_unit. auto.
Qed.

(** C10.  A CALL produced by the main-phase generator has no
    [cardIndexInHand]; applied to any state whose active player holds at
    least one card, the bounds check lets it through (no report, a new
    state is returned), and the card taken from the hand and put on the
    named circle is the one at hand position 0, whatever instance id the
    action carries. *)
Theorem generated_call_places_first_hand_card :
  forall (coerce_ge coerce_le : JsVal -> JsVal -> Completion bool)
         (effectLibrary : Z -> option EffectFn) (randomIndex : Z -> Z)
         (fuel : nat) (s0 s : Party) (r : list Report) (acts : list Action)
         (a : Action) (first : Card) (rest : list Card),
    getMainPhaseActions coerce_ge coerce_le s0 = (r, Normal acts) ->
    In a acts -> isCall a = true ->
    hand (players s (currentPlayerIndex s)) = first :: rest ->
    exists iid circle s',
      a = CALL None (Some iid) (circle_name circle)
      /\ applyAction coerce_ge coerce_le effectLibrary randomIndex fuel s a
         = Some (mkOutcome s [] (Normal (NewObject s')))
      /\ hand (players s' (currentPlayerIndex s)) = rest
      /\ unit_at s' (currentPlayerIndex s, circle) = Some first.
Proof.
  intros cge cle lib rnd fuel s0 s r acts a first rest Hgen Ha Hc Hhand.
  destruct (main_phase_call_shape _ _ _ _ Hgen Ha Hc) as (iid & circle & ->).
  destruct (applyCall_without_index s circle Hhand) as (s' & Happ & H1 & H2 & _).
  exists iid, circle, s'. repeat split; auto.
  simpl. unfold direct. now rewrite Happ.
Qed.

(* ------------------------------------------------------------------ *)
(** ** Battle resolution: applyCloseStep                               *)
(* ------------------------------------------------------------------ *)

Lemma fold_left_shield (l : list Card) (acc : Z) :
  fold_left (fun sum card => sum + num (shield card)) l acc = acc + shieldTotal l.
Proof.
  revert acc. induction l as [|c l IH]; simpl; intros acc; [lia|].
  rewrite IH. lia.
Qed.

(** The [reduce] of the source computes the sum of the shield values. *)
Lemma totalShield_is_sum (l : list Card) : totalShield l = shieldTotal l.
Proof. unfold totalShield. rewrite fold_left_shield. lia. Qed.

Lemma circle_is_V (c : CircleName) :
  (circle_name c =? "V")%string = true <-> c = V.
Proof. destruct c; simpl; split; intros H; try discriminate; reflexivity. Qed.

Lemma circle_is_not_V (c : CircleName) :
  c <> V -> (circle_name c =? "V")%string = false.
Proof.
  intros H. destruct (circle_name c =? "V")%string eqn:E; [|reflexivity].
  apply circle_is_V in E. contradiction.
Qed.

Lemma pop_snoc {A : Type} (l : list A) (x : A) : pop (l ++ [x]) = (Some x, l).
Proof. unfold pop. rewrite rev_app_distr. simpl. now rewrite rev_involutive. Qed.

Lemma pop_cases {A : Type} (l : list A) :
  (l = [] /\ pop l = (None, []))
  \/ (exists below top, l = below ++ [top] /\ pop l = (Some top, below)).
Proof.
  destruct (rev l) as [|x r] eqn:E.
  - left. apply (f_equal (@rev A)) in E. rewrite rev_involutive in E.
    subst. auto.
  - right. exists (rev r), x.
    assert (l = rev r ++ [x]) as ->.
    { apply (f_equal (@rev A)) in E. now rewrite rev_involutive in E. }
    split; [reflexivity|apply pop_snoc].
Qed.

(** The loop of damageCheck performs the checks the specification
    describes. *)
Lemma damageCheck_loop_checks (def : PlayerIndex) (rl : Readline) (n : nat) :
  forall (s : Party) (asked : nat),
    DamageChecks def rl n (s, asked)
      (fst (fst (damageCheck_loop n def rl asked s)),
       snd (fst (damageCheck_loop n def rl asked s))).
Proof.
  induction n as [|n IH]; intros s asked; simpl; [constructor|].
  unfold damageCheck1.
  destruct (pop_cases (deck (players s def))) as [[He Hp]|(below & top & He & Hp)];
    rewrite Hp.
  - specialize (IH s asked).
    destruct (damageCheck_loop n def rl asked s) as [[s2 a2] r2]. simpl in *.
    now apply checks_empty_deck.
  - destruct (if has_trigger top
              then applyTriggerEffect
                     (match trigger top with Some t => t | None => "" end)
                     def rl asked (upd_player def (set_deck below) s)
              else (upd_player def (set_deck below) s, asked, []))
      as [[s2 asked2] r] eqn:E.
    specialize (IH (upd_player def
                      (fun p => set_damageZone (damageZone p ++ [top]) p) s2) asked2).
    destruct (damageCheck_loop n def rl asked2 _) as [[s3 a3] r3]. simpl in *.
    eapply checks_top_card; eauto.
Qed.

(** Checks on cards without trigger: [n] checks on a deck whose [n] top
    cards are [tops] (top card first) put exactly these cards on the
    damage zone, in the order they were revealed, and ask nothing. *)
Lemma damageCheck_loop_plain (def : PlayerIndex) (rl : Readline) (tops : list Card) :
  forall (s : Party) (asked : nat) (base : list Card),
    deck (players s def) = base ++ rev tops ->
    forallb (fun c => negb (has_trigger c)) tops = true ->
    exists s',
      damageCheck_loop (List.length tops) def rl asked s = (s', asked, [])
      /\ deck (players s' def) = base
      /\ damageZone (players s' def) = damageZone (players s def) ++ tops
      /\ players s' (other def) = players s (other def).
Proof.
  induction tops as [|c tops IH]; intros s asked base Hd Hp; simpl.
  - exists s. simpl in Hd. rewrite app_nil_r in Hd. rewrite app_nil_r. auto.
  - simpl in Hd, Hp. apply andb_prop in Hp. destruct Hp as [Hc Hp].
    apply negb_true_iff in Hc.
    unfold damageCheck1. rewrite Hd, app_assoc, pop_snoc, Hc.
    set (s1 := upd_player def
                 (fun p => set_damageZone (damageZone p ++ [c]) p)
                 (upd_player def (set_deck (base ++ rev tops)) s)).
    destruct (IH s1 asked base) as (s' & Hl & Hdk & Hdz & Ho); auto.
    { unfold s1. rewrite !players_upd_same. reflexivity. }
    exists s'. rewrite Hl. repeat split; auto.
    + rewrite Hdz. unfold s1. rewrite !players_upd_same. simpl.
      now rewrite <- app_assoc.
    + rewrite Ho. unfold s1. now rewrite !players_upd_other.
Qed.

(** endOfBattle touches the players only through the guardians of the
    defending player. *)
Lemma endOfBattle_players (s : Party) (i : PlayerIndex) :
  players (endOfBattle s) i
  = players (upd_player (other (currentPlayerIndex s))
               (fun p => set_guardianZone []
                           (set_dropZone (dropZone p ++ guardianZone p) p)) s) i.
Proof.
  unfold endOfBattle.
  match goal with
  | |- context [filter ?f frontRow] => destruct (filter f frontRow)
  end; destruct i; reflexivity.
Qed.

Lemma endOfBattle_opponent (s : Party) :
  let def := other (currentPlayerIndex s) in
  dropZone (players (endOfBattle s) def)
  = dropZone (players s def) ++ guardianZone (players s def)
  /\ deck (players (endOfBattle s) def) = deck (players s def)
  /\ damageZone (players (endOfBattle s) def) = damageZone (players s def).
Proof.
  intros def. rewrite endOfBattle_players. fold def.
  rewrite players_upd_same. simpl. auto.
Qed.

Lemma endOfBattle_board (s : Party) (i : PlayerIndex) :
  board (players (endOfBattle s) i) = board (players s i).
Proof.
  rewrite endOfBattle_players.
  destruct (currentPlayerIndex s), i; reflexivity.
Qed.

Lemma unit_at_endOfBattle (s : Party) (r : CircleRef) :
  unit_at (endOfBattle s) r = unit_at s r.
Proof. unfold unit_at. now rewrite endOfBattle_board. Qed.

Lemma unit_at_emptied (s : Party) (r : CircleRef) :
  unit_at (set_unit_at r None s) r = None.
Proof.
  unfold unit_at, set_unit_at. rewrite players_upd_same. simpl.
  apply unit_of_set_unit.
Qed.

(** C3.  With a battle on record whose attacker and target circles hold
    units, applyCloseStep returns, and it takes the "hit" branch exactly
    when the recorded attacker power is at least the target's power plus
    its bonus power plus the sum of the guardians' shield values.  So
    12000 against 11000 without shield hits, 10000 against 11000 does not
    (whatever non-negative shield is added), and equality hits.  For a
    rear-guard target the branch shows in the state returned: the target
    circle is empty afterwards exactly when the attack hit. *)
Theorem close_step_hits_iff_power_reaches_target :
  forall (s : Party) (rl : option Readline) (b : Battle) (t a : Card),
    currentBattle s = Some b ->
    unit_at s (targetCircle b) = Some t ->
    unit_at s (attackerCircle b) = Some a ->
    let shields := shieldTotal (guardianZone (players s (other (currentPlayerIndex s)))) in
    exists r hit s',
      applyCloseStep s rl = (r, Normal (hit, s'))
      /\ (hit = true <-> attackerPower b >= num (power t) + bonusPower t + shields)
      /\ (attackerPower b = 12000 -> num (power t) + bonusPower t = 11000 ->
          shields = 0 -> hit = true)
      /\ (attackerPower b = 10000 -> num (power t) + bonusPower t = 11000 ->
          0 <= shields -> hit = false)
      /\ (attackerPower b = num (power t) + bonusPower t + shields -> hit = true)
      /\ (snd (targetCircle b) <> V ->
          (hit = true <-> unit_at s' (targetCircle b) = None)).
Proof.
  intros s rl b t a Hb Ht Ha shields.
  assert (Hsum : totalShield (guardianZone (players s (other (currentPlayerIndex s))))
                 = shields) by apply totalShield_is_sum.
  unfold applyCloseStep, cloneDeep. rewrite Hb, Ht, Ha, Hsum.
  destruct (attackerPower b >=? num (power t) + bonusPower t + shields) eqn:E.
  - assert (attackerPower b >= num (power t) + bonusPower t + shields) by lia.
    destruct (circle_name (snd (targetCircle b)) =? "V")%string eqn:EV.
    + apply circle_is_V in EV.
      destruct rl as [ask|].
      * destruct (damageCheck (other (currentPlayerIndex s))
                              (critical a + bonusCritical a) ask s) as [s1 r].
        exists r, true, (endOfBattle s1).
        repeat split; auto; intros; try lia; contradiction.
      * eexists _, true, _. repeat split; auto; intros; try lia; contradiction.
    + eexists _, true, _. repeat split; auto; intros; try lia.
      rewrite unit_at_endOfBattle. apply unit_at_emptied.
  - assert (~ attackerPower b >= num (power t) + bonusPower t + shields) by lia.
    eexists _, false, _. repeat split; auto; intros; try discriminate; try lia.
    rewrite unit_at_endOfBattle in *. congruence.
Qed.

(** C4, as the code has it.  On a hit against the circle V, a call that
    is given a readline interface makes the defending player perform
    critical + bonus critical damage checks (each one, while the deck
    lasts, moving the top card of the defender's deck to the damage zone
    after resolving its trigger), and a call without the interface performs
    none: the defender's deck and damage zone stay as they were.  On a hit
    against any other circle the target unit goes to the defender's drop
    zone (followed by the guardians) and its circle is emptied. *)
Theorem close_step_hit_consequences :
  forall (s : Party) (rl : option Readline) (b : Battle) (t a : Card),
    currentBattle s = Some b ->
    unit_at s (targetCircle b) = Some t ->
    unit_at s (attackerCircle b) = Some a ->
    attackerPower b >= num (power t) + bonusPower t
                       + shieldTotal (guardianZone (players s (other (currentPlayerIndex s)))) ->
    let def := other (currentPlayerIndex s) in
    (snd (targetCircle b) = V ->
     match rl with
     | Some ask =>
         exists r s1 asked,
           DamageChecks def ask (Z.to_nat (critical a + bonusCritical a))
                        (s, O) (s1, asked)
           /\ applyCloseStep s rl = (r, Normal (true, endOfBattle s1))
     | None =>
         exists s',
           applyCloseStep s rl = ([], Normal (true, s'))
           /\ deck (players s' def) = deck (players s def)
           /\ damageZone (players s' def) = damageZone (players s def)
     end)
    /\ (snd (targetCircle b) <> V ->
        exists s',
          applyCloseStep s rl = ([], Normal (true, s'))
          /\ dropZone (players s' def)
             = dropZone (players s def) ++ [t] ++ guardianZone (players s def)
          /\ unit_at s' (targetCircle b) = None).
Proof.
  intros s rl b t a Hb Ht Ha Hhit def.
  assert (Hge : (attackerPower b >=?
                 num (power t) + bonusPower t
                 + totalShield (guardianZone (players s def))) = true).
  { rewrite totalShield_is_sum. unfold def. lia. }
  split; intros HV.
  - apply circle_is_V in HV.
    unfold applyCloseStep, cloneDeep. fold def. rewrite Hb, Ht, Ha, Hge, HV.
    destruct rl as [ask|].
    + unfold damageCheck.
      pose proof (damageCheck_loop_checks def ask
                    (Z.to_nat (critical a + bonusCritical a)) s O) as Hc.
      destruct (damageCheck_loop _ def ask O s) as [[s1 asked] r]. simpl in Hc.
      exists r, s1, asked. split; [exact Hc|reflexivity].
    + exists (endOfBattle s). split; [reflexivity|].
      destruct (endOfBattle_opponent s) as (_ & Hd & Hz). fold def in Hd, Hz.
      auto.
  - apply circle_is_not_V in HV.
    unfold applyCloseStep, cloneDeep. fold def. rewrite Hb, Ht, Hge, HV.
    eexists. split; [reflexivity|].
    set (s1 := upd_player def (fun p => set_dropZone (dropZone p ++ [t]) p) s).
    set (s2 := set_unit_at (targetCircle b) None s1).
    assert (Hcur : currentPlayerIndex s2 = currentPlayerIndex s).
    { unfold s2, s1, set_unit_at. now rewrite !currentPlayerIndex_upd. }
    split.
    + destruct (endOfBattle_opponent s2) as (Hd & _ & _).
      rewrite Hcur in Hd. fold def in Hd. rewrite Hd.
      unfold s2, s1, set_unit_at, def.
      destruct (targetCircle b) as [owner c]. simpl.
      destruct s as [p0 p1 ? [] ? ? ? ?]; destruct owner; simpl;
        now rewrite <- app_assoc.
    + rewrite unit_at_endOfBattle. apply unit_at_emptied.
Qed.

(* ------------------------------------------------------------------ *)
(** ** Event resolution: the loop of processEvents                     *)
(* ------------------------------------------------------------------ *)

(** The first element of a filtered list splits the list. *)
Lemma filter_head_split {A : Type} (p : A -> bool) (l : list A) (x : A)
      (others : list A) :
  filter p l = x :: others ->
  exists before after,
    l = before ++ x :: after
    /\ forallb (fun y => negb (p y)) before = true
    /\ p x = true
    /\ filter p after = others.
Proof.
  induction l as [|y l IH]; simpl; [discriminate|].
  destruct (p y) eqn:E; intros H.
  - inversion H; subst. exists [], l. simpl. auto.
  - destruct (IH H) as (before & after & -> & Hb & Hx & Ha).
    exists (y :: before), after. simpl. rewrite E. simpl. auto.
Qed.

Lemma findIndex_oid (e : PendingEffect) (before after : list PendingEffect) :
  ~ In (oid e) (map oid before) ->
  findIndex (fun p => Nat.eqb (oid p) (oid e)) (before ++ e :: after)
  = Some (List.length before).
Proof.
  induction before as [|y before IH]; simpl; intros H.
  - now rewrite Nat.eqb_refl.
  - destruct (Nat.eqb (oid y) (oid e)) eqn:E.
    + apply Nat.eqb_eq in E. exfalso. apply H. now left.
    + rewrite IH; [reflexivity|]. intros Hin. apply H. now right.
Qed.

Lemma splice1_middle {A : Type} (before after : list A) (x : A) :
  splice1 (List.length before) (before ++ x :: after) = (Some x, before ++ after).
Proof.
  induction before as [|y before IH]; simpl; [reflexivity|].
  now rewrite IH.
Qed.

Lemma removeResolved_distinct (e : PendingEffect) (before after : list PendingEffect) :
  NoDup (map oid (before ++ e :: after)) ->
  removeResolved e (before ++ e :: after) = before ++ after
  /\ ~ In (oid e) (map oid (before ++ after)).
Proof.
  intros H. rewrite map_app in H. simpl in H.
  pose proof (NoDup_remove_2 _ _ _ H) as Hnot.
  split.
  - unfold removeResolved. rewrite findIndex_oid.
    + now rewrite splice1_middle.
    + intros Hin. apply Hnot. apply in_or_app. now left.
  - now rewrite map_app.
Qed.

Lemma pendingObjects_oids (ev : Event) (l : list (Card * EffectDef)) (k : nat) :
  map oid (pendingObjects ev k l) = seq k (List.length l).
Proof.
  revert k. induction l as [|[c e] l IH]; simpl; intros k; [reflexivity|].
  now rewrite IH.
Qed.

(** collectEffectsForEvent creates one new object per pending effect. *)
Lemma collect_distinct (coerce_ge coerce_le : JsVal -> JsVal -> Completion bool)
      (ev : Event) (party : Party) (r : list Report) (l : list PendingEffect) :
  collectEffectsForEvent coerce_ge coerce_le ev party = (r, Normal l) ->
  NoDup (map oid l).
Proof.
  unfold collectEffectsForEvent. intros H.
  apply bind_Normal in H. destruct H as (r1 & found & r2 & _ & H & _).
  inversion H; subst. rewrite pendingObjects_oids. apply seq_NoDup.
Qed.

Lemma filter_length_remove {A : Type} (p : A -> bool) (before after : list A)
      (x : A) :
  p x = true ->
  (List.length (filter p (before ++ after)) + 1
   = List.length (filter p (before ++ x :: after)))%nat.
Proof.
  intros H. rewrite !filter_app, !length_app. simpl. rewrite H. simpl. lia.
Qed.

(** processEvents runs the loop body and, at an [Invoke], calls the
    procedure on the party as the body left it (a missing procedure is a
    TypeError at the call). *)
Lemma processEvents_invokes (coerce_ge coerce_le : JsVal -> JsVal -> Completion bool)
      (effectLibrary : Z -> option EffectFn) (fuel : nat) (party party' : Party)
      (r : list Report) (f : option EffectFn) (payload : Payload) :
  loopBody coerce_ge coerce_le effectLibrary party = (r, Invoke f payload party') ->
  processEvents coerce_ge coerce_le effectLibrary (S fuel) party
  = match f with
    | None => Some (party', (r, Throws))
    | Some effectFunction =>
        match effectFunction payload party' with
        | (p', (r', Normal _)) =>
            match processEvents coerce_ge coerce_le effectLibrary fuel p' with
            | Some (p'', (r'', c)) => Some (p'', (r ++ r' ++ r'', c))
            | None => None
            end
        | (p', (r', Throws)) => Some (p', (r ++ r', Throws))
        end
    end.
Proof. intros H. simpl. rewrite H. reflexivity. Qed.

(** C6.  When the head event of the queue has a mandatory pending effect
    (its pending list being the stored one, made of distinct objects, or
    the one collected on the spot), processEvents resolves the FIRST
    mandatory effect [e] of that list, and it takes [e] out of the list
    before it calls the procedure: the list was [before ++ e :: after]
    with no mandatory entry in [before]; processEvents looks up the
    procedure of [e] in the registry and calls it, with the payload of
    [e], on the party whose head event holds [before ++ after], a list
    that no longer has the object [e] and has one mandatory entry less,
    nothing else of the party being different.  What processEvents returns
    is what follows from that call: a missing procedure or a procedure that
    throws ends it with the exception, the party being as the procedure
    left it, so that [e] stays removed; after a normal return the loop
    goes on from the party the procedure left, and the reports of the
    pass, of the procedure and of the rest of the loop are the reports of
    the call. *)
Theorem mandatory_effect_removed_before_invocation :
  forall (coerce_ge coerce_le : JsVal -> JsVal -> Completion bool)
         (effectLibrary : Z -> option EffectFn) (fuel : nat)
         (party : Party) (ev : Event) (rest : list Event)
         (r : list Report) (pending others : list PendingEffect)
         (e : PendingEffect),
    eventQueue party = ev :: rest ->
    distinctObjects ev ->
    headPending coerce_ge coerce_le ev party = (r, Normal pending) ->
    filter (fun p => mandatory (effect p)) pending = e :: others ->
    exists before after,
      let removed :=
        set_eventQueue (set_pendingEffects (Some (before ++ after)) ev :: rest)
                       party in
      pending = before ++ e :: after
      /\ forallb (fun p => negb (mandatory (effect p))) before = true
      /\ mandatory (effect e) = true
      /\ loopBody coerce_ge coerce_le effectLibrary party
         = (r, Invoke (effectLibrary (function_index (effect e)))
                      (eventPayload e) removed)
      /\ processEvents coerce_ge coerce_le effectLibrary (S fuel) party
         = match effectLibrary (function_index (effect e)) with
           | None => Some (removed, (r, Throws))
           | Some effectFunction =>
               match effectFunction (eventPayload e) removed with
               | (p', (r', Normal _)) =>
                   match processEvents coerce_ge coerce_le effectLibrary fuel p' with
                   | Some (p'', (r'', c)) => Some (p'', (r ++ r' ++ r'', c))
                   | None => None
                   end
               | (p', (r', Throws)) => Some (p', (r ++ r', Throws))
               end
           end
      /\ ~ In (oid e) (map oid (before ++ after))
      /\ (List.length (filter (fun p => mandatory (effect p)) (before ++ after)) + 1
          = List.length (filter (fun p => mandatory (effect p)) pending))%nat.
Proof.
  intros cge cle lib fuel party ev rest r pending others e Hq Hdist Hpend Hfilter.
  assert (Hnodup : NoDup (map oid pending)).
  { unfold headPending, distinctObjects in *.
    destruct (pendingEffects ev) as [l|].
    - inversion Hpend; subst. exact Hdist.
    - eapply collect_distinct; eauto. }
  destruct (filter_head_split _ _ Hfilter) as (before & after & -> & Hb & He & _).
  destruct (removeResolved_distinct e before after Hnodup) as (Hrem & Hnot).
  assert (Hloop : loopBody cge cle lib party
                  = (r, Invoke (lib (function_index (effect e))) (eventPayload e)
                               (set_eventQueue
                                  (set_pendingEffects (Some (before ++ after)) ev
                                   :: rest) party))).
  { unfold loopBody. rewrite Hq.
    unfold headPending in Hpend. rewrite Hpend, Hfilter, Hrem.
    unfold set_head_pending. rewrite Hq. simpl.
    destruct party; reflexivity. }
  exists before, after. cbv zeta. repeat split; auto.
  - exact (processEvents_invokes cge cle lib fuel party Hloop).
  - now apply filter_length_remove.
Qed.

(* ------------------------------------------------------------------ *)
(** ** The determinizer                                                *)
(* ------------------------------------------------------------------ *)

Lemma count_app (p : Card -> bool) (l1 l2 : list Card) :
  count p (l1 ++ l2) = count p l1 + count p l2.
Proof. unfold count. rewrite filter_app, length_app. lia. Qed.

Lemma filter_Permutation (p : Card -> bool) (l1 l2 : list Card) :
  Permutation l1 l2 -> Permutation (filter p l1) (filter p l2).
Proof.
  induction 1 as [|x l1 l2 _ IH|x y l|l1 l2 l3 _ IH1 _ IH2]; simpl.
  - constructor.
  - destruct (p x); [now constructor|exact IH].
  - destruct (p x), (p y); try apply Permutation_refl. constructor.
  - eapply Permutation_trans; eauto.
Qed.

Lemma count_Permutation (p : Card -> bool) (l1 l2 : list Card) :
  Permutation l1 l2 -> count p l1 = count p l2.
Proof.
  intros H. unfold count.
  now rewrite (Permutation_length (filter_Permutation p H)).
Qed.

Lemma heal_has_trigger (c : Card) : trigger_is "Heal" c = true -> has_trigger c = true.
Proof.
  unfold trigger_is, has_trigger. destruct (trigger c) as [t|]; [|discriminate].
  intros H. apply String.eqb_eq in H. subst. reflexivity.
Qed.

(** The four categories of _determinize divide the pool. *)
Lemma pool_partition (l : list Card) :
  Permutation
    (filter (trigger_is "Heal") l
     ++ filter (fun c => has_trigger c && negb (trigger_is "Heal" c)) l
     ++ filter (fun c => is_sentinel c && negb (has_trigger c)) l
     ++ filter (fun c => negb (has_trigger c) && negb (is_sentinel c)) l)
    l.
Proof.
  induction l as [|c l IH]; simpl; [constructor|].
  pose proof (heal_has_trigger c) as Hh.
  destruct (trigger_is "Heal" c), (has_trigger c), (is_sentinel c); simpl;
    try (specialize (Hh eq_refl); discriminate).
  - now apply perm_skip.
  - now apply perm_skip.
  - apply Permutation_sym, Permutation_cons_app, Permutation_sym, IH.
  - apply Permutation_sym, Permutation_cons_app, Permutation_sym, IH.
  - apply Permutation_sym.
    rewrite app_assoc. apply Permutation_cons_app.
    rewrite <- app_assoc. apply Permutation_sym, IH.
  - apply Permutation_sym.
    rewrite 2 app_assoc. apply Permutation_cons_app.
    rewrite <- 2 app_assoc. apply Permutation_sym, IH.
Qed.

Lemma public_partition (l : list Card) :
  Permutation (filter isPublic l ++ filter (fun c => negb (isPublic c)) l) l.
Proof.
  induction l as [|c l IH]; simpl; [constructor|].
  destruct (isPublic c); simpl.
  - now constructor.
  - apply Permutation_sym, Permutation_cons_app, Permutation_sym, IH.
Qed.

Lemma splice_front_Permutation (n : Z) (l : list Card) :
  Permutation (snd (splice_front n l) ++ fst (splice_front n l)) l.
Proof.
  unfold splice_front. simpl.
  rewrite Permutation_app_comm. now rewrite firstn_skipn.
Qed.

(** Dealing moves cards from the pool to the hand and loses none. *)
Lemma deal_Permutation (rounds handSize : nat) :
  forall (h pool : list Card),
    Permutation (fst (deal rounds handSize h pool) ++ snd (deal rounds handSize h pool))
                (h ++ pool).
Proof.
  induction rounds as [|k IH]; intros h pool; simpl; [apply Permutation_refl|].
  destruct (Nat.ltb (List.length h) handSize && Nat.ltb 0 (List.length pool));
    [|apply Permutation_refl].
  destruct (pop_cases pool) as [[-> Hp]|(below & top & -> & Hp)]; rewrite Hp.
  - apply Permutation_refl.
  - eapply Permutation_trans; [apply IH|].
    rewrite <- app_assoc. apply Permutation_app_head.
    simpl. apply Permutation_cons_append.
Qed.

Lemma regroup (a1 a2 b1 b2 c1 c2 n : list Card) :
  Permutation (a2 ++ b2 ++ c2 ++ n ++ a1 ++ b1 ++ c1)
              ((a2 ++ a1) ++ (b2 ++ b1) ++ (c2 ++ c1) ++ n).
Proof.
  rewrite <- !app_assoc. apply Permutation_app_head.
  transitivity (a1 ++ (b2 ++ c2 ++ n) ++ b1 ++ c1).
  { rewrite (app_assoc b2), (app_assoc (b2 ++ c2)), <- (app_assoc b2).
    apply Permutation_app_swap_app. }
  apply Permutation_app_head. rewrite <- app_assoc. apply Permutation_app_head.
  transitivity (b1 ++ (c2 ++ n) ++ c1).
  { apply Permutation_app_swap_app. }
  apply Permutation_app_head. rewrite <- app_assoc. apply Permutation_app_head.
  apply Permutation_app_comm.
Qed.

Section DeterminizerFacts.

Variable shuffle : nat -> list Card -> list Card.
Hypothesis shuffle_Permutation : forall k l, Permutation (shuffle k l) l.

Lemma required_then_rest (k : nat) (n : Z) (l : list Card) :
  Permutation (snd (splice_front n (shuffle k l)) ++ fst (splice_front n (shuffle k l))) l.
Proof.
  eapply Permutation_trans; [apply splice_front_Permutation|apply shuffle_Permutation].
Qed.

(** _determinize deals the opponent's hand and deck again: the cards of
    the new hand and deck together are those of the old ones. *)
Lemma determinize_redeals (state : Party) :
  let opp := other (currentPlayerIndex state) in
  Permutation
    (hand (players (_determinize shuffle state) opp)
     ++ deck (players (_determinize shuffle state) opp))
    (hand (players state opp) ++ deck (players state opp)).
Proof.
  intros opp. unfold _determinize, cloneDeep. fold opp.
  set (opponent := players state opp).
  set (pool := deck opponent ++ filter (fun c => negb (isPublic c)) (hand opponent)).
  match goal with
  | |- context [splice_front ?n (shuffle 0 ?l)] =>
      pose proof (required_then_rest 0 n l) as H0;
      destruct (splice_front n (shuffle 0 l)) as [reqH remH]
  end.
  match goal with
  | |- context [splice_front ?n (shuffle 1 ?l)] =>
      pose proof (required_then_rest 1 n l) as H1;
      destruct (splice_front n (shuffle 1 l)) as [reqO remO]
  end.
  match goal with
  | |- context [splice_front ?n (shuffle 2 ?l)] =>
      pose proof (required_then_rest 2 n l) as H2;
      destruct (splice_front n (shuffle 2 l)) as [reqS remS]
  end.
  simpl in H0, H1, H2.
  match goal with
  | |- context [deal ?r ?h ?pub ?fp] =>
      pose proof (deal_Permutation r h pub fp) as Hd;
      destruct (deal r h pub fp) as [newHand newDeck]
  end.
  simpl in Hd. rewrite players_upd_same. simpl.
  eapply Permutation_trans; [exact Hd|].
  transitivity (filter isPublic (hand opponent) ++ pool).
  - apply Permutation_app_head.
    eapply Permutation_trans; [apply shuffle_Permutation|].
    eapply Permutation_trans; [apply regroup|].
    eapply Permutation_trans; [|apply (pool_partition pool)].
    repeat apply Permutation_app; auto.
  - unfold pool.
    eapply Permutation_trans; [apply Permutation_app_swap_app|].
    eapply Permutation_trans; [|apply Permutation_app_comm].
    apply Permutation_app_head, public_partition.
Qed.

(** Nothing but the hand and the deck of the opponent is dealt again. *)
Lemma determinize_elsewhere (state : Party) :
  let opp := other (currentPlayerIndex state) in
  elsewhere (players (_determinize shuffle state) opp)
  = elsewhere (players state opp).
Proof.
  intros opp. unfold _determinize, cloneDeep. fold opp.
  repeat match goal with
         | |- context [splice_front ?n ?l] => destruct (splice_front n l)
         end.
  match goal with
  | |- context [deal ?r ?h ?pub ?fp] => destruct (deal r h pub fp)
  end.
  rewrite players_upd_same. reflexivity.
Qed.

(** Zone by zone: the board, the ride deck and the ten other zones of the
    opponent are the same objects with the same contents. *)
Lemma determinize_keeps_other_zones (state : Party) :
  let opp := other (currentPlayerIndex state) in
  let before := players state opp in
  let after := players (_determinize shuffle state) opp in
  board after = board before /\ rideDeck after = rideDeck before
  /\ dropZone after = dropZone before /\ damageZone after = damageZone before
  /\ soul after = soul before /\ gZone after = gZone before
  /\ bindZone after = bindZone before /\ guardianZone after = guardianZone before
  /\ triggerZone after = triggerZone before /\ crestZone after = crestZone before
  /\ orderZone after = orderZone before.
Proof.
  intros opp before after. subst after before.
  unfold _determinize, cloneDeep. fold opp.
  repeat match goal with
         | |- context [splice_front ?n ?l] => destruct (splice_front n l)
         end.
  match goal with
  | |- context [deal ?r ?h ?pub ?fp] => destruct (deal r h pub fp)
  end.
  rewrite players_upd_same. simpl. repeat split.
Qed.

(** C7.  Let the opponent's cards (hand, deck and every other zone) hold
    exactly 16 trigger cards, 4 heal triggers among them, and 4 Sentinel
    cards.  Then after any determinization, the heal-trigger, trigger and
    Sentinel counts of the opponent's new hand and deck taken together,
    added to the counts in the opponent's other zones (which the
    determinizer leaves as they are), are 4, 16 and 4. *)
Theorem determinize_respects_deck_totals :
  forall (state : Party),
    let opp := other (currentPlayerIndex state) in
    let before := players state opp in
    let after := players (_determinize shuffle state) opp in
    count (trigger_is "Heal") (allZones before) = 4 ->
    count has_trigger (allZones before) = 16 ->
    count is_sentinel (allZones before) = 4 ->
    elsewhere after = elsewhere before
    /\ count (trigger_is "Heal") (hand after ++ deck after)
       + count (trigger_is "Heal") (elsewhere after) = 4
    /\ count has_trigger (hand after ++ deck after)
       + count has_trigger (elsewhere after) = 16
    /\ count is_sentinel (hand after ++ deck after)
       + count is_sentinel (elsewhere after) = 4.
Proof.
  intros state opp before after Hh Ht Hs.
  pose proof (determinize_redeals state) as Hp.
  pose proof (determinize_elsewhere state) as He.
  simpl in Hp, He. subst after before opp.
  unfold allZones in *. rewrite app_assoc, count_app in Hh, Ht, Hs.
  rewrite He.
  rewrite !(count_Permutation _ Hp). auto.
Qed.

End DeterminizerFacts.

(* ------------------------------------------------------------------ *)
(** ** What the evaluator and the appliers do reject                   *)
(* ------------------------------------------------------------------ *)

Section Rejections.

Variable coerce_ge coerce_le : JsVal -> JsVal -> Completion bool.
Variable effectLibrary : Z -> option EffectFn.
Variable randomIndex : Z -> Z.

(** No condition ([undefined], [null], or any other falsy value): true. *)
Lemma evaluateCondition_absent (condition : JsVal) (party : Party) :
  falsy condition = true ->
  evaluateCondition coerce_ge coerce_le condition party = ([], Normal true).
Proof. intros H. destruct condition; simpl in *; rewrite ?H; try reflexivity; discriminate. Qed.

(** An array without 'and'/'or' whose length is not 3: false, with the
    "Invalid condition format" report. *)
Lemma evaluateCondition_wrong_length (items : list JsVal) (party : Party) :
  existsb (is_str "and") items = false ->
  existsb (is_str "or") items = false ->
  List.length items <> 3%nat ->
  evaluateCondition coerce_ge coerce_le (JArr items) party
  = ([WarnInvalidCondition (JArr items)], Normal false).
Proof.
  intros Ha Ho Hl. simpl. rewrite Ha, Ho. simpl.
  unfold evalComparison.
  destruct items as [|a [|b [|c [|d items]]]]; try reflexivity.
  exfalso. apply Hl. reflexivity.
Qed.

(** A comparison on a string field with an operator that is none of the
    four supported ones: false, with the "Unknown operator" report. *)
Lemma evaluateCondition_unknown_operator (path : string) (operator value : JsVal)
      (party : Party) :
  existsb (is_str "and") [JStr path; operator; value] = false ->
  existsb (is_str "or") [JStr path; operator; value] = false ->
  is_str "===" operator = false -> is_str "!==" operator = false ->
  is_str ">=" operator = false -> is_str "<=" operator = false ->
  evaluateCondition coerce_ge coerce_le (JArr [JStr path; operator; value]) party
  = ([WarnUnknownOperator operator], Normal false).
Proof.
  intros Ha Ho H1 H2 H3 H4.
  cbn [evaluateCondition falsy]. rewrite Ha, Ho. cbn [orb].
  unfold evalComparison, getContextValue.
  destruct (split_dot path) as [|context restOfPath];
    [|destruct (context =? "player")%string];
    rewrite H1, H2, H3, H4; reflexivity.
Qed.

(** A CALL whose hand index is a number out of range is rejected: the
    input is handed back as it was, with a report. *)
Lemma call_out_of_range_rejected (fuel : nat) (s : Party) (i : Z)
      (iid : option string) (circleTag : string) :
  i < 0 \/ i >= Z.of_nat (List.length (hand (players s (currentPlayerIndex s)))) ->
  applyAction coerce_ge coerce_le effectLibrary randomIndex fuel s
              (CALL (Some i) iid circleTag)
  = Some (mkOutcome s [ErrCallIndexNotFound (Some i)] (Normal SameObject)).
Proof.
  intros H. simpl. unfold direct, applyCall, cloneDeep.
  assert ((i <? 0) || (i >=? Z.of_nat (List.length (hand (players s (currentPlayerIndex s)))))
          = true) as ->.
  { apply orb_true_iff. destruct H; [left|right]; lia. }
  reflexivity.
Qed.

(** A GUARD whose card instance is not in the defender's hand is rejected
    in the same way. *)
Lemma guard_unknown_card_rejected (fuel : nat) (s : Party) (iid : string)
      (sh : option Z) :
  findIndex (fun c => (uniqueId c =? iid)%string)
            (hand (players s (other (currentPlayerIndex s)))) = None ->
  applyAction coerce_ge coerce_le effectLibrary randomIndex fuel s (GUARD iid sh)
  = Some (mkOutcome s [ErrGuardNotInHand iid] (Normal SameObject)).
Proof.
  intros H. simpl. unfold direct, applyGuard, cloneDeep. rewrite H. reflexivity.
Qed.

(** An unknown circle name is not rejected: a CALL (with a valid hand
    index) and a MOVE naming it throw. *)
Lemma unknown_circle_throws (fuel : nat) (s : Party) (tag other_tag : string)
      (first : Card) (rest : list Card) :
  getCircle tag = None ->
  hand (players s (currentPlayerIndex s)) = first :: rest ->
  applyAction coerce_ge coerce_le effectLibrary randomIndex fuel s
              (CALL (Some 0) None tag)
  = Some (mkOutcome s [] Throws)
  /\ applyAction coerce_ge coerce_le effectLibrary randomIndex fuel s
                 (MOVE tag other_tag)
     = Some (mkOutcome s [] Throws).
Proof.
  intros Hc Hh. split; simpl; unfold direct, applyCall, applyMove, cloneDeep.
  - rewrite Hh, Hc. reflexivity.
  - rewrite Hc. reflexivity.
Qed.

(** With an empty event queue, a RIDE from hand of a card that is not
    there leaves the caller's state in phase "main" with [nextPhase]
    set. *)
Lemma failed_ride_general (fuel : nat) (s : Party) (cid : string)
      (discard : option string) :
  eventQueue s = [] ->
  findIndex (fun c => (id c =? cid)%string) (hand (players s (currentPlayerIndex s)))
  = None ->
  applyAction coerce_ge coerce_le effectLibrary randomIndex (S fuel) s
              (RIDE cid "hand" discard)
  = Some (mkOutcome (set_phase "main" (set_nextPhase (Some "main") s))
                    [ErrRideNotInHand cid] (Normal SameObject)).
Proof.
  intros Hq Hf. simpl. unfold applyRide, cloneDeep. simpl. rewrite Hf. simpl.
  unfold loopBody. simpl. rewrite Hq. reflexivity.
Qed.

End Rejections.

(** Backpropagation from any child of a root: the child is credited, the
    root is not. *)
Lemma backpropagate_child_of_root (Score : Type) (plus : Score -> Score -> Score)
      (h : Heap Score) (node root : NodeRef) (result : Result Score) (fuel : nat) :
  parent (h node) = Some root ->
  parent (h root) = None ->
  exists h',
    _backpropagate plus (S (S fuel)) node result h = Some (h', Normal tt)
    /\ h' root = h root
    /\ visits (h' node) = visits (h node) + 1.
Proof.
  intros Hn Hr.
  assert (Hne : Nat.eqb root node = false).
  { apply Nat.eqb_neq. intros ->. congruence. }
  unfold _backpropagate. rewrite Hn. simpl.
  unfold write at 1. rewrite Hne, Hr.
  eexists. split; [reflexivity|]. unfold write.
  rewrite Hne, Nat.eqb_refl. split; reflexivity.
Qed.

(* ------------------------------------------------------------------ *)
(** ** Where the code leaves its own contract                          *)
(* ------------------------------------------------------------------ *)

(** C2.  A RIDE whose card is not in the hand makes applyRide return the
    caller's own state; applyAction then writes [nextPhase] on it and runs
    processEvents on it.  On [rideEx] (ride phase, empty queue) the call
    returns the very object it was given, with its [phase] changed from
    "ride" to "main" and its [nextPhase] set. *)
Theorem failed_ride_writes_to_input :
  forall (coerce_ge coerce_le : JsVal -> JsVal -> Completion bool)
         (effectLibrary : Z -> option EffectFn) (randomIndex : Z -> Z)
         (fuel : nat),
    exists out,
      applyAction coerce_ge coerce_le effectLibrary randomIndex (S fuel)
                  rideEx (RIDE "g2-missing" "hand" None) = Some out
      /\ returned out = Normal SameObject
      /\ reports out = [ErrRideNotInHand "g2-missing"]
      /\ phase rideEx = "ride"
      /\ phase (input_after out) = "main"
      /\ nextPhase rideEx = None
      /\ nextPhase (input_after out) = Some "main".
Proof.
  intros. eexists. split; [reflexivity|]. simpl. repeat split.
Qed.

(** C1.  Three structurally invalid actions on [mainEx] / [rideEx]:
    a CALL naming the unknown circle "R9" throws; a CALL without hand
    index is not rejected but puts the first hand card on the circle,
    without a report; a RIDE of a card that is not in the hand reports the
    condition but hands back the input with its phase changed. *)
Theorem invalid_actions_escape_rejection :
  forall (coerce_ge coerce_le : JsVal -> JsVal -> Completion bool)
         (effectLibrary : Z -> option EffectFn) (randomIndex : Z -> Z)
         (fuel : nat),
    applyAction coerce_ge coerce_le effectLibrary randomIndex (S fuel)
                mainEx (CALL (Some 0) None "R9")
    = Some (mkOutcome mainEx [] Throws)
    /\ (exists s',
          applyAction coerce_ge coerce_le effectLibrary randomIndex (S fuel)
                      mainEx (CALL None None "R1")
          = Some (mkOutcome mainEx [] (Normal (NewObject s')))
          /\ hand (players s' P0) = [handB]
          /\ unit_at s' (P0, R1) = Some handA)
    /\ (exists out,
          applyAction coerce_ge coerce_le effectLibrary randomIndex (S fuel)
                      rideEx (RIDE "g2-missing" "hand" None) = Some out
          /\ returned out = Normal SameObject
          /\ input_after out <> rideEx).
Proof.
  intros. split; [reflexivity|]. split.
  - eexists. split; [reflexivity|]. split; reflexivity.
  - eexists. split; [reflexivity|]. split; [reflexivity|].
    simpl. intros H. apply (f_equal phase) in H. discriminate.
Qed.

(** C8.  Malformed conditions that are not answered with [false] and a
    report: a composite without right operand is [true] without report
    (the missing operand counts as "no condition"); so is one whose
    operands are both absent; a comparison whose field is not a string
    throws. *)
Theorem malformed_conditions_escape_rejection :
  forall (coerce_ge coerce_le : JsVal -> JsVal -> Completion bool)
         (party : Party),
    evaluateCondition coerce_ge coerce_le
      (JArr [JArr [JStr "player.index"; JStr "==="; JNum 0]; JStr "or"]) party
    = ([], Normal true)
    /\ evaluateCondition coerce_ge coerce_le (JArr [JNull; JStr "and"]) party
       = ([], Normal true)
    /\ evaluateCondition coerce_ge coerce_le
         (JArr [JNum 5; JStr "==="; JNum 5]) party
       = ([], Throws).
Proof.
  intros. repeat split.
  simpl. destruct (currentPlayerIndex party); reflexivity.
Qed.

(** C5.  Backpropagation from a child of the root credits the child and
    stops: the root keeps its visit count and its scores.  (The loop
    advances with [parent = parent.parent; current = parent], which steps
    over the node's direct parent.)  Started at the root itself it
    credits the root and then throws. *)
Theorem backpropagation_skips_the_parent :
  forall (Score : Type) (plus : Score -> Score -> Score) (zero : Score)
         (result : Result Score) (st : Party) (fuel : nat),
    (exists h',
        _backpropagate plus (S (S fuel)) 1%nat result (rootAndChild zero st)
        = Some (h', Normal tt)
        /\ visits (h' 1%nat) = 1
        /\ visits (h' O) = 0
        /\ gradeScore (h' O) = zero
        /\ damageScore (h' O) = zero)
    /\ (exists h',
           _backpropagate plus (S fuel) O result (rootAndChild zero st)
           = Some (h', Throws)
           /\ visits (h' O) = 1).
Proof.
  intros. split; eexists; (split; [reflexivity|]); repeat split.
Qed.

(* ------------------------------------------------------------------ *)
(** ** The statements at concrete states                               *)
(* ------------------------------------------------------------------ *)

(** C9 at [guardEx]: one GUARD (the order card has no shield value), one
    INTERCEPT and PASS_GUARD_STEP. *)
Lemma guard_generator_complete_witness :
  phase guardEx = "guard"
  /\ exists acts,
       getPossibleActions compareAsNaN compareAsNaN guardEx = ([], Normal acts)
       /\ filter isPassGuardStep acts = [PASS_GUARD_STEP]
       /\ List.length acts = 3%nat.
Proof.
  split; [reflexivity|].
  destruct (guard_generator_complete compareAsNaN compareAsNaN guardEx eq_refl)
    as (acts & H1 & H2 & _ & _ & _ & H6).
  exists acts. split; [exact H1|]. split; [exact H2|exact H6].
Defined.

(** C10 at [mainEx]: the generated CALL that names the second hand card
    puts the first one on the circle. *)
Lemma generated_call_places_first_hand_card_witness :
  exists iid circle s',
    CALL None (Some "h-b") "R2" = CALL None (Some iid) (circle_name circle)
    /\ applyAction compareAsNaN compareAsNaN noEffects (fun _ => 0) 1 mainEx
                   (CALL None (Some "h-b") "R2")
       = Some (mkOutcome mainEx [] (Normal (NewObject s')))
    /\ hand (players s' P0) = [handB]
    /\ unit_at s' (P0, circle) = Some handA.
Proof.
  refine (generated_call_places_first_hand_card
            compareAsNaN compareAsNaN noEffects (fun _ => 0) 1 mainEx mainEx
            (r := []) (CALL None (Some "h-b") "R2") (first := handA)
            (rest := [handB]) _ _ _ _).
  - reflexivity.
  - simpl. tauto.
  - reflexivity.
  - reflexivity.
Defined.

(** C3 at [closeEx]: 8000 against 8000 without guardians hits. *)
Lemma close_step_hits_iff_power_reaches_target_witness :
  exists r s', applyCloseStep closeEx None = (r, Normal (true, s')).
Proof.
  destruct (close_step_hits_iff_power_reaches_target closeEx None
              (b := mkBattle (P0, V) (P1, V) 8000) (t := rivalG1)
              (a := vanguardG1) eq_refl eq_refl eq_refl)
    as (r & hit & s' & H & _ & _ & _ & Heq & _).
  exists r, s'. rewrite <- (Heq eq_refl). exact H.
Defined.

(** C4 at [closeEx], with a readline interface: one damage check. *)
Lemma close_step_hit_consequences_witness :
  exists r s1 asked,
    DamageChecks P1 noAnswer 1 (closeEx, O) (s1, asked)
    /\ applyCloseStep closeEx (Some noAnswer) = (r, Normal (true, endOfBattle s1)).
Proof.
  assert (Hge : 8000 >= 8000 + 0 + 0) by lia.
  exact (proj1 (close_step_hit_consequences closeEx (Some noAnswer)
                  (b := mkBattle (P0, V) (P1, V) 8000) (t := rivalG1)
                  (a := vanguardG1) eq_refl eq_refl eq_refl Hge) eq_refl).
Defined.

(** C4 as stated fails at [closeEx] when no readline interface is passed:
    the attack hits the vanguard with critical 1 and the defender's deck
    has a top card, yet the state returned is not one in which a damage
    check was performed. *)
Lemma close_step_without_readline_checks_no_damage :
  critical vanguardG1 + bonusCritical vanguardG1 = 1
  /\ ~ (exists (ask : Readline) r s1 asked,
           DamageChecks P1 ask 1 (closeEx, O) (s1, asked)
           /\ applyCloseStep closeEx None = (r, Normal (true, endOfBattle s1))).
Proof.
  split; [reflexivity|].
  intros (ask & r & s1 & asked & Hc & Happ).
  assert (Hs1 : s1 = upd_player P1
                       (fun p => set_damageZone (damageZone p ++ [handB]) p)
                       (upd_player P1 (set_deck [handA]) closeEx)).
  { inversion Hc as [|n s a st' He Hrest|n s a below top s2 a2 r2 st' Hd Ht Hrest];
      subst.
    - discriminate He.
    - change (deck (players closeEx P1)) with ([handA] ++ [handB]) in Hd.
      apply app_inj_tail in Hd. destruct Hd as [<- <-].
      simpl in Ht. inversion Ht; subst.
      inversion Hrest; subst. reflexivity. }
  subst s1. vm_compute in Happ. discriminate Happ.
Qed.

(** C6 at [riddenEx] with the registry of the repository: the mandatory
    crest effect is collected and removed, procedure 1 is called on the
    party whose head event has an empty pending list, and processEvents
    ends in the main phase with the event gone and the crest in place. *)
Lemma mandatory_effect_removed_before_invocation_witness :
  exists e p' final,
    mandatory (effect e) = true
    /\ onRideEnergyCrest (eventPayload e)
         (set_eventQueue [mkEvent "ON_RIDE" (Some (vanguardG1, handB)) (Some [])]
                         riddenEx)
       = (p', ([], Normal tt))
    /\ processEvents compareAsNaN compareAsNaN effects 3 riddenEx
       = Some (final, ([], Normal tt))
    /\ processEvents compareAsNaN compareAsNaN effects 2 p'
       = Some (final, ([], Normal tt))
    /\ crestZone (players final P0) = [energyGenerator]
    /\ eventQueue final = []
    /\ phase final = "main".
Proof.
  set (ev := mkEvent "ON_RIDE" (Some (vanguardG1, handB)) None).
  set (e := mkPending O "Energy Generator" "eg" crestEffect (payload_of ev)).
  destruct (mandatory_effect_removed_before_invocation
              compareAsNaN compareAsNaN effects 2 riddenEx
              (ev := ev) (rest := []) (r := []) (pending := [e]) (others := [])
              (e := e) eq_refl I eq_refl eq_refl)
    as (before & after & Hsplit & _ & Hm & _ & Hproc & _).
  assert (Hba : before = [] /\ after = []).
  { destruct before as [|x before].
    - simpl in Hsplit. inversion Hsplit. auto.
    - destruct before; discriminate Hsplit. }
  destruct Hba as [-> ->].
  pose (p' := fst (onRideEnergyCrest (eventPayload e)
                     (set_eventQueue
                        [mkEvent "ON_RIDE" (Some (vanguardG1, handB)) (Some [])]
                        riddenEx))).
  pose (final := match processEvents compareAsNaN compareAsNaN effects 2 p' with
                 | Some (p'', _) => p''
                 | None => riddenEx
                 end).
  exists e, p', final.
  assert (Hcall : onRideEnergyCrest (eventPayload e)
                    (set_eventQueue
                       [mkEvent "ON_RIDE" (Some (vanguardG1, handB)) (Some [])]
                       riddenEx)
                  = (p', ([], Normal tt))) by (vm_compute; reflexivity).
  assert (Hrest : processEvents compareAsNaN compareAsNaN effects 2 p'
                  = Some (final, ([], Normal tt))) by (vm_compute; reflexivity).
  split; [exact Hm|]. split; [exact Hcall|].
  split; [|split; [exact Hrest|repeat split; vm_compute; reflexivity]].
  etransitivity; [exact Hproc|]. vm_compute. reflexivity.
Defined.

(** C7 at [fullDeckEx] with the reversing shuffle. *)
Lemma determinize_respects_deck_totals_witness :
  count (trigger_is "Heal")
        (hand (players (_determinize reversing fullDeckEx) P1)
         ++ deck (players (_determinize reversing fullDeckEx) P1))
  + count (trigger_is "Heal")
          (elsewhere (players (_determinize reversing fullDeckEx) P1)) = 4.
Proof.
  assert (Hperm : forall k l, Permutation (reversing k l) l).
  { intros k l. apply Permutation_sym, Permutation_rev. }
  exact (proj1 (proj2 (determinize_respects_deck_totals reversing Hperm fullDeckEx
                         eq_refl eq_refl eq_refl))).
Defined.

(* ------------------------------------------------------------------ *)
(** ** Card conservation                                               *)
(* ------------------------------------------------------------------ *)

Lemma cnt_app (x : string) (a b : list Card) :
  cnt x (a ++ b) = (cnt x a + cnt x b)%nat.
Proof. unfold cnt. now rewrite map_app, count_occ_app. Qed.

Lemma cnt_nil (x : string) : cnt x [] = O.
Proof. reflexivity. Qed.

Lemma cnt_cons (x : string) (c : Card) (l : list Card) :
  cnt x (c :: l) = (cnt x [c] + cnt x l)%nat.
Proof. now rewrite <- cnt_app. Qed.

Lemma cnt1_Some (x : string) (c : Card) : cnt1 x (Some c) = cnt x [c].
Proof. reflexivity. Qed.

Lemma cnt1_None (x : string) : cnt1 x None = O.
Proof. reflexivity. Qed.

Lemma units_one (b : Board) (c : CircleName) (x : string) :
  cnt x (units b [c]) = cnt1 x (unit_of b c).
Proof. unfold units. simpl. destruct (unit_of b c); reflexivity. Qed.

Lemma units_app (b : Board) (r1 r2 : list CircleName) :
  units b (r1 ++ r2) = units b r1 ++ units b r2.
Proof. unfold units. apply flat_map_app. Qed.

Lemma tally_cardsOf (x : string) (p : Player) :
  cnt x (cardsOf p) = tally x p.
Proof.
  unfold cardsOf, tally.
  change (frontRow ++ backRow) with ([R1] ++ [V] ++ [R2] ++ [R3] ++ [R4] ++ [R5]).
  rewrite !units_app, !cnt_app, !units_one. simpl unit_of. lia.
Qed.

(** Conservation is equality of all tallies. *)
Lemma conserved_tally (s s' : Party) :
  conserved s s' <-> forall i x, tally x (players s' i) = tally x (players s i).
Proof.
  unfold conserved. split; intros H i.
  - intros x. rewrite <- !tally_cardsOf. unfold cnt.
    now apply Permutation_count_occ.
  - apply (Permutation_count_occ string_dec). intros x.
    specialize (H i x). now rewrite <- !tally_cardsOf in H.
Qed.

Lemma conserved_refl (s : Party) : conserved s s.
Proof. intros i. apply Permutation_refl. Qed.

Lemma conserved_trans (s1 s2 s3 : Party) :
  conserved s1 s2 -> conserved s2 s3 -> conserved s1 s3.
Proof. intros H1 H2 i. eapply Permutation_trans; [apply H2|apply H1]. Qed.

Lemma conserved_same_players (s s' : Party) :
  (forall i, players s' i = players s i) -> conserved s s'.
Proof. intros H i. now rewrite H. Qed.

Lemma cnt_same_id (x : string) (c c' : Card) :
  uniqueId c = uniqueId c' -> cnt x [c] = cnt x [c'].
Proof. unfold cnt. simpl. now intros ->. Qed.

Lemma cnt_map_same_id (x : string) (f : Card -> Card) (l : list Card) :
  (forall c, uniqueId (f c) = uniqueId c) -> cnt x (map f l) = cnt x l.
Proof.
  intros H. unfold cnt. rewrite map_map. f_equal. apply map_ext. exact H.
Qed.

Lemma cnt1_map_same_id (x : string) (f : Card -> Card) (o : option Card) :
  (forall c, uniqueId (f c) = uniqueId c) -> cnt1 x (option_map f o) = cnt1 x o.
Proof. intros H. destruct o; simpl; [apply cnt_same_id, H|reflexivity]. Qed.

Lemma cnt_splice1 (x : string) (l : list Card) (i : nat) :
  cnt x l = (cnt1 x (fst (splice1 i l)) + cnt x (snd (splice1 i l)))%nat.
Proof.
  revert i. induction l as [|c l IH]; intros i; [destruct i; reflexivity|].
  destruct i as [|k]; simpl.
  - apply cnt_cons.
  - specialize (IH k). destruct (splice1 k l) as [o r]. simpl in *.
    rewrite (cnt_cons x c l), (cnt_cons x c r), IH. lia.
Qed.

Lemma cnt_pop (x : string) (l : list Card) :
  cnt x l = (cnt1 x (fst (pop l)) + cnt x (snd (pop l)))%nat.
Proof.
  destruct (pop_cases l) as [[-> Hp]|(below & top & -> & Hp)]; rewrite Hp; simpl.
  - reflexivity.
  - rewrite cnt_app, cnt1_Some. lia.
Qed.

Lemma cnt_push (x : string) (o : option Card) (d : list Card) :
  cnt x (match o with Some u => d ++ [u] | None => d end)
  = (cnt x d + cnt1 x o)%nat.
Proof. destruct o; [apply cnt_app|rewrite cnt1_None; apply plus_n_O]. Qed.

(** Closes a tally goal once the states are explicit. *)
Ltac tally_crunch :=
  unfold tally in *; cbn in *; rewrite ?cnt_push in *;
  repeat match goal with
         | |- context [match ?o with Some _ => _ | None => _ end] =>
             destruct o eqn:?; cbn in *
         end;
  rewrite ?cnt_app, ?cnt1_Some, ?cnt1_None, ?cnt_nil in *;
  try lia; try reflexivity.

Lemma applyCall_conserves (s s' : Party) (idx : option Z) (tag : string)
      (r : list Report) :
  applyCall s idx tag = (r, Normal (NewObject s')) -> conserved s s'.
Proof.
  unfold applyCall, cloneDeep.
  destruct (match idx with Some _ => _ | None => _ end); [discriminate|].
  pose proof (fun x => cnt_splice1 x (hand (players s (currentPlayerIndex s)))
                         (Z.to_nat (num idx))) as Hs.
  destruct (splice1 _ _) as [cardToCall rest]. simpl in Hs.
  destruct (getCircle tag) as [c|]; [|discriminate].
  intros H. inversion H; subst. clear H.
  apply conserved_tally. intros i x. specialize (Hs x).
  destruct (currentPlayerIndex s), i, c; tally_crunch.
Qed.

Lemma applyMove_conserves (s s' : Party) (from to : string) (r : list Report) :
  applyMove s from to = (r, Normal (NewObject s')) -> conserved s s'.
Proof.
  unfold applyMove, cloneDeep.
  destruct (getCircle from) as [c1|]; [|discriminate].
  destruct (getCircle to) as [c2|]; [|discriminate].
  intros H. inversion H; subst. clear H.
  apply conserved_tally. intros i x.
  destruct (currentPlayerIndex s), i, c1, c2; unfold tally; cbn; lia.
Qed.

Lemma applyGuard_conserves (s s' : Party) (iid : string) (r : list Report) :
  applyGuard s iid = (r, Normal (NewObject s')) -> conserved s s'.
Proof.
  unfold applyGuard, cloneDeep.
  destruct (findIndex _ _) as [k|]; [|discriminate].
  pose proof (fun x => cnt_splice1 x
                         (hand (players s (other (currentPlayerIndex s)))) k) as Hs.
  destruct (splice1 _ _) as [[c|] rest]; simpl in Hs;
    intros H; inversion H; subst; clear H; [|apply conserved_refl].
  apply conserved_tally. intros i x. specialize (Hs x).
  destruct (currentPlayerIndex s), i; tally_crunch.
Qed.

Lemma applyIntercept_conserves (s s' : Party) (iid circle : string)
      (r : list Report) :
  applyIntercept s iid circle = (r, Normal (NewObject s')) -> conserved s s'.
Proof.
  unfold applyIntercept, cloneDeep.
  destruct (getCircle circle) as [c|]; [|discriminate].
  destruct (unit_of _ c) as [u|] eqn:Eu; [|discriminate].
  destruct (uniqueId u =? iid)%string; [|discriminate].
  intros H. inversion H; subst. clear H.
  apply conserved_tally. intros i x.
  assert (Hid : cnt x [set_isResting true u] = cnt x [u]) by (now apply cnt_same_id).
  destruct (currentPlayerIndex s), i, c; cbn in Eu; unfold tally; cbn;
    rewrite ?Eu, ?cnt_app, ?cnt1_Some, ?cnt1_None, ?Hid; lia.
Qed.

Lemma cnt1_rest (x : string) (o : option Card) :
  cnt1 x (option_map (set_isResting true) o) = cnt1 x o.
Proof. now apply cnt1_map_same_id. Qed.

Lemma tally_rest_unit (x : string) (c : CircleName) (p : Player) :
  tally x (set_board (rest_unit c (board p)) p) = tally x p.
Proof.
  unfold rest_unit, tally. destruct c; cbn; rewrite cnt1_rest; reflexivity.
Qed.

Lemma applyAttack_conserves (s s' : Party) (attacker target_ : string)
      (boost : bool) (r : list Report) :
  applyAttack s attacker target_ boost = (r, Normal (NewObject s')) ->
  conserved s s'.
Proof.
  unfold applyAttack, cloneDeep.
  destruct (getCircle attacker) as [ac|]; [|discriminate].
  destruct (getCircle target_) as [tc|]; [|discriminate].
  destruct (unit_of _ ac) as [au|]; [|discriminate].
  destruct (unit_of _ tc) as [tu|]; [|discriminate].
  intros H. apply bind_Normal in H. destruct H as (r1 & [b2 pw] & r2 & Hb & H & _).
  inversion H; subst. clear H.
  assert (Hboard : forall x p, board p = board (players s (currentPlayerIndex s)) ->
                               tally x (set_board b2 p) = tally x p).
  { intros x p Hp. destruct boost.
    - destruct (backRowCircleName ac) as [bc|]; [|discriminate].
      destruct (unit_of _ bc) as [bu|]; inversion Hb; subst.
      + rewrite <- Hp.
        change (set_board (rest_unit bc (rest_unit ac (board p))) p)
          with (set_board (rest_unit bc (board (set_board (rest_unit ac (board p)) p)))
                          (set_board (rest_unit ac (board p)) p)).
        now rewrite !tally_rest_unit.
      + rewrite <- Hp. apply tally_rest_unit.
    - inversion Hb; subst. rewrite <- Hp. apply tally_rest_unit. }
  apply conserved_tally. intros i x.
  destruct (currentPlayerIndex s) eqn:Ec, i; cbn; try reflexivity;
    apply Hboard; reflexivity.
Qed.

Lemma draw1_conserves (i : PlayerIndex) (s : Party) :
  conserved s (fst (draw1 i s)).
Proof.
  unfold draw1.
  pose proof (fun x => cnt_pop x (deck (players s i))) as Hp.
  destruct (pop _) as [[c|] rest]; cbn in *; [|apply conserved_refl].
  apply conserved_tally. intros j x. specialize (Hp x).
  destruct i, j; tally_crunch.
Qed.

Lemma draw_loop_conserves (n : nat) (i : PlayerIndex) (s : Party) :
  conserved s (fst (draw_loop n i s)).
Proof.
  revert s. induction n as [|n IH]; intros s; simpl; [apply conserved_refl|].
  pose proof (draw1_conserves i s) as H1.
  destruct (draw1 i s) as [s1 r1]. specialize (IH s1).
  destruct (draw_loop n i s1) as [s2 r2]. simpl in *.
  eapply conserved_trans; eauto.
Qed.

Lemma draw_conserves (i : PlayerIndex) (n : Z) (s : Party) :
  conserved s (fst (draw i n s)).
Proof. apply draw_loop_conserves. Qed.

Lemma applyRide_conserves (s s' : Party) (cid source : string)
      (discard : option string) (r : list Report) :
  applyRide s cid source discard = (r, Normal (NewObject s')) -> conserved s s'.
Proof.
  unfold applyRide, cloneDeep.
  destruct (source =? "hand")%string.
  - destruct (findIndex _ (hand _)) as [k|]; [|discriminate].
    pose proof (fun x => cnt_splice1 x (hand (players s (currentPlayerIndex s))) k)
      as Hs.
    destruct (splice1 k _) as [cardToRide rest]. simpl in Hs.
    intros H. inversion H; subst. clear H.
    apply conserved_tally. intros i x. specialize (Hs x).
    destruct (currentPlayerIndex s), i; destruct cardToRide; tally_crunch.
  - destruct (source =? "rideDeck")%string; [|discriminate].
    destruct (findIndex _ (rideDeck _)) as [k|]; [|discriminate].
    pose proof (fun x => cnt_splice1 x (rideDeck (players s (currentPlayerIndex s))) k)
      as Hs.
    destruct (splice1 k (rideDeck _)) as [cardToRide restRide]. simpl in Hs.
    destruct discard as [did|]; [|discriminate].
    destruct (findIndex _ (hand _)) as [k2|]; [|discriminate].
    pose proof (fun x => cnt_splice1 x (hand (players s (currentPlayerIndex s))) k2)
      as Hh.
    destruct (splice1 k2 _) as [discarded restHand]. simpl in Hh.
    intros H. inversion H; subst. clear H.
    apply conserved_tally. intros i x. specialize (Hs x). specialize (Hh x).
    destruct (currentPlayerIndex s), i; destruct cardToRide, discarded;
      tally_crunch.
Qed.

Lemma nth_error_update_nth {A : Type} (l : list A) (i j : nat) (b y : A) :
  nth_error l j = Some y ->
  nth_error (update_nth i b l) j = Some (if Nat.eqb j i then b else y).
Proof.
  revert i j. induction l as [|a l IH]; intros i j H; [destruct j; discriminate|].
  destruct i as [|i], j as [|j]; simpl in *; auto.
Qed.

Lemma cnt_update_nth (x : string) (l : list Card) (i : nat) (a b : Card) :
  nth_error l i = Some a ->
  (cnt x (update_nth i b l) + cnt x [a] = cnt x l + cnt x [b])%nat.
Proof.
  revert i. induction l as [|c l IH]; intros i H; [destruct i; discriminate|].
  destruct i as [|i]; simpl in *.
  - inversion H; subst. rewrite (cnt_cons x b l), (cnt_cons x a l). lia.
  - specialize (IH i H).
    rewrite (cnt_cons x c (update_nth i b l)), (cnt_cons x c l). lia.
Qed.

Lemma cnt_swap (x : string) (i j : nat) (d : list Card) :
  cnt x (swap i j d) = cnt x d.
Proof.
  unfold swap.
  destruct (nth_error d i) as [a|] eqn:Ei; [|reflexivity].
  destruct (nth_error d j) as [b|] eqn:Ej; [|reflexivity].
  pose proof (@cnt_update_nth x d i a b Ei) as H1.
  pose proof (@nth_error_update_nth _ d i j b b Ej) as Hj.
  assert (Hj' : nth_error (update_nth i b d) j = Some b)
    by (rewrite Hj; destruct (Nat.eqb j i); reflexivity).
  pose proof (@cnt_update_nth x (update_nth i b d) j b a Hj') as H2.
  lia.
Qed.

Section Shuffling.

Variable randomIndex : Z -> Z.

Lemma cnt_fisher_yates (x : string) (i : nat) (d : list Card) :
  cnt x (fisher_yates randomIndex i d) = cnt x d.
Proof.
  revert d. induction i as [|i IH]; intros d; simpl; [reflexivity|].
  now rewrite IH, cnt_swap.
Qed.

Lemma shuffleDeck_conserves (i : PlayerIndex) (s : Party) :
  conserved s (shuffleDeck randomIndex i s).
Proof.
  apply conserved_tally. intros j x. unfold shuffleDeck.
  destruct i, j; unfold tally; cbn; rewrite ?cnt_fisher_yates; lia.
Qed.

Lemma cnt_separate (x : string) (redraw : list Z) (l : list Card) (index : Z) :
  (cnt x (fst (separate redraw index l)) + cnt x (snd (separate redraw index l))
   = cnt x l)%nat.
Proof.
  revert index. induction l as [|c l IH]; intros index; simpl; [reflexivity|].
  specialize (IH (index + 1)).
  destruct (separate redraw (index + 1) l) as [keep re].
  destruct (existsb (Z.eqb index) redraw); simpl in *;
    rewrite (cnt_cons x c l); [rewrite (cnt_cons x c re)|rewrite (cnt_cons x c keep)];
    lia.
Qed.

Lemma applyMulligan_conserves (s s' : Party) (redraw : list Z) (r : list Report) :
  applyMulligan randomIndex s redraw = (r, Normal (NewObject s')) ->
  conserved s s'.
Proof.
  unfold applyMulligan, cloneDeep.
  pose proof (fun x => cnt_separate x redraw
                         (hand (players s (currentPlayerIndex s))) 0) as Hsep.
  destruct (separate redraw 0 _) as [keep re]. simpl in Hsep.
  match goal with
  | |- context [draw ?i ?n ?st] =>
      pose proof (draw_conserves i n st) as Hd; destruct (draw i n st) as [s3 r3]
  end.
  simpl in Hd. intros H. inversion H; subst. clear H.
  eapply conserved_trans;
    [|destruct (currentPlayerIndex s); apply conserved_same_players;
      intros []; reflexivity].
  eapply conserved_trans; [|exact Hd].
  eapply conserved_trans; [|apply shuffleDeck_conserves].
  apply conserved_tally. intros i x. specialize (Hsep x).
  destruct (currentPlayerIndex s), i; unfold tally; cbn in *;
    rewrite ?cnt_app; rewrite ?cnt_map_same_id by (intros; reflexivity); lia.
Qed.

End Shuffling.


Lemma tally_set_board (x : string) (b' : Board) (p : Player) :
  (forall c, cnt1 x (unit_of b' c) = cnt1 x (unit_of (board p) c)) ->
  tally x (set_board b' p) = tally x p.
Proof.
  intros H.
  pose proof (H R1). pose proof (H V). pose proof (H R2).
  pose proof (H R3). pose proof (H R4). pose proof (H R5).
  unfold tally. cbn in *. lia.
Qed.

Lemma unit_of_set_unit_map (x : string) (f : Card -> Card) (b : Board)
      (c c' : CircleName) :
  (forall u, uniqueId (f u) = uniqueId u) ->
  cnt1 x (unit_of (set_unit c (option_map f (unit_of b c)) b) c')
  = cnt1 x (unit_of b c').
Proof.
  intros H. destruct c, c'; cbn; try reflexivity; now apply cnt1_map_same_id.
Qed.

Lemma cnt1_add_bonusPower (x : string) (n : Z) (c c' : CircleName) (b : Board) :
  cnt1 x (unit_of (add_bonusPower n c b) c') = cnt1 x (unit_of b c').
Proof. unfold add_bonusPower. now apply unit_of_set_unit_map. Qed.

Lemma cnt1_add_bonusCritical (x : string) (n : Z) (c c' : CircleName) (b : Board) :
  cnt1 x (unit_of (add_bonusCritical n c b) c') = cnt1 x (unit_of b c').
Proof. unfold add_bonusCritical. now apply unit_of_set_unit_map. Qed.

Lemma cnt1_fold_units (x : string) (f : Card -> Card) (l : list CircleName)
      (b : Board) (c' : CircleName) :
  (forall u, uniqueId (f u) = uniqueId u) ->
  cnt1 x (unit_of (fold_left (fun b' c => set_unit c (option_map f (unit_of b' c)) b')
                             l b) c')
  = cnt1 x (unit_of b c').
Proof.
  intros H. revert b. induction l as [|c l IH]; intros b; [reflexivity|].
  simpl. rewrite IH. now apply unit_of_set_unit_map.
Qed.

Lemma cnt1_map_units (x : string) (f : Card -> Card) (b : Board) (c' : CircleName) :
  (forall u, uniqueId (f u) = uniqueId u) ->
  cnt1 x (unit_of (map_units f b) c') = cnt1 x (unit_of b c').
Proof. apply cnt1_fold_units. Qed.

(** Writing to the units of a board in place keeps every card where it is. *)
Lemma conserved_board (i : PlayerIndex) (g : Board -> Board) (s : Party) :
  (forall x b c, cnt1 x (unit_of (g b) c) = cnt1 x (unit_of b c)) ->
  conserved s (upd_player i (fun p => set_board (g (board p)) p) s).
Proof.
  intros H. apply conserved_tally. intros j x.
  destruct i, j; cbn; try reflexivity; apply tally_set_board; intros c; apply H.
Qed.

Lemma applyTriggerEffect_conserves (t : string) (i : PlayerIndex) (rl : Readline)
      (asked : nat) (s : Party) :
  conserved s (fst (fst (applyTriggerEffect t i rl asked s))).
Proof.
  unfold applyTriggerEffect.
  destruct (t =? "Front")%string.
  { cbn. apply (conserved_board i
                  (fun b => fold_left (fun b c => add_bonusPower 10000 c b) frontRow b)).
    intros x b c. apply (cnt1_fold_units x (fun u => set_bonusPower (bonusPower u + 10000) u)).
    reflexivity. }
  set (s1 := match chosen _ (rl asked) with Some _ => _ | None => s end).
  assert (H1 : conserved s s1).
  { unfold s1. destruct (chosen _ _) as [c|]; [|apply conserved_refl].
    apply (conserved_board i (add_bonusPower 10000 c)).
    intros. apply cnt1_add_bonusPower. }
  clearbody s1.
  destruct (t =? "Critical")%string.
  { cbn. eapply conserved_trans; [exact H1|].
    destruct (chosen _ _) as [c|]; [|apply conserved_refl].
    apply (conserved_board i (add_bonusCritical 1 c)).
    intros. apply cnt1_add_bonusCritical. }
  destruct (t =? "Draw")%string.
  { pose proof (draw_conserves i 1 s1) as Hd.
    destruct (draw i 1 s1) as [s2 r]. cbn in *.
    eapply conserved_trans; eauto. }
  destruct (t =? "Heal")%string; [|exact H1].
  destruct (_ && _); [|exact H1].
  pose proof (fun x => cnt_pop x (damageZone (players s1 i))) as Hp.
  destruct (pop _) as [[c|] rest]; cbn in *; [|exact H1].
  eapply conserved_trans; [exact H1|].
  apply conserved_tally. intros j x. specialize (Hp x).
  destruct i, j; tally_crunch.
Qed.

Lemma damageCheck1_conserves (i : PlayerIndex) (rl : Readline) (asked : nat)
      (s : Party) :
  conserved s (fst (fst (damageCheck1 i rl asked s))).
Proof.
  unfold damageCheck1.
  pose proof (fun x => cnt_pop x (deck (players s i))) as Hp.
  destruct (pop _) as [[c|] rest]; cbn in Hp; [|apply conserved_refl].
  set (s1 := upd_player i (set_deck rest) s).
  assert (Ht : forall j x, (tally x (players s1 j)
                            + match i, j with P0, P0 | P1, P1 => cnt x [c] | _, _ => O end
                            = tally x (players s j))%nat).
  { intros j x. specialize (Hp x). unfold s1. destruct i, j; tally_crunch. }
  clearbody s1.
  set (res := if has_trigger c then _ else _).
  assert (Hr : conserved s1 (fst (fst res))).
  { unfold res. destruct (has_trigger c); [|apply conserved_refl].
    apply applyTriggerEffect_conserves. }
  destruct res as [[s2 a2] r]. cbn in *.
  apply conserved_tally. intros j x.
  pose proof (proj1 (conserved_tally s1 s2) Hr j x) as H2.
  specialize (Ht j x). specialize (Hp x).
  destruct i, j; tally_crunch.
Qed.

Lemma damageCheck_loop_conserves (n : nat) (i : PlayerIndex) (rl : Readline)
      (asked : nat) (s : Party) :
  conserved s (fst (fst (damageCheck_loop n i rl asked s))).
Proof.
  revert asked s. induction n as [|n IH]; intros asked s; cbn;
    [apply conserved_refl|].
  pose proof (damageCheck1_conserves i rl asked s) as H1.
  destruct (damageCheck1 i rl asked s) as [[s1 a1] r1].
  specialize (IH a1 s1).
  destruct (damageCheck_loop n i rl a1 s1) as [[s2 a2] r2]. cbn in *.
  eapply conserved_trans; eauto.
Qed.

Lemma driveCheck1_conserves (i : PlayerIndex) (rl : Readline) (asked : nat)
      (s : Party) :
  conserved s (fst (fst (driveCheck1 i rl asked s))).
Proof.
  unfold driveCheck1.
  pose proof (fun x => cnt_pop x (deck (players s i))) as Hp.
  destruct (pop _) as [[c|] rest]; cbn in Hp; [|apply conserved_refl].
  set (s1 := upd_player i (set_deck rest) s).
  assert (Ht : forall j x, (tally x (players s1 j)
                            + match i, j with P0, P0 | P1, P1 => cnt x [c] | _, _ => O end
                            = tally x (players s j))%nat).
  { intros j x. specialize (Hp x). unfold s1. destruct i, j; tally_crunch. }
  clearbody s1.
  set (res := if has_trigger c then _ else _).
  assert (Hr : conserved s1 (fst (fst res))).
  { unfold res. destruct (has_trigger c); [|apply conserved_refl].
    apply applyTriggerEffect_conserves. }
  destruct res as [[s2 a2] r]. cbn in *.
  apply conserved_tally. intros j x.
  pose proof (proj1 (conserved_tally s1 s2) Hr j x) as H2.
  specialize (Ht j x). specialize (Hp x).
  destruct i, j; tally_crunch.
Qed.

Lemma driveCheck_loop_conserves (n : nat) (i : PlayerIndex) (rl : Readline)
      (asked : nat) (s : Party) :
  conserved s (fst (fst (driveCheck_loop n i rl asked s))).
Proof.
  revert asked s. induction n as [|n IH]; intros asked s; cbn;
    [apply conserved_refl|].
  pose proof (driveCheck1_conserves i rl asked s) as H1.
  destruct (driveCheck1 i rl asked s) as [[s1 a1] r1].
  specialize (IH a1 s1).
  destruct (driveCheck_loop n i rl a1 s1) as [[s2 a2] r2]. cbn in *.
  eapply conserved_trans; eauto.
Qed.

Lemma damageCheck_conserves (i : PlayerIndex) (amount : Z) (rl : Readline)
      (s : Party) :
  conserved s (fst (damageCheck i amount rl s)).
Proof.
  unfold damageCheck.
  pose proof (damageCheck_loop_conserves (Z.to_nat amount) i rl O s) as H.
  destruct (damageCheck_loop _ i rl O s) as [[s' a] r]. exact H.
Qed.

Lemma driveCheck_conserves (amount : Z) (rl : Readline) (s : Party) :
  conserved s (fst (driveCheck amount rl s)).
Proof.
  unfold driveCheck.
  pose proof (driveCheck_loop_conserves (Z.to_nat amount) (currentPlayerIndex s)
                                        rl O s) as H.
  destruct (driveCheck_loop _ _ rl O s) as [[s' a] r]. exact H.
Qed.

(** X2: damage checks and drive checks, with all their trigger effects,
    keep every card with its owner. *)
Theorem checks_conserve_cards (i : PlayerIndex) (amount : Z) (rl : Readline)
        (s : Party) :
  conserved s (fst (damageCheck i amount rl s))
  /\ conserved s (fst (driveCheck amount rl s)).
Proof. split; [apply damageCheck_conserves|apply driveCheck_conserves]. Qed.

Lemma endOfBattle_conserves (s : Party) : conserved s (endOfBattle s).
Proof.
  apply conserved_tally. intros i x. unfold endOfBattle.
  destruct (filter _ frontRow);
    destruct (currentPlayerIndex s), i; tally_crunch.
Qed.

(** X3: closing a battle whose target is a circle of the defender keeps
    every card with its owner, hit or not, with or without damage checks. *)
Theorem applyCloseStep_conserves (s s' : Party) (rl : option Readline)
        (b : Battle) (r : list Report) (hit : bool) :
  currentBattle s = Some b ->
  fst (targetCircle b) = other (currentPlayerIndex s) ->
  applyCloseStep s rl = (r, Normal (hit, s')) ->
  conserved s s'.
Proof.
  intros Hb Ht. unfold applyCloseStep, cloneDeep. rewrite Hb.
  destruct b as [[ai ac] [ti tc] pw]. cbn in Ht. subst ti. cbn [targetCircle attackerCircle attackerPower snd fst].
  destruct (unit_at s (other (currentPlayerIndex s), tc)) as [tu|] eqn:Eu;
    [|discriminate].
  destruct (pw >=? _); [|intros H; inversion H; apply endOfBattle_conserves].
  destruct (circle_name tc =? "V")%string.
  - destruct (unit_at s (ai, ac)) as [au|]; [|discriminate].
    destruct rl as [rl|].
    + pose proof (damageCheck_conserves (other (currentPlayerIndex s))
                                        (critical au + bonusCritical au) rl s) as Hd.
      destruct (damageCheck _ _ rl s) as [s1 r1]. cbn in Hd.
      intros H. inversion H; subst.
      eapply conserved_trans; [exact Hd|apply endOfBattle_conserves].
    + intros H. inversion H. apply endOfBattle_conserves.
  - intros H. inversion H; subst. clear H.
    eapply conserved_trans; [|apply endOfBattle_conserves].
    apply conserved_tally. intros i x. unfold unit_at, set_unit_at in *.
    destruct (currentPlayerIndex s), i, tc; cbn in Eu; tally_crunch;
      rewrite ?Eu, ?cnt1_Some, ?cnt1_None; lia.
Qed.
(** An update of one player that keeps the tallies keeps the cards. *)
Lemma conserved_upd (i : PlayerIndex) (f : Player -> Player) (s : Party) :
  (forall x p, tally x (f p) = tally x p) -> conserved s (upd_player i f s).
Proof.
  intros H. apply conserved_tally. intros j x.
  destruct i, j; cbn; try reflexivity; apply H.
Qed.

(** The four procedures of the repository's registry move cards within
    the zones of their owner. *)
Lemma effects_conserving : conservingLibrary effects.
Proof.
  intros idx f payload s Hf. unfold effects, at_index in Hf.
  destruct (idx <? 0); [discriminate|].
  destruct (Z.to_nat idx) as [|[|[|[|n]]]]; cbn in Hf; inversion Hf; subst; clear Hf.
  - unfold onRideIfSecondDraw. destruct (target payload) as [[a b]|];
      [|apply conserved_refl].
    pose proof (draw_conserves (currentPlayerIndex s) 1 s) as Hd.
    destruct (draw _ 1 s). exact Hd.
  - unfold onRideEnergyCrest. cbn [fst].
    set (party1 := match findIndex _ _ with Some _ => _ | None => s end).
    assert (H1 : conserved s party1).
    { unfold party1. destruct (findIndex _ _) as [k|]; [|apply conserved_refl].
      pose proof (fun x => cnt_splice1 x (rideDeck (players s (currentPlayerIndex s))) k)
        as Hs.
      destruct (splice1 k _) as [[c|] rest]; cbn in Hs; [|apply conserved_refl].
      apply conserved_tally. intros i x. specialize (Hs x).
      destruct (currentPlayerIndex s), i; tally_crunch. }
    clearbody party1. eapply conserved_trans; [exact H1|].
    destruct (currentPlayerIndex s); [apply conserved_refl|].
    apply conserved_upd. reflexivity.
  - unfold onRidePhaseStartEnergyCrest. cbn [fst].
    apply conserved_upd. reflexivity.
  - unfold onActEnergyCrest.
    match goal with
    | |- context [draw ?i ?n ?st] =>
        pose proof (draw_conserves i n st) as Hd; destruct (draw i n st) as [s3 r3]
    end.
    cbn in *. eapply conserved_trans; [|exact Hd].
    apply conserved_upd. reflexivity.
  - destruct n; discriminate.
Qed.

Section ConservingAppliers.

Variable coerce_ge coerce_le : JsVal -> JsVal -> Completion bool.
Variable effectLibrary : Z -> option EffectFn.
Variable randomIndex : Z -> Z.
Hypothesis library_conserves : conservingLibrary effectLibrary.

Lemma applyAct_conserves (s s' : Party) (e : EffectDef) (r : list Report) :
  applyAct effectLibrary s e = (r, Normal (NewObject s')) -> conserved s s'.
Proof.
  unfold applyAct, cloneDeep.
  destruct (match cost_energy e with Some _ => _ | None => _ end); [discriminate|].
  set (s1 := if once_per_turn e then _ else s).
  assert (H1 : conserved s s1).
  { unfold s1. destruct (once_per_turn e); [|apply conserved_refl].
    apply conserved_upd. reflexivity. }
  destruct (effectLibrary (function_index e)) as [f|] eqn:Ef.
  - pose proof (library_conserves emptyPayload s1 Ef) as H2.
    destruct (f emptyPayload s1) as [s2 done]. simpl in H2.
    intros H. apply bind_Normal in H. destruct H as (? & ? & ? & _ & H & _).
    inversion H; subst. eapply conserved_trans; eauto.
  - intros H. inversion H; subst. exact H1.
Qed.

Lemma set_head_pending_players (l : list PendingEffect) (s : Party) (i : PlayerIndex) :
  players (set_head_pending l s) i = players s i.
Proof. unfold set_head_pending. destruct (eventQueue s), i; reflexivity. Qed.

Lemma applyActivateEffect_conserves (s s' : Party) (e : PendingEffect)
      (r : list Report) :
  applyActivateEffect effectLibrary s e = (r, Normal (NewObject s')) ->
  conserved s s'.
Proof.
  unfold applyActivateEffect, cloneDeep. intros H.
  apply bind_Normal in H. destruct H as (r1 & found & r2 & _ & H & _).
  destruct found as [orig|]; [|discriminate].
  apply bind_Normal in H. destruct H as (r3 & s1 & r4 & H1 & H & _).
  assert (Hc : conserved s s1).
  { destruct (effectLibrary _) as [f|] eqn:Ef.
    - pose proof (library_conserves (eventPayload orig) s Ef) as H2.
      destruct (f (eventPayload orig) s) as [s2 done]. simpl in H2.
      apply bind_Normal in H1. destruct H1 as (? & ? & ? & _ & H1 & _).
      inversion H1; subst. exact H2.
    - inversion H1; subst. apply conserved_refl. }
  eapply conserved_trans; [exact Hc|].
  destruct (eventQueue s1) as [|ev q] eqn:Eq; [inversion H; apply conserved_refl|].
  destruct (pendingEffects ev) as [pending|]; [|inversion H; apply conserved_refl].
  destruct (findIndex _ pending); inversion H; subst; [|apply conserved_refl].
  apply conserved_same_players. intros i. apply set_head_pending_players.
Qed.

Lemma applyPassEffect_players (s s' : Party) (r : list Report) :
  applyPassEffect s = (r, Normal (NewObject s')) ->
  forall i, players s' i = players s i.
Proof.
  unfold applyPassEffect, cloneDeep.
  destruct (eventQueue s) as [|ev q] eqn:Eq; [intros H; inversion H; reflexivity|].
  destruct (pendingEffects ev); intros H; inversion H; subst; [|reflexivity].
  intros i. apply set_head_pending_players.
Qed.

(** The loop body of processEvents writes to the event queue and to the
    phase only. *)
Lemma loopBody_players (party : Party) (i : PlayerIndex) :
  players (point_party (snd (loopBody coerce_ge coerce_le effectLibrary party))) i
  = players party i.
Proof.
  unfold loopBody. destruct (eventQueue party) as [|ev q] eqn:Eq; [reflexivity|].
  destruct (match pendingEffects ev with Some _ => _ | None => _ end)
    as [r [pending|]]; [|reflexivity].
  destruct (filter (fun p => mandatory (effect p)) pending).
  - destruct (filter (fun p => negb (mandatory (effect p))) pending); simpl;
      [|rewrite <- (set_head_pending_players pending party i)];
      unfold set_head_pending; rewrite Eq; destruct i; reflexivity.
  - simpl. now rewrite !set_head_pending_players.
Qed.


Lemma loopBody_invokes_library (party p : Party) (f : EffectFn) (payload : Payload)
      (r : list Report) :
  loopBody coerce_ge coerce_le effectLibrary party = (r, Invoke (Some f) payload p) ->
  exists idx, effectLibrary idx = Some f.
Proof.
  unfold loopBody. destruct (eventQueue party) as [|ev q]; [discriminate|].
  destruct (match pendingEffects ev with Some _ => _ | None => _ end)
    as [r0 [pending|]]; [|discriminate].
  destruct (filter (fun p => mandatory (effect p)) pending) as [|e l].
  - destruct (filter (fun p => negb (mandatory (effect p))) pending); discriminate.
  - intros H. inversion H. eauto.
Qed.

Lemma processEvents_conserves (fuel : nat) :
  forall (party p' : Party) (res : Eval unit),
    processEvents coerce_ge coerce_le effectLibrary fuel party = Some (p', res) ->
    conserved party p'.
Proof.
  induction fuel as [|fuel IH]; intros party p' res H; [discriminate|].
  cbn [processEvents] in H.
  pose proof (fun i => loopBody_players party i) as Hp.
  pose proof (@loopBody_invokes_library party) as Hl.
  destruct (loopBody coerce_ge coerce_le effectLibrary party) as [r pt].
  cbn in Hp.
  assert (Hc : conserved party (point_party pt))
    by (apply conserved_same_players; exact Hp).
  destruct pt as [f payload p|p|p|p|p]; cbn in Hc.
  - destruct f as [f|]; [|inversion H; subst; exact Hc].
    destruct (Hl p f payload r eq_refl) as [idx Hidx].
    pose proof (library_conserves payload p Hidx) as Hf.
    destruct (f payload p) as [p1 [r1 [u|]]]; cbn in Hf.
    + destruct (processEvents _ _ _ fuel p1) as [[p2 [r2 c]]|] eqn:E;
        [|discriminate].
      inversion H; subst. apply IH in E.
      eapply conserved_trans; [exact Hc|]. eapply conserved_trans; eauto.
    + inversion H; subst. eapply conserved_trans; eauto.
  - inversion H; subst. exact Hc.
  - destruct (processEvents _ _ _ fuel p) as [[p2 [r2 c]]|] eqn:E; [|discriminate].
    inversion H; subst. apply IH in E. eapply conserved_trans; eauto.
  - inversion H; subst. exact Hc.
  - inversion H; subst. eapply conserved_trans; [exact Hc|].
    apply conserved_same_players. intros []; reflexivity.
Qed.

Lemma conserved_set_nextPhase (x : option string) (s : Party) :
  conserved s (set_nextPhase x s).
Proof. apply conserved_same_players. intros []; reflexivity. Qed.

Lemma thenProcess_conserves (fuel : nat) (s : Party) (ph : option string)
      (r : Eval Returned) (o : Outcome) :
  (forall s1, snd r = Normal (NewObject s1) -> conserved s s1) ->
  thenProcess coerce_ge coerce_le effectLibrary fuel s ph r = Some o ->
  conserved s (input_after o)
  /\ forall s', returned o = Normal (NewObject s') -> conserved s s'.
Proof.
  intros Hr. unfold thenProcess.
  assert (Hprep : forall s0, conserved s0 (match ph with
                                           | Some p => set_nextPhase (Some p) s0
                                           | None => s0
                                           end)).
  { intros s0. destruct ph; [apply conserved_set_nextPhase|apply conserved_refl]. }
  destruct r as [rep [[|s1]|]]; cbv zeta.
  - specialize (Hprep s).
    destruct (processEvents _ _ _ fuel _) as [[s2 [rep2 [u|]]]|] eqn:E;
      [| |discriminate]; intros H; inversion H; subst; cbn;
      apply processEvents_conserves in E;
      (split; [eapply conserved_trans; [apply Hprep|exact E]|discriminate]).
  - specialize (Hr s1 eq_refl). specialize (Hprep s1).
    destruct (processEvents _ _ _ fuel _) as [[s2 [rep2 [u|]]]|] eqn:E;
      [| |discriminate]; intros H; inversion H; subst; cbn;
      apply processEvents_conserves in E;
      (split; [apply conserved_refl|]); [|discriminate].
    intros s' Hs'. inversion Hs'; subst.
    eapply conserved_trans; [exact Hr|].
    eapply conserved_trans; [apply Hprep|exact E].
  - intros H. inversion H; subst. cbn.
    split; [apply conserved_refl|discriminate].
Qed.

Lemma direct_conserves (s : Party) (r : Eval Returned) (o : Outcome) :
  (forall s1, snd r = Normal (NewObject s1) -> conserved s s1) ->
  direct s r = Some o ->
  conserved s (input_after o)
  /\ forall s', returned o = Normal (NewObject s') -> conserved s s'.
Proof.
  intros Hr H. unfold direct in H. inversion H; subst. cbn.
  split; [apply conserved_refl|exact Hr].
Qed.

(** X1: whatever the action, applyAction keeps every card with its owner:
    in the state it returns, and in the caller's object after the call. *)
Theorem applyAction_conserves_cards (fuel : nat) (s : Party) (a : Action)
        (o : Outcome) :
  applyAction coerce_ge coerce_le effectLibrary randomIndex fuel s a = Some o ->
  conserved s (input_after o)
  /\ forall s', returned o = Normal (NewObject s') -> conserved s s'.
Proof.
  destruct a; cbn [applyAction]; intros H;
    (eapply thenProcess_conserves in H || eapply direct_conserves in H);
    try exact H; intros s1 Hs1.
  all: try (cbn in Hs1; inversion Hs1; subst; apply conserved_refl).
  all: match type of Hs1 with
       | snd ?r = _ => destruct r as [rr cc] eqn:Er; cbn in Hs1; subst cc
       end.
  - eapply applyMulligan_conserves; eauto.
  - eapply applyRide_conserves; eauto.
  - eapply applyCall_conserves; eauto.
  - eapply applyAct_conserves; eauto.
  - eapply applyActivateEffect_conserves; eauto.
  - eapply applyMove_conserves; eauto.
  - eapply applyAttack_conserves; eauto.
  - eapply applyGuard_conserves; eauto.
  - eapply applyIntercept_conserves; eauto.
  - apply conserved_same_players. eapply applyPassEffect_players; eauto.
  - destruct (_ =? _)%string; cbn in Er; inversion Er; subst; apply conserved_refl.
Qed.

End ConservingAppliers.

(** X1 at [riddenEx]: passing the ride phase runs the waiting ON_RIDE
    event, whose crest effect moves the Energy Generator from the ride deck
    to the crest zone. *)
Lemma applyAction_conserves_cards_witness :
  exists o s',
    applyAction compareAsNaN compareAsNaN effects (fun _ => 0) 3 riddenEx
                PASS_RIDE_PHASE = Some o
    /\ returned o = Normal (NewObject s')
    /\ crestZone (players s' P0) = [energyGenerator]
    /\ conserved riddenEx s'.
Proof.
  pose (o := match applyAction compareAsNaN compareAsNaN effects (fun _ => 0) 3
                               riddenEx PASS_RIDE_PHASE with
             | Some o => o
             | None => mkOutcome riddenEx [] Throws
             end).
  pose (s' := match returned o with
              | Normal (NewObject s') => s'
              | _ => riddenEx
              end).
  assert (E : applyAction compareAsNaN compareAsNaN effects (fun _ => 0) 3 riddenEx
                          PASS_RIDE_PHASE = Some o) by (vm_compute; reflexivity).
  assert (Er : returned o = Normal (NewObject s')) by (vm_compute; reflexivity).
  exists o, s'. split; [exact E|]. split; [exact Er|]. split; [vm_compute; reflexivity|].
  exact (proj2 (applyAction_conserves_cards compareAsNaN compareAsNaN
                  (fun _ => 0) effects_conserving 3 riddenEx PASS_RIDE_PHASE E)
               s' Er).
Defined.

(** X3 at [closeEx], with a readline interface: the damage check moves
    the top card of the defender's deck to the damage zone. *)
Lemma applyCloseStep_conserves_witness :
  exists r s', applyCloseStep closeEx (Some noAnswer) = (r, Normal (true, s'))
               /\ conserved closeEx s'.
Proof.
  pose (res := applyCloseStep closeEx (Some noAnswer)).
  pose (s' := match snd res with Normal (_, s') => s' | Throws => closeEx end).
  assert (E : applyCloseStep closeEx (Some noAnswer) = (fst res, Normal (true, s')))
    by (vm_compute; reflexivity).
  exists (fst res), s'. split; [exact E|].
  exact (applyCloseStep_conserves closeEx (Some noAnswer)
           (b := mkBattle (P0, V) (P1, V) 8000) eq_refl eq_refl E).
Defined.

(* ------------------------------------------------------------------ *)
(** ** The generators and the appliers agree                           *)
(* ------------------------------------------------------------------ *)

Lemma in_frontRow (c : CircleName) :
  In c frontRow -> c = R1 \/ c = V \/ c = R2.
Proof. cbn. intuition. Qed.

Lemma ready_with_unit (skill : string) (o : option Card) :
  ready_with skill o = true ->
  exists u, o = Some u /\ isResting u = false /\ includes skill (skills u) = true.
Proof.
  destruct o as [u|]; [|discriminate]. cbn. intros H.
  apply andb_true_iff in H. destruct H as [H1 H2].
  exists u. split; [reflexivity|]. split; [|exact H2].
  now destruct (isResting u).
Qed.

Lemma standing_unit (o : option Card) :
  standing o = true -> exists u, o = Some u /\ isResting u = false.
Proof.
  destruct o as [u|]; [|discriminate]. cbn. intros H.
  exists u. split; [reflexivity|]. now destruct (isResting u).
Qed.

Lemma is_some_unit {A : Type} (o : option A) :
  is_some o = true -> exists u, o = Some u.
Proof. destruct o as [u|]; [eauto|discriminate]. Qed.

(** The shape of the attacks of getBattlePhaseActions. *)
Lemma generated_attack_shape (s : Party) (a t : string) (boost : bool) :
  In (ATTACK a t boost) (getBattlePhaseActions s) ->
  exists ac tc,
    a = circle_name ac /\ t = circle_name tc
    /\ In ac frontRow /\ In tc frontRow
    /\ standing (unit_of (board (players s (currentPlayerIndex s))) ac) = true
    /\ is_some (unit_of (board (players s (other (currentPlayerIndex s)))) tc) = true
    /\ (boost = true ->
        exists bc, backRowCircleName ac = Some bc
                   /\ ready_with "Boost"
                        (unit_of (board (players s (currentPlayerIndex s))) bc) = true).
Proof.
  unfold getBattlePhaseActions. intros H. apply in_app_or in H.
  destruct H as [H|[H|[]]]; [|discriminate].
  set (targets := filter _ frontRow) in H.
  assert (Hin : exists ac, In ac (filter (fun c => standing
                  (unit_of (board (players s (currentPlayerIndex s))) c)) frontRow)
                /\ In (ATTACK a t boost)
                      (if match backRowCircleName ac with
                          | Some back => ready_with "Boost"
                               (unit_of (board (players s (currentPlayerIndex s))) back)
                          | None => false
                          end
                       then map (fun tc => ATTACK (circle_name ac) (circle_name tc) true)
                                targets
                            ++ map (fun tc => ATTACK (circle_name ac) (circle_name tc) false)
                                   targets
                       else map (fun tc => ATTACK (circle_name ac) (circle_name tc) false)
                                targets)).
  { destruct targets; [destruct H|]. apply in_flat_map in H. exact H. }
  clear H. destruct Hin as (ac & Hac & H).
  apply filter_In in Hac. destruct Hac as [Hfront Hstand].
  assert (Hshape : forall b, In (ATTACK a t boost)
                     (map (fun tc => ATTACK (circle_name ac) (circle_name tc) b) targets) ->
                   boost = b /\ exists tc, a = circle_name ac /\ t = circle_name tc
                                           /\ In tc targets).
  { intros b Hb. apply in_map_iff in Hb. destruct Hb as (tc & Heq & Htc).
    inversion Heq; subst. split; [reflexivity|]. exists tc. auto. }
  assert (Hcase : (exists tc, a = circle_name ac /\ t = circle_name tc /\ In tc targets)
                  /\ (boost = true ->
                      match backRowCircleName ac with
                      | Some back => ready_with "Boost"
                           (unit_of (board (players s (currentPlayerIndex s))) back)
                      | None => false
                      end = true)).
  { destruct (match backRowCircleName ac with Some _ => _ | None => false end).
    - apply in_app_or in H. destruct H as [H|H]; apply Hshape in H;
        destruct H as [Hb Htc]; split; auto.
    - apply Hshape in H. destruct H as [Hb Htc]. split; [exact Htc|].
      intros Hboost. congruence. }
  destruct Hcase as [(tc & Ha & Ht & Htc) Hboost].
  apply filter_In in Htc. destruct Htc as [Htfront Htunit].
  exists ac, tc. repeat split; auto.
  intros Hb. specialize (Hboost Hb).
  destruct (backRowCircleName ac) as [bc|]; [|discriminate]. eauto.
Qed.

(** X4: every ATTACK that getBattlePhaseActions offers is accepted by
    applyAttack on the same state: no report, the phase becomes "guard", the
    attacker rests, and the battle records the two circles and the power of
    the attacker, to which a boosted attack adds the power of the standing
    booster behind it, which rests too. *)
Theorem generated_attack_is_applied (s : Party) (a t : string) (boost : bool) :
  In (ATTACK a t boost) (getBattlePhaseActions s) ->
  let cur := currentPlayerIndex s in
  exists ac tc au tu s' pw,
    a = circle_name ac /\ t = circle_name tc
    /\ unit_at s (cur, ac) = Some au /\ isResting au = false
    /\ unit_at s (other cur, tc) = Some tu
    /\ applyAttack s a t boost = ([], Normal (NewObject s'))
    /\ phase s' = "guard"
    /\ currentBattle s' = Some (mkBattle (cur, ac) (other cur, tc) pw)
    /\ unit_at s' (cur, ac) = Some (set_isResting true au)
    /\ (boost = false -> pw = num (power au) + bonusPower au)
    /\ (boost = true ->
        exists bc bu,
          backRowCircleName ac = Some bc
          /\ unit_at s (cur, bc) = Some bu /\ isResting bu = false
          /\ unit_at s' (cur, bc) = Some (set_isResting true bu)
          /\ pw = num (power au) + bonusPower au
                  + (num (power bu) + bonusPower bu)).
Proof.
  intros H cur. apply generated_attack_shape in H.
  destruct H as (ac & tc & -> & -> & Hac & Htc & Hstand & Hsome & Hboost).
  apply standing_unit in Hstand. destruct Hstand as (au & Eau & Hau).
  apply is_some_unit in Hsome. destruct Hsome as (tu & Etu).
  unfold applyAttack, cloneDeep. rewrite !getCircle_circle_name.
  fold cur in Eau, Etu, Hboost. fold cur. rewrite Eau, Etu.
  destruct boost.
  - destruct (Hboost eq_refl) as (bc & Ebc & Hready).
    apply ready_with_unit in Hready. destruct Hready as (bu & Ebu & Hbu & _).
    rewrite Ebc.
    assert (Hb1 : unit_of (rest_unit ac (board (players s cur))) bc = Some bu).
    { apply in_frontRow in Hac.
      destruct Hac as [->|[->| ->]]; inversion Ebc; subst; exact Ebu. }
    rewrite Hb1.
    eexists ac, tc, au, tu, _, _. repeat split; eauto; try discriminate.
    + unfold unit_at. apply in_frontRow in Hac.
      destruct cur, Hac as [->|[->| ->]]; inversion Ebc; subst; cbn in *;
        rewrite Eau; reflexivity.
    + intros _. exists bc, bu. repeat split; auto.
      unfold unit_at. apply in_frontRow in Hac.
      destruct cur, Hac as [->|[->| ->]]; inversion Ebc; subst; cbn in *;
        rewrite Ebu; reflexivity.
  - eexists ac, tc, au, tu, _, _. repeat split; eauto; try discriminate.
    unfold unit_at. destruct cur, ac; cbn in *; rewrite Eau; reflexivity.
Qed.

(** X4 at [battleEx]: the boosted attack of the vanguard on the vanguard. *)
Lemma generated_attack_is_applied_witness :
  exists s', applyAttack battleEx "V" "V" true = ([], Normal (NewObject s'))
             /\ currentBattle s' = Some (mkBattle (P0, V) (P1, V) 15000).
Proof.
  assert (Hin : In (ATTACK "V" "V" true) (getBattlePhaseActions battleEx))
    by (vm_compute; tauto).
  destruct (generated_attack_is_applied battleEx "V" "V" true Hin)
    as (ac & tc & au & tu & s' & pw & Ha & Ht & Eau & _ & _ & Happ & _ & Hb & _
        & _ & Hpw).
  exists s'. split; [exact Happ|].
  assert (ac = V) by (destruct ac; (reflexivity || discriminate Ha)).
  assert (tc = V) by (destruct tc; (reflexivity || discriminate Ht)).
  subst ac tc.
  destruct (Hpw eq_refl) as (bc & bu & Ebc & Ebu & _ & _ & ->).
  inversion Ebc; subst bc. vm_compute in Eau, Ebu. inversion Eau; inversion Ebu.
  subst au bu. exact Hb.
Defined.

Lemma findIndex_Some {A : Type} (p : A -> bool) (l : list A) (k : nat) :
  findIndex p l = Some k ->
  exists before x after,
    l = before ++ x :: after /\ List.length before = k /\ p x = true
    /\ forall y, In y before -> p y = false.
Proof.
  revert k. induction l as [|a l IH]; intros k H; [discriminate|].
  cbn in H. destruct (p a) eqn:Ea.
  - inversion H; subst. exists [], a, l. repeat split; auto. intros y [].
  - destruct (findIndex p l) as [j|]; [|discriminate]. inversion H; subst.
    destruct (IH j eq_refl) as (before & x & after & -> & Hlen & Hx & Hb).
    exists (a :: before), x, after. cbn. repeat split; auto.
    intros y [<-|Hy]; auto.
Qed.

Lemma findIndex_exists {A : Type} (p : A -> bool) (l : list A) (x : A) :
  In x l -> p x = true -> exists k, findIndex p l = Some k.
Proof.
  induction l as [|a l IH]; intros Hin Hp; [destruct Hin|].
  cbn. destruct (p a) eqn:Ea; [eauto|].
  destruct Hin as [->|Hin]; [congruence|].
  destruct (IH Hin Hp) as [k ->]. eauto.
Qed.

Lemma totalShield_snoc (l : list Card) (c : Card) :
  totalShield (l ++ [c]) = totalShield l + num (shield c).
Proof. unfold totalShield. now rewrite fold_left_app. Qed.

(** X5: every GUARD that getGuardActions offers is accepted by applyGuard
    on the same state, without report: the first card of the defender's
    hand with that instance id leaves the hand for the end of the guardian
    zone, and the total shield grows by that card's shield. *)
Theorem generated_guard_is_applied (s : Party) (iid : string) (sh : option Z) :
  In (GUARD iid sh) (getGuardActions s) ->
  let def := other (currentPlayerIndex s) in
  exists before c after s',
    hand (players s def) = before ++ c :: after
    /\ uniqueId c = iid
    /\ (forall y, In y before -> uniqueId y <> iid)
    /\ applyGuard s iid = ([], Normal (NewObject s'))
    /\ hand (players s' def) = before ++ after
    /\ guardianZone (players s' def) = guardianZone (players s def) ++ [c]
    /\ totalShield (guardianZone (players s' def))
       = totalShield (guardianZone (players s def)) + num (shield c)
    /\ players s' (currentPlayerIndex s) = players s (currentPlayerIndex s).
Proof.
  intros H def. unfold getGuardActions in H. fold def in H.
  apply in_app_or in H. destruct H as [H|H].
  2:{ apply in_app_or in H. destruct H as [H|[H|[]]]; [|discriminate].
      apply in_flat_map in H. destruct H as (c & _ & H).
      destruct (unit_of _ c); [destruct H as [H|[]]; discriminate|destruct H]. }
  apply in_flat_map in H. destruct H as (card & Hin & H).
  destruct (shield card) eqn:Esh; [|destruct H].
  destruct H as [H|[]]. inversion H; subst. clear H.
  destruct (@findIndex_exists _ (fun c => (uniqueId c =? uniqueId card)%string)
              (hand (players s def)) card Hin (String.eqb_refl _)) as [k Hk].
  destruct (findIndex_Some _ _ Hk) as (before & c & after & Hhand & Hlen & Hc & Hb).
  apply String.eqb_eq in Hc.
  unfold applyGuard, cloneDeep. fold def. rewrite Hk, Hhand, <- Hlen, splice1_middle.
  eexists before, c, after, _. repeat split; eauto.
  - intros y Hy Heq. apply Hb in Hy. apply String.eqb_neq in Hy. contradiction.
  - rewrite players_upd_same. reflexivity.
  - rewrite players_upd_same. reflexivity.
  - rewrite players_upd_same. cbn. apply totalShield_snoc.
  - unfold def. destruct (currentPlayerIndex s); reflexivity.
Qed.

(** X5 at [guardEx]: the shield card of the defender's hand. *)
Lemma generated_guard_is_applied_witness :
  exists s', applyGuard guardEx "h-a" = ([], Normal (NewObject s'))
             /\ totalShield (guardianZone (players s' P1)) = 5000.
Proof.
  assert (Hin : In (GUARD "h-a" (Some 5000)) (getGuardActions guardEx))
    by (vm_compute; tauto).
  destruct (generated_guard_is_applied guardEx "h-a" (Some 5000) Hin)
    as (before & c & after & s' & Hhand & Hc & Hb & Happ & _ & _ & Hts & _).
  exists s'. split; [exact Happ|]. etransitivity; [exact Hts|].
  destruct before as [|y before].
  - inversion Hhand; subst c. reflexivity.
  - inversion Hhand; subst y. exfalso. apply (Hb handA); [now left|reflexivity].
Defined.

(** X6: every INTERCEPT that getGuardActions offers is accepted by
    applyIntercept on the same state, without report: the circle is
    emptied and its unit joins the end of the guardian zone, resting. *)
Theorem generated_intercept_is_applied (s : Party) (iid from : string)
        (sh : option Z) :
  In (INTERCEPT iid sh from) (getGuardActions s) ->
  let def := other (currentPlayerIndex s) in
  exists c u s',
    from = circle_name c /\ In c frontRow
    /\ unit_at s (def, c) = Some u /\ uniqueId u = iid /\ isResting u = false
    /\ includes "Intercept" (skills u) = true
    /\ applyIntercept s iid from = ([], Normal (NewObject s'))
    /\ unit_at s' (def, c) = None
    /\ (forall c', c' <> c -> unit_at s' (def, c') = unit_at s (def, c'))
    /\ guardianZone (players s' def)
       = guardianZone (players s def) ++ [set_isResting true u]
    /\ hand (players s' def) = hand (players s def).
Proof.
  intros H def. unfold getGuardActions in H. fold def in H.
  apply in_app_or in H. destruct H as [H|H].
  { apply in_flat_map in H. destruct H as (card & _ & H).
    destruct (shield card); [destruct H as [H|[]]; discriminate|destruct H]. }
  apply in_app_or in H. destruct H as [H|[H|[]]]; [|discriminate].
  apply in_flat_map in H. destruct H as (c & Hc & H).
  apply filter_In in Hc. destruct Hc as [Hfront Hready].
  apply ready_with_unit in Hready. destruct Hready as (u & Eu & Hrest & Hskill).
  rewrite Eu in H. destruct H as [H|[]]. inversion H; subst. clear H.
  unfold applyIntercept, cloneDeep. fold def.
  rewrite getCircle_circle_name, Eu, String.eqb_refl.
  eexists c, u, _. repeat split; eauto.
  - unfold unit_at. cbn [fst snd]. rewrite players_upd_same. cbn.
    apply unit_of_set_unit.
  - intros c' Hc'. unfold unit_at. cbn [fst snd]. rewrite players_upd_same.
    destruct c, c'; try reflexivity; contradiction.
  - rewrite players_upd_same. reflexivity.
  - rewrite players_upd_same. reflexivity.
Qed.

(** X6 at [guardEx]: the interceptor on R1. *)
Lemma generated_intercept_is_applied_witness :
  exists s', applyIntercept guardEx "r-1" "R1" = ([], Normal (NewObject s'))
             /\ unit_at s' (P1, R1) = None.
Proof.
  assert (Hin : In (INTERCEPT "r-1" (Some 5000) "R1") (getGuardActions guardEx))
    by (vm_compute; tauto).
  destruct (generated_intercept_is_applied guardEx "r-1" "R1" (Some 5000) Hin)
    as (c & u & s' & Hfrom & _ & _ & _ & _ & _ & Happ & Hnone & _).
  exists s'. split; [exact Happ|].
  assert (c = R1) by (destruct c; (reflexivity || discriminate Hfrom)).
  subst c. exact Hnone.
Defined.

Lemma applyMove_swaps (s : Party) (c1 c2 : CircleName) :
  let cur := currentPlayerIndex s in
  exists s',
    applyMove s (circle_name c1) (circle_name c2) = ([], Normal (NewObject s'))
    /\ unit_at s' (cur, c1) = unit_at s (cur, c2)
    /\ (c1 <> c2 -> unit_at s' (cur, c2) = unit_at s (cur, c1))
    /\ currentPlayerIndex s' = cur
    /\ applyMove s' (circle_name c1) (circle_name c2) = ([], Normal (NewObject s)).
Proof.
  intros cur. unfold applyMove, cloneDeep. rewrite !getCircle_circle_name.
  eexists. split; [reflexivity|]. fold cur.
  split; [|split; [|split]].
  - unfold unit_at. destruct cur, c1, c2; reflexivity.
  - intros Hne. unfold unit_at. destruct cur, c1, c2; try reflexivity; contradiction.
  - unfold cur. apply currentPlayerIndex_upd.
  - unfold cur.
    destruct s as [[? ? [? ? ? ? ? ?] ? ? ? ? ? ? ? ? ? ? ? ? ? ?]
                   [? ? [? ? ? ? ? ?] ? ? ? ? ? ? ? ? ? ? ? ? ? ?] ? [|] ? ? ? ?];
      destruct c1, c2; reflexivity.
Qed.

(** X7: every MOVE that getMoveActions offers to the player to move is
    accepted by applyMove on the same state, without report: it names the
    two circles of one column, the first of which holds a unit; the units
    of the two circles change places, and applying the same MOVE to the
    result gives the first state back. *)
Theorem generated_move_is_applied (s : Party) (from to : string) :
  let cur := currentPlayerIndex s in
  In (MOVE from to) (getMoveActions s (players s cur)) ->
  exists c1 c2 s',
    from = circle_name c1 /\ to = circle_name c2
    /\ (backRowCircleName c1 = Some c2 \/ backRowCircleName c2 = Some c1)
    /\ unit_at s (cur, c1) <> None
    /\ applyMove s from to = ([], Normal (NewObject s'))
    /\ unit_at s' (cur, c1) = unit_at s (cur, c2)
    /\ unit_at s' (cur, c2) = unit_at s (cur, c1)
    /\ applyMove s' from to = ([], Normal (NewObject s)).
Proof.
  intros cur H. unfold getMoveActions in H.
  apply in_flat_map in H. destruct H as ([fc bc] & Hcol & H).
  assert (Hpair : backRowCircleName fc = Some bc /\ fc <> bc).
  { destruct Hcol as [Hc|[Hc|[]]]; inversion Hc; subst; split;
      (reflexivity || discriminate). }
  destruct Hpair as [Hback Hne].
  destruct (is_some (unit_of (board (players s cur)) fc)) eqn:Ef.
  - cbn in H. destruct H as [H|[]]. inversion H; subst. clear H.
    destruct (applyMove_swaps s fc bc) as (s' & Happ & H1 & H2 & _ & Hinv).
    exists fc, bc, s'. repeat split; auto.
    unfold unit_at. cbn [fst snd]. fold cur.
    destruct (unit_of _ fc); [discriminate|discriminate Ef].
  - destruct (is_some (unit_of (board (players s cur)) bc)) eqn:Eb;
      cbn in H; [|destruct H].
    destruct H as [H|[]]. inversion H; subst. clear H.
    destruct (applyMove_swaps s bc fc) as (s' & Happ & H1 & H2 & _ & Hinv).
    exists bc, fc, s'. repeat split; auto.
    unfold unit_at. cbn [fst snd]. fold cur.
    destruct (unit_of _ bc); [discriminate|discriminate Eb].
Qed.

(** X7 at [battleEx]: the rear-guard on R1 moves back to R3. *)
Lemma generated_move_is_applied_witness :
  exists s', applyMove battleEx "R1" "R3" = ([], Normal (NewObject s'))
             /\ applyMove s' "R1" "R3" = ([], Normal (NewObject battleEx)).
Proof.
  assert (Hin : In (MOVE "R1" "R3") (getMoveActions battleEx (players battleEx P0)))
    by (vm_compute; tauto).
  destruct (generated_move_is_applied battleEx "R1" "R3" Hin)
    as (c1 & c2 & s' & _ & _ & _ & _ & Happ & _ & _ & Hinv).
  exists s'. split; [exact Happ|exact Hinv].
Defined.

Lemma handRides_In (cvg : option Z) (l : list Card) (seen : list string)
      (cid source : string) (discard : option string) :
  In (RIDE cid source discard) (handRides cvg l seen) ->
  source = "hand" /\ discard = None /\ exists c, In c l /\ id c = cid.
Proof.
  revert seen. induction l as [|card l IH]; intros seen H; [destruct H|].
  cbn in H.
  assert (Hrec : forall seen', In (RIDE cid source discard) (handRides cvg l seen') ->
                 source = "hand" /\ discard = None /\ exists c, In c (card :: l) /\ id c = cid).
  { intros seen' H'. destruct (IH seen' H') as (H1 & H2 & c & Hc & Hid).
    repeat split; auto. exists c. split; [now right|exact Hid]. }
  destruct (_ || _); [|eauto].
  destruct (includes (id card) seen); [eauto|].
  destruct H as [H|H]; [|eauto].
  inversion H; subst. repeat split; auto. exists card. split; [now left|reflexivity].
Qed.

Lemma last_named_In (n : string) (l : list Card) (d : Card) :
  In (last_named n l d) l \/ last_named n l d = d.
Proof.
  revert d. induction l as [|c l IH]; intros d; [now right|].
  cbn. destruct (IH (if (name c =? n)%string then c else d)) as [H|H].
  - left. now right.
  - rewrite H. destruct (name c =? n)%string; [left; now left|now right].
Qed.

Lemma by_name_In (l : list Card) (c : Card) : In c (by_name l) -> In c l.
Proof.
  unfold by_name. intros H. apply in_flat_map in H. destruct H as (n & _ & H).
  destruct (find _ l) as [d|] eqn:Ed; [|destruct H].
  destruct H as [<-|[]]. apply find_some in Ed. destruct Ed as [Hd _].
  destruct (last_named_In n l d) as [H|H]; [exact H|now rewrite H].
Qed.

Lemma splice1_length_middle {A : Type} (before after : list A) (x : A) :
  (List.length (before ++ after) + 1 = List.length (before ++ x :: after))%nat.
Proof. rewrite !length_app. cbn. lia. Qed.

(** X8: every RIDE that getRideActions offers to the player to move is
    accepted by applyRide on the same state, without report: a card with
    the id named becomes the vanguard, the former vanguard goes to the end
    of the soul and an ON_RIDE event for the two cards is queued, the next
    phase is set to "main", and the hand is one card shorter (the card
    ridden, or the card discarded for a ride from the ride deck). *)
Theorem generated_ride_is_applied (s : Party) (cid source : string)
        (discard : option string) :
  let cur := currentPlayerIndex s in
  In (RIDE cid source discard) (getRideActions s (players s cur)) ->
  exists s' new,
    applyRide s cid source discard = ([], Normal (NewObject s'))
    /\ unit_at s' (cur, V) = Some new /\ id new = cid
    /\ nextPhase s' = Some "main"
    /\ match unit_at s (cur, V) with
       | Some old =>
           soul (players s' cur) = soul (players s cur) ++ [old]
           /\ eventQueue s'
              = eventQueue s ++ [mkEvent "ON_RIDE" (Some (old, new)) None]
       | None =>
           soul (players s' cur) = soul (players s cur)
           /\ eventQueue s' = eventQueue s
       end
    /\ (List.length (hand (players s' cur)) + 1
        = List.length (hand (players s cur)))%nat.
Proof.
  intros cur H. unfold getRideActions in H. fold cur in H.
  apply in_app_or in H. destruct H as [H|H].
  - apply handRides_In in H. destruct H as (-> & -> & c & Hc & Hid).
    destruct (@findIndex_exists _ (fun c => (id c =? cid)%string)
                (hand (players s cur)) c Hc) as [k Hk];
      [now apply String.eqb_eq|].
    destruct (findIndex_Some _ _ Hk) as (before & new & after & Hhand & Hlen & Hnew & _).
    apply String.eqb_eq in Hnew.
    unfold applyRide, cloneDeep. fold cur. cbn [String.eqb Ascii.eqb Bool.eqb].
    rewrite Hk, Hhand, <- Hlen, splice1_middle.
    rewrite players_upd_same. unfold unit_at. cbn [fst snd].
    destruct (unit_of (board (players s cur)) V) as [old|] eqn:Eold;
      cbn [board set_hand]; rewrite Eold;
      eexists _, new; (split; [reflexivity|]).
    all: destruct cur; cbn; repeat split; auto; apply splice1_length_middle.
  - apply in_app_or in H. destruct H as [H|[H|[]]]; [|discriminate].
    destruct (find _ (rideDeck (players s cur))) as [rd|] eqn:Erd; [|destruct H].
    apply in_map_iff in H. destruct H as (dc & Heq & Hdc).
    inversion Heq; subst. clear Heq.
    apply by_name_In in Hdc. apply find_some in Erd. destruct Erd as [Hrd _].
    destruct (@findIndex_exists _ (fun c => (id c =? id rd)%string)
                (rideDeck (players s cur)) rd Hrd (String.eqb_refl _)) as [k Hk].
    destruct (findIndex_Some _ _ Hk) as (b1 & new & a1 & Hride & Hlen & Hnew & _).
    apply String.eqb_eq in Hnew.
    destruct (@findIndex_exists _ (fun c => (id c =? id dc)%string)
                (hand (players s cur)) dc Hdc (String.eqb_refl _)) as [k2 Hk2].
    destruct (findIndex_Some _ _ Hk2) as (b2 & dis & a2 & Hhand & Hlen2 & _ & _).
    unfold applyRide, cloneDeep. fold cur. cbn [String.eqb Ascii.eqb Bool.eqb].
    rewrite Hk, Hk2, Hride, Hhand, <- Hlen, <- Hlen2, !splice1_middle.
    rewrite players_upd_same. unfold unit_at. cbn [fst snd].
    destruct (unit_of (board (players s cur)) V) as [old|] eqn:Eold;
      cbn [board set_hand set_dropZone set_rideDeck]; rewrite Eold;
      eexists _, new; (split; [reflexivity|]).
    all: destruct cur; cbn; repeat split; auto; apply splice1_length_middle.
Qed.

(** X8 at [rideEx]: the grade 1 card of the hand is ridden on the grade 1
    vanguard. *)
Lemma generated_ride_is_applied_witness :
  exists s' new,
    applyRide rideEx "h-b" "hand" None = ([], Normal (NewObject s'))
    /\ unit_at s' (P0, V) = Some new /\ id new = "h-b"
    /\ soul (players s' P0) = [vanguardG1].
Proof.
  assert (Hin : In (RIDE "h-b" "hand" None) (getRideActions rideEx (players rideEx P0)))
    by (vm_compute; tauto).
  destruct (generated_ride_is_applied rideEx "h-b" "hand" None Hin)
    as (s' & new & Happ & Hv & Hid & _ & Hsoul & _).
  exists s', new. split; [exact Happ|]. split; [exact Hv|]. split; [exact Hid|].
  exact (proj1 Hsoul).
Defined.

(* ------------------------------------------------------------------ *)
(** ** Drawing and the mulligan                                        *)
(* ------------------------------------------------------------------ *)

Lemma upd_player_same (i : PlayerIndex) (s : Party) :
  upd_player i (fun p => set_hand (hand p ++ [])
                           (set_deck (deck (players s i)) p)) s = s.
Proof.
  destruct s as [[] [] ? ? ? ? ? ?], i; unfold upd_player; cbn;
    rewrite app_nil_r; reflexivity.
Qed.

Lemma draw_loop_spec (n : nat) (i : PlayerIndex) :
  forall s, exists drawn rest,
    deck (players s i) = rest ++ rev drawn
    /\ List.length drawn = Nat.min n (List.length (deck (players s i)))
    /\ draw_loop n i s
       = (upd_player i (fun p => set_hand (hand p ++ drawn) (set_deck rest p)) s,
          repeat (WarnDeckEmpty i) (n - List.length drawn)).
Proof.
  induction n as [|n IH]; intros s.
  - exists [], (deck (players s i)). split; [now rewrite app_nil_r|].
    split; [reflexivity|]. cbn [draw_loop]. now rewrite upd_player_same.
  - cbn [draw_loop]. unfold draw1.
    destruct (pop_cases (deck (players s i))) as [[Hd Hp]|(below & top & Hd & Hp)];
      rewrite Hp.
    + destruct (IH s) as (drawn & rest & Hdeck & Hlen & Hloop).
      rewrite Hd in Hlen. cbn in Hlen. rewrite Nat.min_0_r in Hlen.
      destruct drawn; [|discriminate].
      rewrite Hloop. exists [], rest. rewrite Hd. cbn.
      repeat split; auto.
      * rewrite Hd in Hdeck. exact Hdeck.
      * rewrite Nat.sub_0_r. reflexivity.
    + set (s1 := upd_player i (fun p => set_hand (hand p ++ [top]) (set_deck below p)) s).
      destruct (IH s1) as (drawn & rest & Hdeck & Hlen & Hloop).
      assert (Hdeck1 : deck (players s1 i) = below)
        by (unfold s1; rewrite players_upd_same; reflexivity).
      rewrite Hdeck1 in Hdeck, Hlen. rewrite Hloop.
      exists (top :: drawn), rest. rewrite Hd. cbn [rev List.length].
      repeat split.
      * rewrite Hdeck, app_assoc. reflexivity.
      * rewrite length_app. cbn [List.length]. lia.
      * unfold s1. destruct i; unfold upd_player; cbn; rewrite <- app_assoc;
          reflexivity.
Qed.

(** X9: [draw] moves the top cards of the deck (its last elements) to the
    end of the hand, the top card first, as many as asked or as the deck
    holds, whichever is less; it warns once for every card it could not
    draw and writes to nothing else. *)
Theorem draw_moves_top_cards (i : PlayerIndex) (count : Z) (s : Party) :
  exists drawn rest,
    deck (players s i) = rest ++ rev drawn
    /\ Z.of_nat (List.length drawn)
       = Z.max 0 (Z.min count (Z.of_nat (List.length (deck (players s i)))))
    /\ draw i count s
       = (upd_player i (fun p => set_hand (hand p ++ drawn) (set_deck rest p)) s,
          repeat (WarnDeckEmpty i) (Z.to_nat count - List.length drawn)).
Proof.
  unfold draw.
  destruct (draw_loop_spec (Z.to_nat count) i s) as (drawn & rest & Hd & Hl & Hdraw).
  exists drawn, rest. repeat split; auto. lia.
Qed.




Section Mulligan.

Variable randomIndex : Z -> Z.



End Mulligan.

(* ------------------------------------------------------------------ *)
(** ** How processEvents leaves the queue                              *)
(* ------------------------------------------------------------------ *)

Lemma filter_nil_forallb {A : Type} (p : A -> bool) (l : list A) :
  filter p l = [] -> forallb (fun x => negb (p x)) l = true.
Proof.
  induction l as [|a l IH]; [reflexivity|]. cbn.
  destruct (p a); [discriminate|]. exact IH.
Qed.

Section EventLoop.

Variable coerce_ge coerce_le : JsVal -> JsVal -> Completion bool.
Variable effectLibrary : Z -> option EffectFn.

(** Where a pass of the loop body stops for a choice, the head event holds
    optional effects only, and at least one. *)
Lemma loopBody_choice (party p : Party) (r : list Report) :
  loopBody coerce_ge coerce_le effectLibrary party = (r, Choice p) ->
  phase p = "effect_resolution"
  /\ exists ev rest pending,
       eventQueue p = ev :: rest
       /\ pendingEffects ev = Some pending
       /\ pending <> []
       /\ forallb (fun e => negb (mandatory (effect e))) pending = true.
Proof.
  unfold loopBody. destruct (eventQueue party) as [|ev q] eqn:Eq; [discriminate|].
  destruct (match pendingEffects ev with Some _ => _ | None => _ end)
    as [r0 [pending|]]; [|discriminate].
  destruct (filter (fun p => mandatory (effect p)) pending) as [|e l] eqn:Em;
    [|discriminate].
  destruct (filter (fun p => negb (mandatory (effect p))) pending) as [|o l] eqn:Eo;
    [discriminate|].
  intros H. inversion H; subst. clear H. split; [reflexivity|].
  unfold set_head_pending. rewrite Eq.
  exists (set_pendingEffects (Some pending) ev), q, pending.
  repeat split.
  - intros ->. discriminate Eo.
  - now apply filter_nil_forallb.
Qed.

Lemma loopBody_drained (party p : Party) (r : list Report) :
  loopBody coerce_ge coerce_le effectLibrary party = (r, Drained p) ->
  p = party /\ eventQueue party = [].
Proof.
  unfold loopBody. destruct (eventQueue party) as [|ev q] eqn:Eq.
  - intros H. inversion H. auto.
  - destruct (match pendingEffects ev with Some _ => _ | None => _ end)
      as [r0 [pending|]]; [|discriminate].
    destruct (filter (fun p => mandatory (effect p)) pending); [|discriminate].
    destruct (filter (fun p => negb (mandatory (effect p))) pending); discriminate.
Qed.

(** X11: when processEvents returns normally, either the event queue is
    empty and the phase is the one that was waited for ([nextPhase], or
    "main" when none is set), or the phase is "effect_resolution" and the
    event at the head of the queue holds a choice: a stored, non-empty list
    of pending effects none of which is mandatory. *)
Theorem processEvents_exit (fuel : nat) (party p' : Party) (r : list Report) :
  processEvents coerce_ge coerce_le effectLibrary fuel party
  = Some (p', (r, Normal tt)) ->
  (eventQueue p' = [] /\ phase p' = nextPhaseOrMain p')
  \/ (phase p' = "effect_resolution"
      /\ exists ev rest pending,
           eventQueue p' = ev :: rest
           /\ pendingEffects ev = Some pending
           /\ pending <> []
           /\ forallb (fun e => negb (mandatory (effect e))) pending = true).
Proof.
  revert party p' r. induction fuel as [|fuel IH]; intros party p' r H;
    [discriminate|].
  cbn [processEvents] in H.
  pose proof (@loopBody_choice party) as Hchoice.
  pose proof (@loopBody_drained party) as Hdrained.
  destruct (loopBody coerce_ge coerce_le effectLibrary party) as [r0 pt].
  destruct pt as [f payload p|p|p|p|p].
  - destruct f as [f|]; [|discriminate].
    destruct (f payload p) as [p1 [r1 [u|]]]; [|discriminate].
    destruct (processEvents _ _ _ fuel p1) as [[p2 [r2 c]]|] eqn:E; [|discriminate].
    inversion H; subst. destruct u. eapply IH; eauto.
  - inversion H; subst. right. eapply Hchoice; eauto.
  - destruct (processEvents _ _ _ fuel p) as [[p2 [r2 c]]|] eqn:E; [|discriminate].
    inversion H; subst. eapply IH; eauto.
  - discriminate.
  - inversion H; subst. left.
    destruct (Hdrained p r eq_refl) as [-> Hq]. split; [exact Hq|reflexivity].
Qed.

End EventLoop.

(** X11 at [riddenEx]: the ON_RIDE event is resolved and the main phase
    begins. *)
Lemma processEvents_exit_witness :
  exists p',
    processEvents compareAsNaN compareAsNaN effects 3 riddenEx
    = Some (p', ([], Normal tt))
    /\ eventQueue p' = [] /\ phase p' = "main".
Proof.
  pose (p' := match processEvents compareAsNaN compareAsNaN effects 3 riddenEx with
              | Some (p', _) => p'
              | None => riddenEx
              end).
  assert (E : processEvents compareAsNaN compareAsNaN effects 3 riddenEx
              = Some (p', ([], Normal tt))) by (vm_compute; reflexivity).
  exists p'. split; [exact E|].
  destruct (processEvents_exit compareAsNaN compareAsNaN effects 3 riddenEx E)
    as [[Hq Hp]|[Hp _]].
  - split; [exact Hq|]. rewrite Hp. vm_compute. reflexivity.
  - vm_compute in Hp. discriminate Hp.
Defined.
